(** * st4rs: star field, selection and constellation placement

    A shallow embedding of the TypeScript sources

      - [components/StarField.tsx] (the variant with [remapPosition] and the
        selection mix),
      - [components/GalaxyCanvas.tsx] (the variant with [focusCameraOn]),
      - [components/ConstellationCanvas.tsx],

    followed by the properties established about them.

    Conventions of the embedding.

      - A JavaScript [number] that only goes through [+], [-], [*], [/],
        comparisons, [Math.round] and [toFixed] is an exact rational ([Q]);
        every finite double is a rational and the comparisons agree.  Rounding
        error of IEEE arithmetic is not modelled.
      - Positions that go through [Math.sqrt] are real numbers ([R]).
      - A JavaScript [string] is a [string] of ASCII characters; [trim],
        [toUpperCase] and [toLowerCase] act on the ASCII range.
      - [Math.random] reads an explicit source of draws ([Rng]);
        [console.warn] appends to an explicit console.
      - React state is a record; every event handler is a function from the
        state of the render it closes over to the next state. *)

From Stdlib Require Import List String Ascii Bool Arith ZArith Lia.
From Stdlib Require Import QArith Qround Qabs Lqa.
From Stdlib Require Import Reals Lra Qreals.
From Stdlib Require Import DecimalString.
Import ListNotations.

Set Implicit Arguments.

(* ================================================================== *)
(** * JavaScript primitives used by the sources *)
(* ================================================================== *)

Module JS.

Local Open Scope string_scope.

(** The white space of the ASCII range that [String.prototype.trim]
    removes: TAB, LF, VT, FF, CR and SPACE. *)
Definition isWhiteSpace (c : ascii) : bool :=
  let n := nat_of_ascii c in
  (((9 <=? n) && (n <=? 13)) || (n =? 32))%nat.

Fixpoint trimStart (s : string) : string :=
  match s with
  | EmptyString => EmptyString
  | String c rest => if isWhiteSpace c then trimStart rest else s
  end.

Fixpoint trimEnd (s : string) : string :=
  match s with
  | EmptyString => EmptyString
  | String c rest =>
      match trimEnd rest with
      | EmptyString => if isWhiteSpace c then EmptyString
                       else String c EmptyString
      | kept => String c kept
      end
  end.

Definition trim (s : string) : string := trimEnd (trimStart s).

Definition isLower (c : ascii) : bool :=
  let n := nat_of_ascii c in ((97 <=? n) && (n <=? 122))%nat.

Definition isUpper (c : ascii) : bool :=
  let n := nat_of_ascii c in ((65 <=? n) && (n <=? 90))%nat.

Definition charToUpperCase (c : ascii) : ascii :=
  if isLower c then ascii_of_nat (nat_of_ascii c - 32)%nat else c.

Definition charToLowerCase (c : ascii) : ascii :=
  if isUpper c then ascii_of_nat (nat_of_ascii c + 32)%nat else c.

Fixpoint toLowerCase (s : string) : string :=
  match s with
  | EmptyString => EmptyString
  | String c rest => String (charToLowerCase c) (toLowerCase rest)
  end.

(** Truthiness of a [string] and of a [string | null]. *)
Definition truthy (s : string) : bool :=
  match s with EmptyString => false | String _ _ => true end.

Definition truthyOpt (s : option string) : bool :=
  match s with None => false | Some v => truthy v end.

(** [a || b] on [string | null] with a string default. *)
Definition orElse (s : option string) (d : string) : string :=
  match s with
  | Some v => if truthy v then v else d
  | None => d
  end.

(** [Math.round]: the integer nearest to [x], ties towards +infinity. *)
Definition Math_round (x : Q) : Q := inject_Z (Qfloor (x + (1 # 2))%Q).

(** Decimal rendering of integers, as in template literals. *)
Definition showNat (n : nat) : string :=
  NilZero.string_of_uint (Nat.to_uint n).

Definition showN (n : Z) : string :=
  NilZero.string_of_uint (N.to_uint (Z.to_N n)).

(** [x.toFixed(2)]: the integer [n] with [n / 100] closest to [|x|] (the
    larger one on a tie), printed with two decimals, with the sign of [x]
    in front when [x < 0]. *)
Definition toFixed2 (x : Q) : string :=
  let a := Qabs x in
  let n := Qfloor (a * 100 + (1 # 2))%Q in
  let whole := (n / 100)%Z in
  let cents := (n mod 100)%Z in
  let pad := if (cents <? 10)%Z then "0" else "" in
  (if Qlt_le_dec x 0%Q then "-" else "")
    ++ showN whole ++ "." ++ pad ++ showN cents.

(** Whether a number is an integer. *)
Definition isInteger (x : Q) : bool :=
  (Qnum x mod Zpos (Qden x) =? 0)%Z.

End JS.

(* ================================================================== *)
(** * The source of random draws *)
(* ================================================================== *)

(** [Math.random()] is unseeded; the embedding reads the draws from an
    explicit source and advances a cursor. *)
Record Rng : Type := mkRng { draws : nat -> Q; cursor : nat }.

Definition Math_random (g : Rng) : Q * Rng :=
  (draws g (cursor g), mkRng (draws g) (S (cursor g))).

(** Every draw of [Math.random] lies in [[0, 1)]. *)
Definition validRng (g : Rng) : Prop :=
  forall n, 0 <= draws g n /\ draws g n < 1.

(** Computations that consume random draws. *)
Definition Rand (A : Type) : Type := Rng -> A * Rng.

Definition ret {A} (a : A) : Rand A := fun g => (a, g).

Definition bind {A B} (m : Rand A) (k : A -> Rand B) : Rand B :=
  fun g => let (a, g') := m g in k a g'.

Declare Scope rand_scope.
Delimit Scope rand_scope with rand.
Notation "x <- m ;; k" := (bind m (fun x => k))
  (at level 61, m at next level, right associativity) : rand_scope.

(** [randInRange(min, max)]; the three sources define it identically. *)
Definition randInRange (min max : Q) : Rand Q :=
  fun g => let (u, g') := Math_random g in (min + u * (max - min), g').

(* ================================================================== *)
(** * Types shared by the components *)
(* ================================================================== *)

Inductive SpectralClass : Type := O | B | A | F | G | K | M.

(** The letter of a class, as it appears in template literals. *)
Definition classLetter (c : SpectralClass) : string :=
  match c with
  | O => "O" | B => "B" | A => "A" | F => "F" | G => "G" | K => "K" | M => "M"
  end%string.

(** [CatalogStar], one row of [data/stars.json]. *)
Module CatalogStar.
Record t : Type := mk {
  name : option string;
  raHours : Q;
  decDeg : Q;
  distParsec : Q;
  mag : Q;
  spect : option string;
  x : Q;
  y : Q;
  z : Q
}.
End CatalogStar.

Definition Vec3 : Type := (R * R * R)%type.

(** [StarSelectionInfo], what the UI receives when a star is selected. *)
Module StarSelectionInfo.
Record t : Type := mk {
  position : Vec3;
  name : string;
  status : string;
  type : string;
  temperature : Q;
  size : string
}.
End StarSelectionInfo.

(** The magnitude ladder and the letter test are the same text in
    [inferSpectralClass] ([StarField.tsx], both variants) and in
    [inferSpectralClassFromCatalog] ([GalaxyCanvas.tsx]). *)
Definition inferSpectralClass (star : CatalogStar.t) : SpectralClass :=
  let raw := JS.trim (JS.orElse (CatalogStar.spect star) "") in
  let byMagnitude :=
    let m := CatalogStar.mag star in
    if Qle_bool m 0 then B
    else if Qle_bool m (3 # 2) then A
    else if Qle_bool m 3 then F
    else if Qle_bool m (9 # 2) then G
    else if Qle_bool m 6 then K
    else M in
  match raw with
  | EmptyString => byMagnitude
  | String c0 _ =>
      let c := JS.charToUpperCase c0 in
      if Ascii.eqb c "O" then O
      else if Ascii.eqb c "B" then B
      else if Ascii.eqb c "A" then A
      else if Ascii.eqb c "F" then F
      else if Ascii.eqb c "G" then G
      else if Ascii.eqb c "K" then K
      else if Ascii.eqb c "M" then M
      else byMagnitude
  end.

(* ================================================================== *)
(** * [components/StarField.tsx] *)
(* ================================================================== *)

Module StarField.

Module SpectralConfig.
Record t : Type := mk {
  tempRange : Q * Q;
  radiusRangeSun : Q * Q;
  color : string;
  label : string
}.
End SpectralConfig.

Definition SPECTRAL_CONFIG (c : SpectralClass) : SpectralConfig.t :=
  match c with
  | O => SpectralConfig.mk (30000, 50000) (6, 10)
           "#7dd7ff" "O-type blue star"
  | B => SpectralConfig.mk (10000, 30000) (2, 6)
           "#8fb9ff" "B-type blue white star"
  | A => SpectralConfig.mk (7500, 10000) (14 # 10, 2)
           "#e0e6ff" "A-type white star"
  | F => SpectralConfig.mk (6000, 7500) (115 # 100, 14 # 10)
           "#ffe9c2" "F-type yellow white star"
  | G => SpectralConfig.mk (5200, 6000) (9 # 10, 115 # 100)
           "#ffd27a" "G-type yellow star"
  | K => SpectralConfig.mk (3700, 5200) (7 # 10, 9 # 10)
           "#ff9c4a" "K-type orange star"
  | M => SpectralConfig.mk (2400, 3700) (1 # 10, 7 # 10)
           "#ff6b3b" "M-type red dwarf"
  end.

Module StarAttributes.
Record t : Type := mk {
  name : string;
  status : string;
  spectralClass : SpectralClass;
  temperature : Q;
  radiusSun : Q
}.
End StarAttributes.

Module StarData.
Record t : Type := mk {
  position : Vec3;
  meshScale : Q;
  color : string;
  attributes : StarAttributes.t
}.
End StarData.

Definition VIS_MIN : Q := 20.
Definition VIS_MAX : Q := 85.

(** [remapPosition]: remap catalog coordinates into the visible shell.
    [Math.sqrt(...) || 1e-6] replaces a zero norm by [1e-6]. *)
Definition remapPosition (x y z : R) : Rand Vec3 :=
  fun g =>
    let norm := sqrt (x * x + y * y + z * z) in
    let rOrig := if Req_dec_T norm 0 then (1 / 1000000)%R else norm in
    let (targetR, g') := randInRange VIS_MIN VIS_MAX g in
    let k := (Q2R targetR / rOrig)%R in
    ((x * k, y * k, z * k)%R, g').

(** The stable ascending sort of [[...raw].sort((a, b) => a.distParsec -
    b.distParsec)]: an element goes in front of the first later element
    that is not nearer. *)
Fixpoint insertByDistance (a : CatalogStar.t) (l : list CatalogStar.t)
  : list CatalogStar.t :=
  match l with
  | [] => [a]
  | b :: rest =>
      if Qle_bool (CatalogStar.distParsec a) (CatalogStar.distParsec b)
      then a :: l
      else b :: insertByDistance a rest
  end.

Definition sortByDistance (raw : list CatalogStar.t) : list CatalogStar.t :=
  fold_right insertByDistance [] raw.

(** [sorted.slice(0, 2500)]. *)
Definition subset (raw : list CatalogStar.t) : list CatalogStar.t :=
  firstn 2500 (sortByDistance raw).

(** Each unnamed star gets a unique label. *)
Definition displayName (s : CatalogStar.t) (index : nat) : string :=
  match CatalogStar.name s with
  | Some n =>
      if JS.truthy n && (0 <? String.length (JS.trim n))%nat
      then n
      else ("Unnamed #" ++ JS.showNat index)%string
  | None => ("Unnamed #" ++ JS.showNat index)%string
  end.

Definition SCALE : Q := 9 # 100.

(** The body of [subset.map((s, index) => ...)]: the draws are the
    temperature, the radius and the target radius, in this order. *)
Definition projectStar (s : CatalogStar.t) (index : nat)
  : Rand StarData.t :=
  (let cls := inferSpectralClass s in
   let cfg := SPECTRAL_CONFIG cls in
   t <- randInRange (fst (SpectralConfig.tempRange cfg))
                    (snd (SpectralConfig.tempRange cfg)) ;;
   let temperature := JS.Math_round t in
   radiusSun <- randInRange (fst (SpectralConfig.radiusRangeSun cfg))
                            (snd (SpectralConfig.radiusRangeSun cfg)) ;;
   let meshScale := radiusSun * SCALE in
   p <- remapPosition (Q2R (CatalogStar.x s)) (Q2R (CatalogStar.y s))
                      (Q2R (CatalogStar.z s)) ;;
   ret (StarData.mk p meshScale (SpectralConfig.color cfg)
          (StarAttributes.mk (displayName s index) "unclaimed" cls
             temperature radiusSun)))%rand.

Fixpoint projectFrom (index : nat) (l : list CatalogStar.t)
  : Rand (list StarData.t) :=
  match l with
  | [] => ret []
  | s :: rest =>
      (d <- projectStar s index ;;
       ds <- projectFrom (S index) rest ;;
       ret (d :: ds))%rand
  end.

(** The memoised [stars] of the [StarField] component, computed once when
    the component mounts. *)
Definition stars (raw : list CatalogStar.t) : Rand (list StarData.t) :=
  projectFrom 0 (subset raw).

(** ** The [Star] component *)

(** [targetMix] of the frame callback: 0 = fully grey, 1 = fully
    colorful. *)
Definition targetMix (data : StarData.t) (selectedName : option string)
  : Q :=
  let hasSelection := JS.truthyOpt selectedName in
  let isSelected :=
    hasSelection &&
    match selectedName with
    | Some n => String.eqb (StarAttributes.name (StarData.attributes data)) n
    | None => false
    end in
  let shouldBeColorful := negb hasSelection || isSelected in
  if shouldBeColorful then 1 else 0.

(** One frame of [focusMixRef.current += (targetMix - focusMixRef.current)
    * 0.12].  The colour and the wobble computed in the same callback read
    the mix and write only to the mesh; they are left out. *)
Definition frameMix (data : StarData.t) (selectedName : option string)
    (focusMix : Q) : Q :=
  focusMix + (targetMix data selectedName - focusMix) * (12 # 100).

(** [useRef(1)]. *)
Definition initialMix : Q := 1.

(** The mix after [n] frames under a fixed selection. *)
Fixpoint mixAfter (n : nat) (data : StarData.t)
    (selectedName : option string) (focusMix : Q) : Q :=
  match n with
  | 0%nat => focusMix
  | S n' => mixAfter n' data selectedName
              (frameMix data selectedName focusMix)
  end.

(** The record that [handleClick] passes to [onSelect]. *)
Definition handleClick (data : StarData.t) : StarSelectionInfo.t :=
  let attr := StarData.attributes data in
  StarSelectionInfo.mk
    (StarData.position data)
    (StarAttributes.name attr)
    (StarAttributes.status attr)
    (classLetter (StarAttributes.spectralClass attr) ++ "-type star")%string
    (StarAttributes.temperature attr)
    (JS.toFixed2 (StarAttributes.radiusSun attr) ++ " x Sun radius")%string.

End StarField.

(* ================================================================== *)
(** * [components/GalaxyCanvas.tsx] *)
(* ================================================================== *)

(** The part of [THREE.Vector3] that the canvas uses. *)
Module Vector3.

Definition length (v : Vec3) : R :=
  let '(a, b, c) := v in sqrt (a * a + b * b + c * c).

Definition multiplyScalar (v : Vec3) (s : R) : Vec3 :=
  let '(a, b, c) := v in (a * s, b * s, c * s)%R.

Definition add (v w : Vec3) : Vec3 :=
  let '(a, b, c) := v in
  let '(a', b', c') := w in (a + a', b + b', c + c')%R.

(** [normalize()] is [divideScalar(length() || 1)], and [divideScalar(s)]
    is [multiplyScalar(1 / s)]. *)
Definition normalize (v : Vec3) : Vec3 :=
  let l := length v in
  multiplyScalar v (1 / (if Req_dec_T l 0 then 1 else l))%R.

End Vector3.

Module GalaxyCanvas.

Module SpectralConfig.
Record t : Type := mk {
  tempRange : Q * Q;
  radiusRangeSun : Q * Q;
  label : string
}.
End SpectralConfig.

Definition SPECTRAL_CONFIG (c : SpectralClass) : SpectralConfig.t :=
  match c with
  | O => SpectralConfig.mk (30000, 50000) (6, 10) "O-type blue star"
  | B => SpectralConfig.mk (10000, 30000) (2, 6) "B-type blue white star"
  | A => SpectralConfig.mk (7500, 10000) (14 # 10, 2) "A-type white star"
  | F => SpectralConfig.mk (6000, 7500) (115 # 100, 14 # 10)
           "F-type yellow white star"
  | G => SpectralConfig.mk (5200, 6000) (9 # 10, 115 # 100)
           "G-type yellow star"
  | K => SpectralConfig.mk (3700, 5200) (7 # 10, 9 # 10)
           "K-type orange star"
  | M => SpectralConfig.mk (2400, 3700) (1 # 10, 7 # 10) "M-type red dwarf"
  end.

Definition inferSpectralClassFromCatalog (star : CatalogStar.t)
  : SpectralClass := inferSpectralClass star.

(** The orbit controls behind [controlsRef]: the orbit target and the
    position of the camera they drive. *)
Module Controls.
Record t : Type := mk { target : Vec3; cameraPosition : Vec3 }.
End Controls.

(** [focusCameraOn]: the orbit target is exactly at the star and the
    camera keeps the same offset relative to it. *)
Definition focusCameraOn (controls : Controls.t) (position : Vec3)
    (distance : R) : Controls.t :=
  let offset : Vec3 := (0, 0, distance)%R in
  Controls.mk position (Vector3.add position offset).

(** The state of the component: the two [useState] cells and the object
    behind [controlsRef] ([None] while the ref is [null]). *)
Record State : Type := mkState {
  selectedStar : option StarSelectionInfo.t;
  searchValue : string;
  controls : option Controls.t
}.

(** What the handlers reach outside the component: the random source and
    the console ([console.warn] appends its arguments). *)
Record World : Type := mkWorld {
  rng : Rng;
  console : list (list string)
}.

Definition console_warn (args : list string) (w : World) : World :=
  mkWorld (rng w) (console w ++ [args]).

Definition handleStarSelect (info : StarSelectionInfo.t) (st : State)
  : State :=
  mkState (Some info) (searchValue st)
    (match controls st with
     | Some c => Some (focusCameraOn c (StarSelectionInfo.position info) 30)
     | None => None
     end).

Definition handleVoidClick (st : State) : State :=
  mkState None (searchValue st)
    (match controls st with
     | Some _ => Some (Controls.mk (0, 0, 0)%R (0, 0, 120)%R)
     | None => None
     end).

Definition setSearchValue (v : string) (st : State) : State :=
  mkState (selectedStar st) v (controls st).

(** The predicate of [stars.find(...)]. *)
Definition matchesQuery (query : string) (s : CatalogStar.t) : bool :=
  match CatalogStar.name s with
  | Some n =>
      JS.truthy n && String.eqb (JS.toLowerCase n) (JS.toLowerCase query)
  | None => false
  end.

(** The synthetic but stable focus position of a found star. *)
Definition focusPosition (targetStar : CatalogStar.t) : Vec3 :=
  let dir : Vec3 := (Q2R (CatalogStar.x targetStar),
                     Q2R (CatalogStar.y targetStar),
                     Q2R (CatalogStar.z targetStar)) in
  let dir := if Req_dec_T (Vector3.length dir) 0 then (0, 0, 1)%R
             else dir in
  let dir := Vector3.normalize dir in
  let focusDistance := 50%R in
  Vector3.multiplyScalar dir focusDistance.

(** The selection record that [performSearch] builds for a found star. *)
Definition searchInfo (targetStar : CatalogStar.t)
  : Rand StarSelectionInfo.t :=
  (let spectralClass := inferSpectralClassFromCatalog targetStar in
   let cfg := SPECTRAL_CONFIG spectralClass in
   t <- randInRange (fst (SpectralConfig.tempRange cfg))
                    (snd (SpectralConfig.tempRange cfg)) ;;
   let temperature := JS.Math_round t in
   radiusSun <- randInRange (fst (SpectralConfig.radiusRangeSun cfg))
                            (snd (SpectralConfig.radiusRangeSun cfg)) ;;
   ret (StarSelectionInfo.mk
          (focusPosition targetStar)
          (JS.orElse (CatalogStar.name targetStar) "Unnamed star")
          "unclaimed"
          (SpectralConfig.label cfg)
          temperature
          (JS.toFixed2 radiusSun ++ " x Sun radius")%string))%rand.

(** [performSearch], from the click on "Go" to the completion of the
    lookup; [stars] is the content of [data/stars.json]. *)
Definition performSearch (stars : list CatalogStar.t) (st : State)
    (w : World) : State * World :=
  if negb (JS.truthy (JS.trim (searchValue st))) then (st, w)
  else
    match find (matchesQuery (searchValue st)) stars with
    | None =>
        (st, console_warn ["Star not found:"%string; searchValue st] w)
    | Some targetStar =>
        let (info, g') := searchInfo targetStar (rng w) in
        (mkState (Some info) (searchValue st)
           (match controls st with
            | Some c =>
                Some (focusCameraOn c (StarSelectionInfo.position info) 30)
            | None => None
            end),
         mkWorld g' (console w))
    end.

(** [selectedName={selectedStar?.name ?? null}]. *)
Definition selectedName (st : State) : option string :=
  match selectedStar st with
  | Some info => Some (StarSelectionInfo.name info)
  | None => None
  end.

(** ** A session of the galaxy scene *)

(** The scene once mounted: the memoised stars of [StarField], the state
    of the canvas and the world. *)
Record Session : Type := mkSession {
  loaded : list StarField.StarData.t;
  ui : State;
  world : World
}.

Definition mount (catalog : list CatalogStar.t) (g : Rng) : Session :=
  let (stars, g') := StarField.stars catalog g in
  mkSession stars
    (mkState None ""
       (Some (Controls.mk (0, 0, 0)%R (0, 0, 120)%R)))
    (mkWorld g' []).

Inductive Event : Type :=
| StarClick (index : nat)
| VoidClick
| Input (v : string)
| Search.

Definition step (catalog : list CatalogStar.t) (s : Session) (e : Event)
  : Session :=
  match e with
  | StarClick index =>
      match nth_error (loaded s) index with
      | Some data =>
          mkSession (loaded s)
            (handleStarSelect (StarField.handleClick data) (ui s))
            (world s)
      | None => s
      end
  | VoidClick => mkSession (loaded s) (handleVoidClick (ui s)) (world s)
  | Input v => mkSession (loaded s) (setSearchValue v (ui s)) (world s)
  | Search =>
      let (st', w') := performSearch catalog (ui s) (world s) in
      mkSession (loaded s) st' w'
  end.

Definition run (catalog : list CatalogStar.t) (s : Session)
    (events : list Event) : Session :=
  fold_left (step catalog) events s.

End GalaxyCanvas.

(* ================================================================== *)
(** * [components/ConstellationCanvas.tsx] *)
(* ================================================================== *)

Module ConstellationCanvas.

Inductive StarRarity : Type := common | uncommon.

Definition rarityName (r : StarRarity) : string :=
  match r with common => "common" | uncommon => "uncommon" end%string.

Definition Point : Type := (Q * Q * Q)%type.

Module InventoryStar.
Record t : Type := mk {
  id : string;
  rarity : StarRarity;
  placed : bool;
  position : option Point;
  name : string;
  status : string;
  type : string;
  temperature : Q;
  sizeLabel : string
}.
End InventoryStar.

Module RarityVisualConfig.
Record t : Type := mk {
  sizeRange : Q * Q;
  color : string;
  flickerStrength : Q;
  typeName : string;
  sizeLabel : string;
  temperatureRange : Q * Q
}.
End RarityVisualConfig.

Definition RARITY_VISUAL_CONFIG (r : StarRarity) : RarityVisualConfig.t :=
  match r with
  | common =>
      RarityVisualConfig.mk (5 # 100, 8 # 100) "#ffb26b" (7 # 100)
        "K/M-type dwarf" "Small" (3000, 5000)
  | uncommon =>
      RarityVisualConfig.mk (6 # 100, 95 # 1000) "#ffd86b" (1 # 10)
        "G-type star" "Medium" (5000, 6000)
  end.

(** [snapToGrid(pos, step)]. *)
Definition snapToGrid (pos : Point) (step : Q) : Point :=
  let '(px, py, pz) := pos in
  let x := JS.Math_round (px / step) * step in
  let y := JS.Math_round (py / step) * step in
  let z := JS.Math_round (pz / step) * step in
  (x, y, z).

Definition makeStar (rarity : StarRarity) (index : nat)
  : Rand InventoryStar.t :=
  (let cfg := RARITY_VISUAL_CONFIG rarity in
   t <- randInRange (fst (RarityVisualConfig.temperatureRange cfg))
                    (snd (RarityVisualConfig.temperatureRange cfg)) ;;
   let temp := JS.Math_round t in
   ret (InventoryStar.mk
          (rarityName rarity ++ "-" ++ JS.showNat index)%string
          rarity false None "???" "unclaimed"
          (RarityVisualConfig.typeName cfg)
          temp
          (RarityVisualConfig.sizeLabel cfg)))%rand.

(** [for (let i = from; i < from + count; i++) items.push(makeStar(rarity,
    i))], returning the pushed entries in order. *)
Fixpoint makeStars (rarity : StarRarity) (from count : nat)
  : Rand (list InventoryStar.t) :=
  match count with
  | 0%nat => ret []
  | S count' =>
      (s <- makeStar rarity from ;;
       rest <- makeStars rarity (S from) count' ;;
       ret (s :: rest))%rand
  end.

(** The initialiser of the [inventory] state. *)
Definition initialInventory : Rand (list InventoryStar.t) :=
  (commons <- makeStars common 0 5 ;;
   uncommons <- makeStars uncommon 0 2 ;;
   ret (commons ++ uncommons))%rand.

Record State : Type := mkState {
  inventory : list InventoryStar.t;
  editMode : bool;
  selectedInventoryId : option string;
  selectedStar : option InventoryStar.t
}.

Definition initialState (g : Rng) : State :=
  mkState (fst (initialInventory g)) false None None.

(** [inventory.find((s) => s.id === id)]. *)
Definition findById (id : string) (inv : list InventoryStar.t)
  : option InventoryStar.t :=
  find (fun s => String.eqb (InventoryStar.id s) id) inv.

(** [placedStars]. *)
Definition placedStars (st : State) : list InventoryStar.t :=
  filter (fun s =>
            InventoryStar.placed s &&
            match InventoryStar.position s with
            | Some _ => true
            | None => false
            end)
         (inventory st).

Definition handleToggleEdit (st : State) : State :=
  mkState (inventory st) (negb (editMode st))
    (if editMode st then None else selectedInventoryId st)
    (selectedStar st).

Definition handleSelectInventoryStar (id : string) (st : State) : State :=
  if negb (editMode st) then st
  else
    mkState (inventory st) (editMode st)
      (match selectedInventoryId st with
       | Some prev => if String.eqb prev id then None else Some id
       | None => Some id
       end)
      (selectedStar st).

Definition returned (s : InventoryStar.t) : InventoryStar.t :=
  InventoryStar.mk (InventoryStar.id s) (InventoryStar.rarity s)
    false None
    (InventoryStar.name s) (InventoryStar.status s) (InventoryStar.type s)
    (InventoryStar.temperature s) (InventoryStar.sizeLabel s).

Definition handleReturnToInventory (id : string) (st : State) : State :=
  mkState
    (map (fun s => if String.eqb (InventoryStar.id s) id then returned s
                   else s)
         (inventory st))
    (editMode st)
    (match selectedInventoryId st with
     | Some armed => if String.eqb armed id then None else Some armed
     | None => None
     end)
    (match selectedStar st with
     | Some sel => if String.eqb (InventoryStar.id sel) id then None
                   else Some sel
     | None => None
     end).

Definition placedAt (s : InventoryStar.t) (p : Point) : InventoryStar.t :=
  InventoryStar.mk (InventoryStar.id s) (InventoryStar.rarity s)
    true (Some p)
    (InventoryStar.name s) (InventoryStar.status s) (InventoryStar.type s)
    (InventoryStar.temperature s) (InventoryStar.sizeLabel s).

Definition handlePlaneClick (pos : Point) (st : State) : State :=
  if negb (editMode st) || negb (JS.truthyOpt (selectedInventoryId st))
  then st
  else
    match selectedInventoryId st with
    | None => st
    | Some armed =>
        let snapped := snapToGrid pos 1 in
        match findById armed (inventory st) with
        | None => st
        | Some baseStar =>
            let updatedStar := placedAt baseStar snapped in
            mkState
              (map (fun s => if String.eqb (InventoryStar.id s) armed
                             then updatedStar else s)
                   (inventory st))
              (editMode st)
              (selectedInventoryId st)
              (Some updatedStar)
        end
    end.

Definition handlePlacedStarClick (id : string) (st : State) : State :=
  match findById id (inventory st) with
  | None => st
  | Some star =>
      match InventoryStar.position star with
      | None => st
      | Some _ =>
          mkState (inventory st) (editMode st)
            (if editMode st then Some id else selectedInventoryId st)
            (Some star)
      end
  end.

Definition clearSelection (st : State) : State :=
  mkState (inventory st) (editMode st) None None.

(** ** The operations of the placement system *)

Inductive Op : Type :=
| ToggleEdit
| ArmForPlacement (id : string)
| PlaceAt (rawPosition : Point)
| ReturnToInventory (id : string)
| PlacedStarClick (id : string)
| BackgroundClick.

(** The handlers, called with any argument. *)
Definition perform (st : State) (op : Op) : State :=
  match op with
  | ToggleEdit => handleToggleEdit st
  | ArmForPlacement id => handleSelectInventoryStar id st
  | PlaceAt p => handlePlaneClick p st
  | ReturnToInventory id => handleReturnToInventory id st
  | PlacedStarClick id => handlePlacedStarClick id st
  | BackgroundClick => clearSelection st
  end.

Definition applyAll (st : State) (ops : list Op) : State :=
  fold_left perform ops st.

(** ** The controls that the component renders

    A row of the inventory panel shows [Return] for a placed entry and
    [Use] otherwise ([placed ? <button Return> : <button Use>]); [Use]
    is [disabled={!editMode}].  A disabled or absent button delivers no
    click. *)
Definition clickUse (id : string) (st : State) : State :=
  match findById id (inventory st) with
  | None => st
  | Some star =>
      if InventoryStar.placed star then st
      else if negb (editMode st) then st
      else handleSelectInventoryStar id st
  end.

Definition clickReturn (id : string) (st : State) : State :=
  match findById id (inventory st) with
  | None => st
  | Some star =>
      if InventoryStar.placed star then handleReturnToInventory id st
      else st
  end.

(** [PlacementPlane]: [if (!editMode) return; onPlace(e.point.clone())]. *)
Definition clickPlane (pos : Point) (st : State) : State :=
  if negb (editMode st) then st else handlePlaneClick pos st.

(** A [ConstellationStar] exists for the entries of [placedStars]. *)
Definition clickPlacedStar (id : string) (st : State) : State :=
  match findById id (placedStars st) with
  | None => st
  | Some _ => handlePlacedStarClick id st
  end.

(** [armForPlacement(id)] of the specification is the click on [Use] in
    the row of [id]. *)
Definition armForPlacement (id : string) (st : State) : State :=
  clickUse id st.

End ConstellationCanvas.

(* ================================================================== *)
(** * The reference definition of spectral-class inference *)
(* ================================================================== *)

(** The definition below follows the wording of the specification, not the
    source: a table of recognised letters, and a ladder of inclusive upper
    bounds evaluated in increasing order, the first match winning. *)
Module Reference.

Definition recognisedLetters : list (ascii * SpectralClass) :=
  [("O", O); ("B", B); ("A", A); ("F", F); ("G", G); ("K", K); ("M", M)]
  %char.

Definition magnitudeLadder : list (Q * SpectralClass) :=
  [(0, B); (3 # 2, A); (3, F); (9 # 2, G); (6, K)].

Fixpoint firstMatch (m : Q) (ladder : list (Q * SpectralClass))
  : SpectralClass :=
  match ladder with
  | [] => M
  | (bound, cls) :: rest =>
      if Qle_bool m bound then cls else firstMatch m rest
  end.

Fixpoint lookupLetter (c : ascii) (table : list (ascii * SpectralClass))
  : option SpectralClass :=
  match table with
  | [] => None
  | (l, cls) :: rest => if Ascii.eqb c l then Some cls
                        else lookupLetter c rest
  end.

(** The class named by the uppercased first character of the trimmed
    spectral-type string, if any. *)
Definition letterOf (star : CatalogStar.t) : option SpectralClass :=
  match JS.trim (JS.orElse (CatalogStar.spect star) "") with
  | EmptyString => None
  | String c _ => lookupLetter (JS.charToUpperCase c) recognisedLetters
  end.

Definition spectralClass (star : CatalogStar.t) : SpectralClass :=
  match letterOf star with
  | Some cls => cls
  | None => firstMatch (CatalogStar.mag star) magnitudeLadder
  end.

(** The ladder as a relation between a magnitude and a class. *)
Definition onLadder (m : Q) (cls : SpectralClass) : Prop :=
  (m <= 0 /\ cls = B) \/
  (0 < m /\ m <= 3 # 2 /\ cls = A) \/
  (3 # 2 < m /\ m <= 3 /\ cls = F) \/
  (3 < m /\ m <= 9 # 2 /\ cls = G) \/
  (9 # 2 < m /\ m <= 6 /\ cls = K) \/
  (6 < m /\ cls = M).

End Reference.

(** A record with the given spectral-type string and magnitude, everything
    else blank. *)
Definition bareStar (spect : option string) (mag : Q) : CatalogStar.t :=
  CatalogStar.mk None 0 0 0 mag spect 0 0 0.


(* ================================================================== *)
(** * Predicates of the properties *)
(* ================================================================== *)

(** [r] is [x] rounded to the nearest multiple of [step] (the upper one on
    a tie). *)
Definition roundedToStep (step x r : Q) : Prop :=
  (exists k : Z, r == inject_Z k * step) /\
  x - step / 2 < r /\ r <= x + step / 2.

(** All three coordinates are integers. *)
Definition onIntegerGrid (p : ConstellationCanvas.Point) : Prop :=
  let '(a, b, c) := p in
  JS.isInteger a = true /\ JS.isInteger b = true /\ JS.isInteger c = true.

(** The placement fields of an inventory entry agree, and a stored position
    is on the integer grid. *)
Definition wellPlaced (s : ConstellationCanvas.InventoryStar.t) : Prop :=
  (ConstellationCanvas.InventoryStar.placed s = true <->
   ConstellationCanvas.InventoryStar.position s <> None) /\
  (forall p, ConstellationCanvas.InventoryStar.position s = Some p ->
             onIntegerGrid p).

(** ** Sample data *)

(** A source whose every draw is 1/4. *)
Definition quarterRng : Rng := mkRng (fun _ => 1 # 4) 0.

(** The constellation scene in edit mode with [common-0] armed. *)
Definition armedScene : ConstellationCanvas.State :=
  ConstellationCanvas.applyAll (ConstellationCanvas.initialState quarterRng)
    [ConstellationCanvas.ToggleEdit;
     ConstellationCanvas.ArmForPlacement "common-0"].

(** The same scene after a click on the plane at (1.4, 2.6, -0.2). *)
Definition placedScene : ConstellationCanvas.State :=
  ConstellationCanvas.perform armedScene
    (ConstellationCanvas.PlaceAt (14 # 10, 26 # 10, - (2 # 10))).

(** The entry [common-0] of the inventory created from [quarterRng]. *)
Definition common0 : ConstellationCanvas.InventoryStar.t :=
  ConstellationCanvas.InventoryStar.mk "common-0"
    ConstellationCanvas.common false None "???" "unclaimed"
    "K/M-type dwarf" 3500 "Small".

Definition common1 : ConstellationCanvas.InventoryStar.t :=
  ConstellationCanvas.InventoryStar.mk "common-1"
    ConstellationCanvas.common false None "???" "unclaimed"
    "K/M-type dwarf" 3500 "Small".

(** ** Frames and sessions *)

(** The mix of a star over a run of frames, the selection of each frame
    given in order. *)
Definition mixTrace (data : StarField.StarData.t)
    (selections : list (option string)) (focusMix : Q) : Q :=
  fold_left (fun m sel => StarField.frameMix data sel m) selections focusMix.

(** [r] to the power [n]. *)
Fixpoint geometric (r : Q) (n : nat) : Q :=
  match n with
  | 0%nat => 1
  | S k => r * geometric r k
  end.

(** A star called Sol, of class G, as the projection stores it. *)
Definition solData : StarField.StarData.t :=
  StarField.StarData.mk (0, 0, 0)%R ((9625 # 10000) * StarField.SCALE)
    "#ffd27a"
    (StarField.StarAttributes.mk "Sol" "unclaimed" G 5400 (9625 # 10000)).

(** A source that cycles through 0, 1/16, ..., 15/16. *)
Definition cyclingRng : Rng :=
  mkRng (fun n => inject_Z (Z.of_nat (n mod 16)) / 16) 0.

(** A catalog of two records: the Sun at the origin and Vega. *)
Definition sol : CatalogStar.t :=
  CatalogStar.mk (Some "Sol"%string) 0 0 0 (- (2674 # 100))
    (Some "G2V"%string) 0 0 0.

Definition vega : CatalogStar.t :=
  CatalogStar.mk (Some "Vega"%string) (18615 # 1000) (38783 # 1000)
    (768 # 100) (3 # 100) (Some "A0Va"%string)
    (48 # 100) (- (296 # 100)) (24 # 10).

Definition twoStars : list CatalogStar.t := [vega; sol].

(** The attributes that the information panel displays. *)
Definition displayed (info : StarSelectionInfo.t)
  : string * string * string * Q * string :=
  (StarSelectionInfo.name info, StarSelectionInfo.status info,
   StarSelectionInfo.type info, StarSelectionInfo.temperature info,
   StarSelectionInfo.size info).

(** What the panel displays in a session, if a star is selected. *)
Definition panel (s : GalaxyCanvas.Session)
  : option (string * string * string * Q * string) :=
  option_map displayed (GalaxyCanvas.selectedStar (GalaxyCanvas.ui s)).

(** Whether a string consists of white space only. *)
Fixpoint allWhite (s : string) : bool :=
  match s with
  | EmptyString => true
  | String c rest => JS.isWhiteSpace c && allWhite rest
  end.

(** The state of the source after the temperature has been drawn. *)
Definition afterTemperature (cls : SpectralClass) (g : Rng) : Rng :=
  let range :=
    GalaxyCanvas.SpectralConfig.tempRange (GalaxyCanvas.SPECTRAL_CONFIG cls)
  in snd (randInRange (fst range) (snd range) g).

(** The selected star, if any, has a non-empty name. *)
Definition selectionNamed (st : GalaxyCanvas.State) : Prop :=
  match GalaxyCanvas.selectedStar st with
  | Some info => JS.truthy (StarSelectionInfo.name info) = true
  | None => True
  end.

(** Every star of a list has a non-empty name. *)
Definition allNamed (l : list StarField.StarData.t) : Prop :=
  Forall (fun d => JS.truthy (StarField.StarAttributes.name
                                (StarField.StarData.attributes d)) = true) l.

From Stdlib Require Import Permutation DecimalNat DecimalFacts.

(* ================================================================== *)
(** * The frame callbacks of the star meshes *)
(* ================================================================== *)

(** The frame callback of [Star] in [StarField.tsx]: the position it sets
    on the mesh and the flicker it computes, at the elapsed time [t] for
    the star of rank [index].  The colours it derives from the flicker
    depend on the colour management of the renderer and are left out. *)
Module StarFrame.

Definition wobble : R := 2 / 100.
Definition speed : R := 12 / 100.

Definition position (base : Vec3) (index : nat) (t : R) : Vec3 :=
  let '(baseX, baseY, baseZ) := base in
  (baseX + sin (t * speed + INR index * (3 / 10)) * wobble,
   baseY + cos (t * speed * (11 / 10) + INR index * (2 / 10)) * wobble,
   baseZ
   + sin (t * speed * (8 / 10) + INR index * (4 / 10)) * wobble * (6 / 10))
  %R.

Definition flicker (index : nat) (t : R) : R :=
  (13 / 10
   + sin (t * 3 + INR index * (4 / 10)) * (25 / 100)
   + cos (t * (21 / 10) + INR index * (3 / 10)) * (18 / 100))%R.

End StarFrame.

(** The frame callback of [ConstellationStar]: the position it sets on the
    mesh of a placed star and the factor [Math.max(flicker, 1.4)] by which
    it multiplies the colour. *)
Module ConstellationStarFrame.

Definition wobble : R := 2 / 100.

Definition position (p : ConstellationCanvas.Point) (t : R) : Vec3 :=
  let '(px, py, pz) := p in
  (Q2R px + sin (t * (4 / 10) + Q2R py) * wobble,
   Q2R py + cos (t * (35 / 100) + Q2R px) * wobble,
   Q2R pz)%R.

Definition flickerBase : R := 14 / 10.

Definition flicker (r : ConstellationCanvas.StarRarity)
    (p : ConstellationCanvas.Point) (t : R) : R :=
  let '(px, py, _) := p in
  let flickerAmp :=
    (Q2R (ConstellationCanvas.RarityVisualConfig.flickerStrength
            (ConstellationCanvas.RARITY_VISUAL_CONFIG r)) * (15 / 10))%R in
  (flickerBase
   + sin (t * (24 / 10) + Q2R px) * flickerAmp
   + cos (t * (16 / 10) + Q2R py) * flickerAmp * (5 / 10))%R.

Definition colorFactor (r : ConstellationCanvas.StarRarity)
    (p : ConstellationCanvas.Point) (t : R) : R :=
  Rmax (flicker r p t) (14 / 10).

End ConstellationStarFrame.

(* ================================================================== *)
(** * [components/GalaxyCanvas.tsx], the variant with the eased camera *)
(* ================================================================== *)

(** [Vector3.lerp(v, alpha)]: [this += (v - this) * alpha]. *)
Definition lerp (this v : Vec3) (alpha : R) : Vec3 :=
  let '(a, b, c) := this in
  let '(a', b', c') := v in
  (a + (a' - a) * alpha, b + (b' - b) * alpha, c + (c' - c) * alpha)%R.

(** [Vector3.sub] and the distance between two points. *)
Definition vsub (v w : Vec3) : Vec3 :=
  let '(a, b, c) := v in
  let '(a', b', c') := w in (a - a', b - b', c - c')%R.

Definition distance (v w : Vec3) : R := Vector3.length (vsub v w).

(** The catalog position of a record as a vector. *)
Definition catalogPosition (s : CatalogStar.t) : Vec3 :=
  (Q2R (CatalogStar.x s), Q2R (CatalogStar.y s), Q2R (CatalogStar.z s)).

(** [StarField.tsx], the variant that keeps the catalog positions: every
    record is projected, in catalog order, and the draws of a star are the
    temperature, the radius and the glow intensity.  Its table of spectral
    classes has the ranges and labels of [GalaxyCanvas.SPECTRAL_CONFIG] and
    colours of its own. *)
Module PlainStarField.

Module StarData.
Record t : Type := mk {
  position : Vec3;
  meshScale : Q;
  color : string;
  glowIntensity : Q;
  attributes : StarField.StarAttributes.t
}.
End StarData.

Definition classColor (c : SpectralClass) : string :=
  match c with
  | O => "#9ad6ff" | B => "#a9c8ff" | A => "#d5e1ff" | F => "#fff7ea"
  | G => "#ffe7b3" | K => "#ffb874" | M => "#ff9657"
  end%string.

Definition SCALE : Q := 5 # 100.

Definition projectStar (s : CatalogStar.t) : Rand StarData.t :=
  (let cls := inferSpectralClass s in
   let cfg := GalaxyCanvas.SPECTRAL_CONFIG cls in
   t <- randInRange (fst (GalaxyCanvas.SpectralConfig.tempRange cfg))
                    (snd (GalaxyCanvas.SpectralConfig.tempRange cfg)) ;;
   let temp := JS.Math_round t in
   radiusSun <-
     randInRange (fst (GalaxyCanvas.SpectralConfig.radiusRangeSun cfg))
                 (snd (GalaxyCanvas.SpectralConfig.radiusRangeSun cfg)) ;;
   let meshScale := radiusSun * SCALE in
   u <- Math_random ;;
   ret (StarData.mk (catalogPosition s) meshScale (classColor cls)
          ((3 # 10) + u * (6 # 10))
          (StarField.StarAttributes.mk
             (JS.orElse (CatalogStar.name s) "Unnamed star")
             "unclaimed" cls temp radiusSun)))%rand.

Fixpoint stars (raw : list CatalogStar.t) : Rand (list StarData.t) :=
  match raw with
  | [] => ret []
  | s :: rest =>
      (d <- projectStar s ;;
       ds <- stars rest ;;
       ret (d :: ds))%rand
  end.

Definition handleClick (data : StarData.t) : StarSelectionInfo.t :=
  let attr := StarData.attributes data in
  StarSelectionInfo.mk
    (StarData.position data)
    (StarField.StarAttributes.name attr)
    (StarField.StarAttributes.status attr)
    (classLetter (StarField.StarAttributes.spectralClass attr)
     ++ "-type star")%string
    (StarField.StarAttributes.temperature attr)
    (JS.toFixed2 (StarField.StarAttributes.radiusSun attr)
     ++ " x Sun radius")%string.

End PlainStarField.

Module EasedGalaxyCanvas.

Module FocusState.
Record t : Type := mk { target : Vec3; enabled : bool }.
End FocusState.

Record State : Type := mkState {
  selectedStar : option StarSelectionInfo.t;
  searchValue : string;
  focus : FocusState.t
}.

Definition initialState : State :=
  mkState None "" (FocusState.mk (0, 0, 0)%R false).

Definition handleStarSelect (info : StarSelectionInfo.t) (st : State)
  : State :=
  mkState (Some info) (searchValue st)
    (FocusState.mk (StarSelectionInfo.position info) true).

Definition handleVoidClick (st : State) : State :=
  mkState None (searchValue st) (FocusState.mk (0, 0, 0)%R false).

(** [performSearch] of this variant.  The rows of [stars.json] carry no
    [type], [temperature] or [size] field (see [build-stars.mjs]), so
    [target.type || "Unknown"], [target.temperature || 0] and [target.size
    || ""] take their defaults. *)
Definition performSearch (stars : list CatalogStar.t) (st : State)
    (console : list (list string)) : State * list (list string) :=
  if negb (JS.truthy (JS.trim (searchValue st))) then (st, console)
  else
    match find (GalaxyCanvas.matchesQuery (searchValue st)) stars with
    | None =>
        (st, console ++ [["Star not found:"%string; searchValue st]])
    | Some target =>
        (mkState
           (Some (StarSelectionInfo.mk
                    (catalogPosition target)
                    (JS.orElse (CatalogStar.name target) "Unnamed star")
                    "unclaimed" "Unknown" 0 ""))
           (searchValue st)
           (FocusState.mk (catalogPosition target) true),
         console)
    end.

(** ** A session of this variant *)

Record Session : Type := mkSession {
  loaded : list PlainStarField.StarData.t;
  ui : State;
  console : list (list string)
}.

Definition mount (catalog : list CatalogStar.t) (g : Rng) : Session :=
  mkSession (fst (PlainStarField.stars catalog g)) initialState [].

Inductive Event : Type :=
| StarClick (index : nat)
| VoidClick
| Input (v : string)
| Search.

Definition step (catalog : list CatalogStar.t) (s : Session) (e : Event)
  : Session :=
  match e with
  | StarClick index =>
      match nth_error (loaded s) index with
      | Some data =>
          mkSession (loaded s)
            (handleStarSelect (PlainStarField.handleClick data) (ui s))
            (console s)
      | None => s
      end
  | VoidClick => mkSession (loaded s) (handleVoidClick (ui s)) (console s)
  | Input v =>
      mkSession (loaded s)
        (mkState (selectedStar (ui s)) v (focus (ui s))) (console s)
  | Search =>
      let (st', c') := performSearch catalog (ui s) (console s) in
      mkSession (loaded s) st' c'
  end.

Definition run (catalog : list CatalogStar.t) (s : Session)
    (events : list Event) : Session :=
  fold_left (step catalog) events s.

(** What the frame callback of [CameraFocusController] writes: the position
    of the camera and the point [targetRef] that the camera looks at. *)
Record Rig : Type := mkRig { cameraPosition : Vec3; targetRef : Vec3 }.

Definition controllerFrame (focus : FocusState.t) (rig : Rig) : Rig :=
  if FocusState.enabled focus then
    let desired := Vector3.add (FocusState.target focus) (0, 0, 3)%R in
    mkRig (lerp (cameraPosition rig) desired (7 / 100))
          (lerp (targetRef rig) (FocusState.target focus) (1 / 10))
  else
    mkRig (lerp (cameraPosition rig) (0, 0, 45)%R (5 / 100))
          (targetRef rig).

Fixpoint controllerFrames (n : nat) (focus : FocusState.t) (rig : Rig)
  : Rig :=
  match n with
  | 0%nat => rig
  | S n' => controllerFrames n' focus (controllerFrame focus rig)
  end.

(** The limits given to [OrbitControls]. *)
Definition maxDistance (focus : FocusState.t) : Q :=
  if FocusState.enabled focus then 10 else 300.

Definition minDistance (focus : FocusState.t) : Q :=
  if FocusState.enabled focus then 15 # 10 else 10.

Definition enableRotate (focus : FocusState.t) : bool :=
  negb (FocusState.enabled focus).

End EasedGalaxyCanvas.

(* ================================================================== *)
(** * [scripts/build-stars.mjs] *)
(* ================================================================== *)

Module BuildStars.

Inductive Rarity : Type :=
  mythic | legendary | epic | rare | uncommon | common.

Definition rarityFromMag (mag : Q) : Rarity :=
  if Qle_bool mag 1 then mythic
  else if Qle_bool mag 2 then legendary
  else if Qle_bool mag 3 then epic
  else if Qle_bool mag 4 then rare
  else if Qle_bool mag 5 then uncommon
  else common.

(** How many rarities are more common than the given one. *)
Definition rank (r : Rarity) : nat :=
  match r with
  | common => 0 | uncommon => 1 | rare => 2
  | epic => 3 | legendary => 4 | mythic => 5
  end.

(** [toXYZ]: right ascension in hours, declination in degrees and distance
    in parsecs to Cartesian coordinates. *)
Definition SCALE : R := 5 / 10.

Definition toXYZ (raHours decDeg distParsec : R) : Vec3 :=
  let raRad := (raHours * PI / 12)%R in
  let decRad := (decDeg * PI / 180)%R in
  let r := (distParsec * SCALE)%R in
  (r * cos decRad * cos raRad,
   r * cos decRad * sin raRad,
   r * sin decRad)%R.

(** A line of the CSV once split: the trimmed proper name, the four numbers
    as [parseFloatSafe] returns them ([None] for [null]) and the trimmed
    spectral type. *)
Record Columns : Type := mkColumns {
  proper : string;
  raRaw : option Q;
  decRaw : option Q;
  distRaw : option Q;
  magRaw : option Q;
  spectRaw : string
}.

(** An element of the written array. *)
Record Row : Type := mkRow {
  name : option string;
  raHours : Q;
  decDeg : Q;
  distParsec : Q;
  mag : Q;
  spect : option string;
  xyz : Vec3;
  rarity : Rarity
}.

(** [s || null]. *)
Definition orNull (s : string) : option string :=
  if JS.truthy s then Some s else None.

(** The body of the loop of [main] after the columns are read: [None] when
    the line is skipped. *)
Definition keepRow (c : Columns) : option Row :=
  match raRaw c, decRaw c, distRaw c, magRaw c with
  | Some ra, Some dec, Some dist, Some m =>
      let proper := if Qlt_le_dec dist (1 # 1000) then "Sun"%string
                    else proper c in
      if Qlt_le_dec 6 m then None
      else if Qlt_le_dec 2000 dist then None
      else Some (mkRow (orNull proper) ra dec dist m (orNull (spectRaw c))
                   (toXYZ (Q2R ra) (Q2R dec) (Q2R dist))
                   (rarityFromMag m))
  | _, _, _, _ => None
  end.

(** The array that [main] writes for the lines of the file. *)
Fixpoint keepRows (lines : list Columns) : list Row :=
  match lines with
  | [] => []
  | c :: rest =>
      match keepRow c with
      | Some row => row :: keepRows rest
      | None => keepRows rest
      end
  end.

End BuildStars.

(* ================================================================== *)
(** * Further predicates and sample data *)
(* ================================================================== *)

(** What an inventory entry keeps for the whole session. *)
Definition fixedPart (s : ConstellationCanvas.InventoryStar.t)
  : string * ConstellationCanvas.StarRarity * string * string * string * Q
    * string :=
  (ConstellationCanvas.InventoryStar.id s,
   ConstellationCanvas.InventoryStar.rarity s,
   ConstellationCanvas.InventoryStar.name s,
   ConstellationCanvas.InventoryStar.status s,
   ConstellationCanvas.InventoryStar.type s,
   ConstellationCanvas.InventoryStar.temperature s,
   ConstellationCanvas.InventoryStar.sizeLabel s).

(** The ids of an inventory, in order. *)
Definition idsOf (inv : list ConstellationCanvas.InventoryStar.t)
  : list string :=
  map ConstellationCanvas.InventoryStar.id inv.

(** The displayed-selected star, if any, is an entry of the inventory with
    a stored position. *)
Definition selectionCurrent (st : ConstellationCanvas.State) : Prop :=
  match ConstellationCanvas.selectedStar st with
  | Some sel =>
      In sel (ConstellationCanvas.inventory st) /\
      ConstellationCanvas.InventoryStar.position sel <> None
  | None => True
  end.

(** A list of records is in ascending order of distance. *)
Fixpoint ascending (l : list CatalogStar.t) : Prop :=
  match l with
  | [] => True
  | a :: rest =>
      Forall (fun b => CatalogStar.distParsec a <= CatalogStar.distParsec b)
             rest
      /\ ascending rest
  end.

(** A record without a usable name: [null], empty or blank. *)
Definition unnamed (s : CatalogStar.t) : bool :=
  match CatalogStar.name s with
  | Some n => negb (JS.truthy n && (0 <? String.length (JS.trim n))%nat)
  | None => true
  end.

(** The records at a given distance, in order. *)
Definition atDistance (d : Q) (l : list CatalogStar.t)
  : list CatalogStar.t :=
  filter (fun s => Qeq_bool (CatalogStar.distParsec s) d) l.

(** The focus of the eased canvas agrees with its selection. *)
Definition focusAgrees (st : EasedGalaxyCanvas.State) : Prop :=
  match EasedGalaxyCanvas.selectedStar st with
  | Some info =>
      EasedGalaxyCanvas.focus st
      = EasedGalaxyCanvas.FocusState.mk (StarSelectionInfo.position info)
          true
  | None =>
      EasedGalaxyCanvas.focus st
      = EasedGalaxyCanvas.FocusState.mk (0, 0, 0)%R false
  end.

(** The orbit controls of the first canvas are mounted. *)
Definition controlsMounted (st : GalaxyCanvas.State) : Prop :=
  GalaxyCanvas.controls st <> None.


(** Two records without a usable name. *)
Definition namelessPair : list CatalogStar.t :=
  [bareStar None 1; bareStar (Some "  "%string) 2].

(** Three lines of the CSV: the Sun, a faint star and a line without
    magnitude. *)
Definition sampleLines : list BuildStars.Columns :=
  [BuildStars.mkColumns "Sol" (Some 0) (Some 0) (Some 0)
     (Some (- (2674 # 100))) "G2V";
   BuildStars.mkColumns "" (Some 1) (Some 2) (Some 50) (Some 7) "M5";
   BuildStars.mkColumns "X" (Some 1) (Some 2) (Some 50) None "";
   BuildStars.mkColumns "" (Some 6) (Some 45) (Some 100) (Some (11 # 2)) ""].

(** ** The clicks that the constellation scene offers *)

(** The controls that the component renders: the edit toggle, the [Use] or
    [Return] button of a row, the placement plane, a placed star and the
    background. *)
Inductive Click : Type :=
| ClickToggleEdit
| ClickUse (id : string)
| ClickReturn (id : string)
| ClickPlane (pos : ConstellationCanvas.Point)
| ClickPlacedStar (id : string)
| ClickBackground.

Definition dispatch (st : ConstellationCanvas.State) (c : Click)
  : ConstellationCanvas.State :=
  match c with
  | ClickToggleEdit => ConstellationCanvas.handleToggleEdit st
  | ClickUse id => ConstellationCanvas.clickUse id st
  | ClickReturn id => ConstellationCanvas.clickReturn id st
  | ClickPlane pos => ConstellationCanvas.clickPlane pos st
  | ClickPlacedStar id => ConstellationCanvas.clickPlacedStar id st
  | ClickBackground => ConstellationCanvas.clearSelection st
  end.

Definition dispatchAll (st : ConstellationCanvas.State)
    (clicks : list Click) : ConstellationCanvas.State :=
  fold_left dispatch clicks st.

(** The armed id, if any, is the id of an inventory entry, and no id is
    empty. *)
Definition armedIsEntry (st : ConstellationCanvas.State) : Prop :=
  Forall (fun id => JS.truthy id = true)
         (idsOf (ConstellationCanvas.inventory st)) /\
  match ConstellationCanvas.selectedInventoryId st with
  | Some a => In a (idsOf (ConstellationCanvas.inventory st))
  | None => True
  end.
(* ================================================================== *)
(** * The primitives on small inputs *)
(* ================================================================== *)

Example trim_spectral_type : JS.trim "  G2V "%string = "G2V"%string.
Proof. reflexivity. Qed.

Example round_half_up :
  JS.Math_round (5 # 2) = 3 /\ JS.Math_round (- (5 # 2)) = - (2) /\
  JS.Math_round (- (1 # 2)) = 0 /\ JS.Math_round (26 # 10) = 3.
Proof. repeat split. Qed.

Example toFixed2_radius :
  JS.toFixed2 (9625 # 10000) = "0.96"%string /\
  JS.toFixed2 (155 # 100) = "1.55"%string /\
  JS.toFixed2 7 = "7.00"%string.
Proof. repeat split. Qed.

Example nearest_first : StarField.subset twoStars = [sol; vega].
Proof. reflexivity. Qed.

Example unnamed_label :
  StarField.displayName (bareStar None 0) 12 = "Unnamed #12"%string.
Proof. reflexivity. Qed.

(* ================================================================== *)
(** * Spectral-class inference *)
(* ================================================================== *)

Section SpectralInference.

Lemma Qle_bool_false_lt (a b : Q) : Qle_bool a b = false -> b < a.
Proof.
  intros Hf. apply Qnot_le_lt. intros Hle.
  apply Qle_bool_iff in Hle. congruence.
Qed.

Lemma firstMatch_onLadder (m : Q) :
  Reference.onLadder m (Reference.firstMatch m Reference.magnitudeLadder).
Proof.
  unfold Reference.onLadder, Reference.magnitudeLadder.
  cbn [Reference.firstMatch].
  destruct (Qle_bool m 0) eqn:H0.
  { left. split; [now apply Qle_bool_iff | reflexivity]. }
  apply Qle_bool_false_lt in H0.
  destruct (Qle_bool m (3 # 2)) eqn:H1.
  { right; left. repeat split; [assumption | now apply Qle_bool_iff]. }
  apply Qle_bool_false_lt in H1.
  destruct (Qle_bool m 3) eqn:H2.
  { do 2 right; left. repeat split; [assumption | now apply Qle_bool_iff]. }
  apply Qle_bool_false_lt in H2.
  destruct (Qle_bool m (9 # 2)) eqn:H3.
  { do 3 right; left. repeat split; [assumption | now apply Qle_bool_iff]. }
  apply Qle_bool_false_lt in H3.
  destruct (Qle_bool m 6) eqn:H4.
  { do 4 right; left. repeat split; [assumption | now apply Qle_bool_iff]. }
  apply Qle_bool_false_lt in H4.
  do 5 right. split; [assumption | reflexivity].
Qed.

Lemma inferSpectralClass_reference (star : CatalogStar.t) :
  inferSpectralClass star = Reference.spectralClass star.
Proof.
  unfold inferSpectralClass, Reference.spectralClass, Reference.letterOf.
  destruct (JS.trim (JS.orElse (CatalogStar.spect star) "")) as [|c0 rest].
  - reflexivity.
  - unfold Reference.recognisedLetters. cbn [Reference.lookupLetter].
    repeat match goal with
           | |- context [Ascii.eqb ?a ?b] => destruct (Ascii.eqb a b)
           end; reflexivity.
Qed.

End SpectralInference.

(** C2.  The inferred spectral class of every catalog record equals the
    reference definition: when the trimmed spectral-type string is not
    empty and its uppercased first character is one of O, B, A, F, G, K, M,
    that letter is the class whatever the magnitude; otherwise the class is
    the one of the magnitude ladder with inclusive upper bounds 0.0, 1.5,
    3.0, 4.5 and 6.0 taken in increasing order.  Magnitude exactly 1.5
    gives A and 1.50001 gives F. *)
Theorem inferSpectralClass_correct :
  (forall star, inferSpectralClass star = Reference.spectralClass star) /\
  (forall star cls,
      Reference.letterOf star = Some cls ->
      forall m,
        inferSpectralClass
          (CatalogStar.mk (CatalogStar.name star) (CatalogStar.raHours star)
             (CatalogStar.decDeg star) (CatalogStar.distParsec star) m
             (CatalogStar.spect star) (CatalogStar.x star)
             (CatalogStar.y star) (CatalogStar.z star)) = cls) /\
  (forall star,
      Reference.letterOf star = None ->
      Reference.onLadder (CatalogStar.mag star) (inferSpectralClass star)) /\
  inferSpectralClass (bareStar None (3 # 2)) = A /\
  inferSpectralClass (bareStar None (150001 # 100000)) = F /\
  inferSpectralClass (bareStar (Some "?"%string) (3 # 2)) = A /\
  inferSpectralClass (bareStar (Some "  "%string) (150001 # 100000)) = F.
Proof.
  split; [exact inferSpectralClass_reference|].
  split.
  { intros star cls Hl m. rewrite inferSpectralClass_reference.
    unfold Reference.spectralClass, Reference.letterOf in *. cbn in *.
    now rewrite Hl. }
  split.
  { intros star Hl. rewrite inferSpectralClass_reference.
    unfold Reference.spectralClass. rewrite Hl.
    apply firstMatch_onLadder. }
  repeat split; reflexivity.
Qed.

(** The letter wins over the magnitude on a record of class G with the
    magnitude of a B star, and the ladder decides a record without letter. *)
Lemma inferSpectralClass_correct_witness :
  inferSpectralClass (bareStar (Some " g2V"%string) (-1)) = G /\
  Reference.onLadder (3 # 2) (inferSpectralClass (bareStar None (3 # 2))).
Proof.
  destruct inferSpectralClass_correct as (_ & Hletter & Hladder & _).
  split.
  - apply (Hletter (bareStar (Some " g2V"%string) 0) G).
    reflexivity.
  - apply (Hladder (bareStar None (3 # 2))).
    reflexivity.
Defined.

(* ================================================================== *)
(** * The spatial remapper *)
(* ================================================================== *)

Section Remap.

Local Open Scope R_scope.

Lemma sumsq_nonneg (a b c : R) : 0 <= a * a + b * b + c * c.
Proof. nra. Qed.

(** The target radius drawn by [randInRange(VIS_MIN, VIS_MAX)]. *)
Lemma targetR_bounds (g : Rng) :
  (0 <= draws g (cursor g))%Q -> (draws g (cursor g) < 1)%Q ->
  20 <= Q2R (fst (randInRange StarField.VIS_MIN StarField.VIS_MAX g)) < 85.
Proof.
  intros Hlo Hhi. unfold randInRange, Math_random. cbn [fst].
  unfold StarField.VIS_MIN, StarField.VIS_MAX.
  apply Qle_Rle in Hlo. apply Qlt_Rlt in Hhi.
  rewrite Q2R_plus, Q2R_mult, Q2R_minus.
  replace (Q2R 20) with 20 by (unfold Q2R; cbn; lra).
  replace (Q2R 85) with 85 by (unfold Q2R; cbn; lra).
  replace (Q2R 0) with 0 in Hlo by (unfold Q2R; cbn; lra).
  replace (Q2R 1) with 1 in Hhi by (unfold Q2R; cbn; lra).
  lra.
Qed.

(** The length of a vector scaled by a non-negative factor. *)
Lemma length_scaled (a b c k : R) :
  0 <= k ->
  Vector3.length (a * k, b * k, c * k) = k * Vector3.length (a, b, c).
Proof.
  intros Hk. unfold Vector3.length.
  set (s := a * a + b * b + c * c).
  assert (Hs : 0 <= s) by apply sumsq_nonneg.
  replace (a * k * (a * k) + b * k * (b * k) + c * k * (c * k))
    with ((k * k) * s) by (unfold s; ring).
  rewrite sqrt_mult by nra.
  now rewrite sqrt_square.
Qed.

Lemma remapPosition_nonzero (x y z : R) (g : Rng) :
  sqrt (x * x + y * y + z * z) <> 0 ->
  fst (StarField.remapPosition x y z g) =
  let k := Q2R (fst (randInRange StarField.VIS_MIN StarField.VIS_MAX g))
           / sqrt (x * x + y * y + z * z) in
  (x * k, y * k, z * k).
Proof.
  intros Hn. unfold StarField.remapPosition.
  destruct (Req_dec_T (sqrt (x * x + y * y + z * z)) 0) as [E|_];
    [contradiction|].
  destruct (randInRange StarField.VIS_MIN StarField.VIS_MAX g); reflexivity.
Qed.

Lemma remapPosition_degenerate (x y z : R) (g : Rng) :
  sqrt (x * x + y * y + z * z) = 0 ->
  fst (StarField.remapPosition x y z g) = (0, 0, 0).
Proof.
  intros Hn.
  assert (Hs : x * x + y * y + z * z = 0).
  { apply sqrt_eq_0; [apply sumsq_nonneg | assumption]. }
  assert (x = 0 /\ y = 0 /\ z = 0) as (-> & -> & ->) by (repeat split; nra).
  unfold StarField.remapPosition.
  destruct (randInRange StarField.VIS_MIN StarField.VIS_MAX g).
  cbn [fst]. now rewrite !Rmult_0_l.
Qed.

End Remap.

(** C3.  For every raw position of non-zero Euclidean norm and every draw
    of the target radius, the remapped position is the raw position scaled
    by the positive factor target radius / norm: its normalized direction
    is the normalized raw position, and its norm lies within the visible
    shell bounds [20, 85]. *)
Theorem remapPosition_direction_and_shell (x y z : R) (g : Rng) :
  Vector3.length (x, y, z) <> 0%R ->
  (0 <= draws g (cursor g))%Q -> (draws g (cursor g) < 1)%Q ->
  let p := fst (StarField.remapPosition x y z g) in
  (exists k : R, (0 < k)%R /\ p = Vector3.multiplyScalar (x, y, z) k) /\
  Vector3.normalize p = Vector3.normalize (x, y, z) /\
  (20 <= Vector3.length p <= 85)%R.
Proof.
  intros Hn Hlo Hhi p.
  pose proof (targetR_bounds g Hlo Hhi) as HT.
  set (T := Q2R (fst (randInRange StarField.VIS_MIN StarField.VIS_MAX g)))
    in *.
  set (n := Vector3.length (x, y, z)) in *.
  assert (Hnpos : (0 < n)%R).
  { assert (0 <= n)%R by apply sqrt_pos. lra. }
  assert (Hp : p = (x * (T / n), y * (T / n), z * (T / n))%R).
  { unfold p. now rewrite remapPosition_nonzero by exact Hn. }
  assert (Hk : (0 < T / n)%R) by (apply Rdiv_lt_0_compat; lra).
  assert (Hlen : Vector3.length p = T).
  { rewrite Hp, length_scaled by lra. fold n. field. lra. }
  split; [|split].
  - exists (T / n)%R. split; [exact Hk | exact Hp].
  - unfold Vector3.normalize at 1. rewrite Hlen.
    destruct (Req_dec_T T 0) as [E|_]; [lra|].
    unfold Vector3.normalize. fold n.
    destruct (Req_dec_T n 0) as [E|_]; [lra|].
    rewrite Hp. cbn [Vector3.multiplyScalar].
    f_equal; [f_equal|]; field; lra.
  - rewrite Hlen. lra.
Qed.

(** The raw position (3, 4, 0) with the draw 1/2. *)
Lemma remapPosition_direction_and_shell_witness :
  let p := fst (StarField.remapPosition 3 4 0 (mkRng (fun _ => 1 # 2) 0)) in
  (exists k : R, (0 < k)%R /\ p = Vector3.multiplyScalar (3, 4, 0)%R k) /\
  Vector3.normalize p = Vector3.normalize (3, 4, 0)%R /\
  (20 <= Vector3.length p <= 85)%R.
Proof.
  apply (remapPosition_direction_and_shell 3 4 0 (mkRng (fun _ => 1 # 2) 0)).
  - cbn [Vector3.length].
    replace (3 * 3 + 4 * 4 + 0 * 0)%R with (5 * 5)%R by ring.
    rewrite sqrt_square; lra.
  - cbn. discriminate.
  - reflexivity.
Defined.

(** The position of a projected star is the remapped catalog position, the
    target radius being the third draw. *)
Lemma projectStar_position (s : CatalogStar.t) (index : nat) (g : Rng) :
  StarField.StarData.position (fst (StarField.projectStar s index g))
  = fst (StarField.remapPosition
           (Q2R (CatalogStar.x s)) (Q2R (CatalogStar.y s))
           (Q2R (CatalogStar.z s))
           (mkRng (draws g) (S (S (cursor g))))).
Proof.
  unfold StarField.projectStar, bind, randInRange, Math_random.
  cbn [cursor draws].
  destruct (StarField.remapPosition _ _ _ _) as [p g']. reflexivity.
Qed.

(** C4 (what the code does).  A raw position of zero norm is remapped to
    the origin: the norm is replaced by [1e-6] and the zero vector is
    scaled.  The result has norm 0 and is not (0, 0, r) for any r within
    [20, 85]; this is the position given to the catalog record of the
    Sun. *)
Theorem remapPosition_zero_is_origin (g : Rng) :
  fst (StarField.remapPosition 0 0 0 g) = (0, 0, 0)%R /\
  Vector3.length (fst (StarField.remapPosition 0 0 0 g)) = 0%R /\
  ~ (exists r : R, (20 <= r <= 85)%R /\
                   fst (StarField.remapPosition 0 0 0 g) = (0, 0, r)%R) /\
  (forall index,
      StarField.StarData.position (fst (StarField.projectStar sol index g))
      = (0, 0, 0)%R).
Proof.
  assert (Hsq : sqrt (0 * 0 + 0 * 0 + 0 * 0) = 0%R).
  { replace (0 * 0 + 0 * 0 + 0 * 0)%R with 0%R by ring. apply sqrt_0. }
  assert (H0 : forall g', fst (StarField.remapPosition 0 0 0 g')
                          = (0, 0, 0)%R).
  { intros g'. now apply remapPosition_degenerate. }
  split; [apply H0|]. split; [|split].
  - rewrite H0. exact Hsq.
  - intros (r & Hr & E). rewrite H0 in E.
    injection E as E. lra.
  - intros index. rewrite projectStar_position.
    cbn [sol CatalogStar.x CatalogStar.y CatalogStar.z].
    replace (Q2R 0) with 0%R by (unfold Q2R; cbn; lra).
    apply H0.
Qed.

(* ================================================================== *)
(** * Grid snapping *)
(* ================================================================== *)

Section Snapping.

Lemma Math_round_bounds (x : Q) :
  x - (1 # 2) < JS.Math_round x /\ JS.Math_round x <= x + (1 # 2).
Proof.
  unfold JS.Math_round.
  pose proof (Qfloor_le (x + (1 # 2))) as Hle.
  pose proof (Qlt_floor (x + (1 # 2))) as Hlt.
  rewrite inject_Z_plus in Hlt.
  change (inject_Z 1) with 1 in Hlt.
  split; Lqa.lra.
Qed.

Lemma Math_round_step (step x : Q) :
  0 < step ->
  roundedToStep step x (JS.Math_round (x / step) * step).
Proof.
  intros Hs. unfold roundedToStep.
  assert (Hne : ~ step == 0) by Lqa.lra.
  destruct (Math_round_bounds (x / step)) as [Hlo Hhi].
  assert (Hx : x / step * step == x) by (field; exact Hne).
  set (y := x / step) in *. set (r := JS.Math_round y) in *.
  split; [|split].
  - exists (Qfloor (y + (1 # 2))). reflexivity.
  - assert (H : (y - (1 # 2)) * step < r * step)
      by (apply Qmult_lt_compat_r; assumption).
    assert (E : (y - (1 # 2)) * step == x - step / 2)
      by (rewrite <- Hx; field).
    rewrite <- E. exact H.
  - assert (H : r * step <= (y + (1 # 2)) * step)
      by (apply Qmult_le_compat_r; Lqa.lra).
    assert (E : (y + (1 # 2)) * step == x + step / 2)
      by (rewrite <- Hx; field).
    rewrite <- E. exact H.
Qed.

Lemma isInteger_snapped (x : Q) :
  JS.isInteger (JS.Math_round (x / 1) * 1) = true.
Proof.
  unfold JS.isInteger, JS.Math_round. cbn [Qnum Qden Qmult inject_Z].
  rewrite Pos.mul_1_r, Z.mul_1_r. now rewrite Z.mod_1_r.
Qed.

Lemma snapToGrid_onIntegerGrid (pos : ConstellationCanvas.Point) :
  onIntegerGrid (ConstellationCanvas.snapToGrid pos 1).
Proof.
  destruct pos as [[a b] c]. cbn.
  repeat split; apply isInteger_snapped.
Qed.

End Snapping.

(* ================================================================== *)
(** * The constellation placement system *)
(* ================================================================== *)

Section Placement.

Import ConstellationCanvas.

Lemma findById_Some (id : string) (inv : list InventoryStar.t)
    (s : InventoryStar.t) :
  findById id inv = Some s -> In s inv /\ InventoryStar.id s = id.
Proof.
  unfold findById. intros H. apply find_some in H as [Hin Heq].
  split; [assumption | now apply String.eqb_eq].
Qed.

(** Replacing every entry called [id] by [u], itself called [id], makes
    [u] the entry found under [id]. *)
Lemma findById_replaced (id : string) (inv : list InventoryStar.t)
    (base u : InventoryStar.t) :
  InventoryStar.id u = id ->
  findById id inv = Some base ->
  findById id
    (map (fun s => if String.eqb (InventoryStar.id s) id then u else s) inv)
  = Some u.
Proof.
  intros Hu. unfold findById. induction inv as [|s inv IH]; cbn.
  - discriminate.
  - destruct (String.eqb (InventoryStar.id s) id) eqn:E.
    + intros _. rewrite Hu, String.eqb_refl. reflexivity.
    + rewrite E. exact IH.
Qed.

Lemma nth_error_replaced (id : string) (inv : list InventoryStar.t)
    (u : InventoryStar.t) (row : nat) (s : InventoryStar.t) :
  nth_error inv row = Some s ->
  nth_error
    (map (fun s => if String.eqb (InventoryStar.id s) id then u else s) inv)
    row
  = Some (if String.eqb (InventoryStar.id s) id then u else s).
Proof.
  intros H. rewrite nth_error_map, H. reflexivity.
Qed.

Lemma handlePlaneClick_armed (pos : Point) (st : State) (armed : string)
    (base : InventoryStar.t) :
  editMode st = true ->
  selectedInventoryId st = Some armed ->
  JS.truthy armed = true ->
  findById armed (inventory st) = Some base ->
  handlePlaneClick pos st =
  mkState
    (map (fun s => if String.eqb (InventoryStar.id s) armed
                   then placedAt base (snapToGrid pos 1) else s)
         (inventory st))
    true (Some armed) (Some (placedAt base (snapToGrid pos 1))).
Proof.
  intros He Ha Ht Hf. unfold handlePlaneClick.
  rewrite He, Ha. cbn [JS.truthyOpt negb orb]. rewrite Ht. cbn [negb].
  rewrite Hf. reflexivity.
Qed.

(** ** The invariant of the inventory *)

Lemma wellPlaced_returned (s : InventoryStar.t) : wellPlaced (returned s).
Proof.
  split; cbn.
  - split; [discriminate | congruence].
  - discriminate.
Qed.

Lemma wellPlaced_placedAt (s : InventoryStar.t) (pos : Point) :
  wellPlaced (placedAt s (snapToGrid pos 1)).
Proof.
  split; cbn.
  - split; [discriminate | reflexivity].
  - intros p [= <-]. apply snapToGrid_onIntegerGrid.
Qed.

Lemma perform_wellPlaced (st : State) (op : Op) :
  Forall wellPlaced (inventory st) ->
  Forall wellPlaced (inventory (perform st op)).
Proof.
  intros Hinv. destruct op as [|id|pos|id|id|]; cbn [perform].
  - exact Hinv.
  - unfold handleSelectInventoryStar.
    destruct (negb (editMode st)); exact Hinv.
  - unfold handlePlaneClick.
    destruct (negb (editMode st)
              || negb (JS.truthyOpt (selectedInventoryId st)));
      [exact Hinv|].
    destruct (selectedInventoryId st) as [armed|]; [|exact Hinv].
    destruct (findById armed (inventory st)) as [base|]; [|exact Hinv].
    cbn [inventory]. apply Forall_map.
    revert Hinv. apply Forall_impl. intros s Hs.
    destruct (String.eqb (InventoryStar.id s) armed);
      [apply wellPlaced_placedAt | exact Hs].
  - unfold handleReturnToInventory. cbn [inventory]. apply Forall_map.
    revert Hinv. apply Forall_impl. intros s Hs.
    destruct (String.eqb (InventoryStar.id s) id);
      [apply wellPlaced_returned | exact Hs].
  - unfold handlePlacedStarClick.
    destruct (findById id (inventory st)) as [star|]; [|exact Hinv].
    destruct (InventoryStar.position star); exact Hinv.
  - exact Hinv.
Qed.

Lemma applyAll_wellPlaced (ops : list Op) (st : State) :
  Forall wellPlaced (inventory st) ->
  Forall wellPlaced (inventory (applyAll st ops)).
Proof.
  unfold applyAll. revert st.
  induction ops as [|op ops IH]; intros st Hinv; cbn [fold_left].
  - exact Hinv.
  - apply IH, perform_wellPlaced, Hinv.
Qed.

(** The initial inventory, whatever the draws: five common entries and
    two uncommon ones, none of them placed. *)
Lemma initialInventory_shape (g : Rng) :
  map (fun s => (InventoryStar.id s, InventoryStar.rarity s,
                 InventoryStar.placed s, InventoryStar.position s))
      (inventory (initialState g))
  = [("common-0", common, false, None);
     ("common-1", common, false, None);
     ("common-2", common, false, None);
     ("common-3", common, false, None);
     ("common-4", common, false, None);
     ("uncommon-0", uncommon, false, None);
     ("uncommon-1", uncommon, false, None)]%string.
Proof. reflexivity. Qed.

Lemma initialState_wellPlaced (g : Rng) :
  Forall wellPlaced (inventory (initialState g)).
Proof.
  assert (H : Forall (fun q => snd (fst q) = false /\ snd q = None)
                (map (fun s => (InventoryStar.id s, InventoryStar.rarity s,
                                InventoryStar.placed s,
                                InventoryStar.position s))
                     (inventory (initialState g)))).
  { rewrite initialInventory_shape. repeat constructor. }
  apply Forall_map in H. revert H. apply Forall_impl.
  intros s [Hp Hn]. cbn in Hp, Hn. split.
  - rewrite Hp, Hn. split; [discriminate | congruence].
  - rewrite Hn. discriminate.
Qed.

End Placement.

Section PlacementProperties.

Import ConstellationCanvas.

(** C5.  [snapToGrid] rounds each axis to the nearest multiple of the
    step.  In edit mode with an armed entry, [placeAt] rounds each axis of
    the raw position to the nearest multiple of the step 1, stores the
    snapped position in the armed entry, which becomes placed, leaves the
    other entries as they are, and makes the updated entry the
    displayed-selected star.  The raw position (1.4, 2.6, -0.2) is stored
    as (1, 3, 0). *)
Theorem placeAt_snaps_and_places (pos : Point) (st : State)
    (armed : string) (base : InventoryStar.t) :
  editMode st = true ->
  selectedInventoryId st = Some armed ->
  JS.truthy armed = true ->
  findById armed (inventory st) = Some base ->
  let snapped := snapToGrid pos 1 in
  let st' := handlePlaneClick pos st in
  (forall step p,
      0 < step ->
      roundedToStep step (fst (fst p)) (fst (fst (snapToGrid p step))) /\
      roundedToStep step (snd (fst p)) (snd (fst (snapToGrid p step))) /\
      roundedToStep step (snd p) (snd (snapToGrid p step))) /\
  (roundedToStep 1 (fst (fst pos)) (fst (fst snapped)) /\
   roundedToStep 1 (snd (fst pos)) (snd (fst snapped)) /\
   roundedToStep 1 (snd pos) (snd snapped)) /\
  onIntegerGrid snapped /\
  findById armed (inventory st') = Some (placedAt base snapped) /\
  InventoryStar.placed (placedAt base snapped) = true /\
  InventoryStar.position (placedAt base snapped) = Some snapped /\
  selectedStar st' = Some (placedAt base snapped) /\
  (forall row s,
      nth_error (inventory st) row = Some s ->
      InventoryStar.id s <> armed ->
      nth_error (inventory st') row = Some s) /\
  snapToGrid (14 # 10, 26 # 10, - (2 # 10)) 1 = (1, 3, 0).
Proof.
  intros He Ha Ht Hf snapped st'.
  assert (Hst : st' =
                mkState
                  (map (fun s => if String.eqb (InventoryStar.id s) armed
                                 then placedAt base snapped else s)
                       (inventory st))
                  true (Some armed) (Some (placedAt base snapped))).
  { unfold st', snapped. now apply handlePlaneClick_armed. }
  split.
  { intros step [[px py] pz] Hstep. cbn.
    repeat split; now apply Math_round_step. }
  split.
  { unfold snapped. destruct pos as [[px py] pz]. cbn.
    repeat split; apply Math_round_step; reflexivity. }
  split; [apply snapToGrid_onIntegerGrid|].
  split.
  { rewrite Hst. cbn [inventory].
    apply findById_replaced with (base := base); [|exact Hf].
    cbn. now apply findById_Some in Hf. }
  repeat split.
  - rewrite Hst. reflexivity.
  - intros row s Hrow Hid. rewrite Hst. cbn [inventory].
    rewrite (nth_error_replaced armed _ _ _ Hrow).
    apply String.eqb_neq in Hid. now rewrite Hid.
Qed.

(** [common-0] is armed in edit mode and the plane is clicked at
    (1.4, 2.6, -0.2). *)
Lemma placeAt_snaps_and_places_witness :
  findById "common-0" (inventory placedScene)
  = Some (placedAt common0 (1, 3, 0)) /\
  selectedStar placedScene = Some (placedAt common0 (1, 3, 0)).
Proof.
  destruct (placeAt_snaps_and_places (14 # 10, 26 # 10, - (2 # 10))
              armedScene (armed := "common-0") (base := common0))
    as (_ & _ & _ & Hfound & _ & _ & Hsel & _);
    [reflexivity | reflexivity | reflexivity | reflexivity |].
  split; [exact Hfound | exact Hsel].
Defined.

(** C6.  [armForPlacement(id)] does nothing outside edit mode and changes
    the state only for an inventory entry that is not placed.  In edit
    mode it toggles the armed id, which is the only thing it changes:
    arming the armed id disarms it, arming another id replaces the armed
    id.  The armed id is a single optional value, so at most one id is
    armed. *)
Theorem armForPlacement_toggles (id : string) (st : State) :
  (editMode st = false ->
   armForPlacement id st = st /\ handleSelectInventoryStar id st = st) /\
  (armForPlacement id st <> st ->
   exists star, findById id (inventory st) = Some star /\
                InventoryStar.placed star = false) /\
  (forall star,
      editMode st = true ->
      findById id (inventory st) = Some star ->
      InventoryStar.placed star = false ->
      let st' := armForPlacement id st in
      inventory st' = inventory st /\
      editMode st' = true /\
      selectedStar st' = selectedStar st /\
      (selectedInventoryId st = Some id ->
       selectedInventoryId st' = None) /\
      (selectedInventoryId st <> Some id ->
       selectedInventoryId st' = Some id)).
Proof.
  unfold armForPlacement, clickUse, handleSelectInventoryStar.
  split; [|split].
  - intros He. rewrite He. cbn [negb].
    destruct (findById id (inventory st)) as [star|]; [|now split].
    destruct (InventoryStar.placed star); now split.
  - intros Hch.
    destruct (findById id (inventory st)) as [star|]; [|congruence].
    exists star. split; [reflexivity|].
    destruct (InventoryStar.placed star); [congruence | reflexivity].
  - intros star He Hf Hp. rewrite Hf, Hp, He. cbn [negb].
    cbn [inventory editMode selectedStar selectedInventoryId].
    repeat split; try assumption.
    + intros ->. now rewrite String.eqb_refl.
    + intros Hne. destruct (selectedInventoryId st) as [prev|];
        [|reflexivity].
      destruct (String.eqb prev id) eqn:E; [|reflexivity].
      apply String.eqb_eq in E. congruence.
Qed.

(** With [common-0] armed, arming [common-1] replaces it and arming
    [common-0] disarms it. *)
Lemma armForPlacement_toggles_witness :
  selectedInventoryId (armForPlacement "common-1" armedScene)
  = Some "common-1"%string /\
  selectedInventoryId (armForPlacement "common-0" armedScene) = None.
Proof.
  split.
  - destruct (armForPlacement_toggles "common-1" armedScene)
      as (_ & _ & H).
    destruct (H common1) as (_ & _ & _ & _ & Hother);
      [reflexivity | reflexivity | reflexivity |].
    apply Hother. discriminate.
  - destruct (armForPlacement_toggles "common-0" armedScene)
      as (_ & _ & H).
    destruct (H common0) as (_ & _ & _ & Hsame & _);
      [reflexivity | reflexivity | reflexivity |].
    apply Hsame. reflexivity.
Defined.

(** The guard on the placement is the rendering of the row, not the
    handler: once [common-0] is placed its row shows [Return] and no [Use],
    while the handler called with this id would still toggle the armed
    id. *)
Lemma use_button_absent_for_placed_entry :
  clickUse "common-0" placedScene = placedScene /\
  selectedInventoryId placedScene = Some "common-0"%string /\
  selectedInventoryId (handleSelectInventoryStar "common-0" placedScene)
  = None.
Proof. repeat split. Qed.

(** C7.  Leaving edit mode clears the armed id, and a click on the
    background clears the displayed selection and the armed id; both
    leave the inventory, hence every placed flag and stored position, as
    it is. *)
Theorem exit_and_background_keep_placements (st : State) :
  (editMode st = true ->
   editMode (handleToggleEdit st) = false /\
   selectedInventoryId (handleToggleEdit st) = None /\
   inventory (handleToggleEdit st) = inventory st /\
   placedStars (handleToggleEdit st) = placedStars st) /\
  (selectedStar (clearSelection st) = None /\
   selectedInventoryId (clearSelection st) = None /\
   inventory (clearSelection st) = inventory st /\
   placedStars (clearSelection st) = placedStars st).
Proof.
  split.
  - intros He. unfold handleToggleEdit, placedStars. rewrite He. cbn.
    repeat split.
  - unfold clearSelection, placedStars. cbn. repeat split.
Qed.

(** The scene with [common-0] armed and placed at (1, 3, 0). *)
Lemma exit_and_background_keep_placements_witness :
  selectedInventoryId placedScene = Some "common-0"%string /\
  selectedInventoryId (handleToggleEdit placedScene) = None /\
  placedStars (handleToggleEdit placedScene)
  = [placedAt common0 (1, 3, 0)].
Proof.
  destruct (exit_and_background_keep_placements placedScene)
    as [Hexit _].
  destruct Hexit as (_ & Harmed & _ & Hplaced); [reflexivity|].
  split; [reflexivity|]. split; [exact Harmed|].
  rewrite Hplaced. reflexivity.
Defined.

(** C10.  The initial inventory holds five common and two uncommon
    entries, none placed; in every state reached from it by any sequence
    of toggle-edit-mode, arm-for-placement, place-at, return-to-inventory,
    placed-star click and background click, every entry is placed exactly
    when its position is not null, and every stored position has its
    three coordinates on the integer grid. *)
Theorem reachable_inventory_wellPlaced (g : Rng) (ops : list Op) :
  map (fun s => (InventoryStar.rarity s, InventoryStar.placed s,
                 InventoryStar.position s))
      (inventory (initialState g))
  = [(common, false, None); (common, false, None); (common, false, None);
     (common, false, None); (common, false, None);
     (uncommon, false, None); (uncommon, false, None)] /\
  Forall wellPlaced (inventory (applyAll (initialState g) ops)).
Proof.
  split; [reflexivity|].
  apply applyAll_wellPlaced, initialState_wellPlaced.
Qed.

End PlacementProperties.

(* ================================================================== *)
(** * The selection mix *)
(* ================================================================== *)

Section SelectionMix.

Variable data : StarField.StarData.t.

Lemma targetMix_cases (sel : option string) :
  StarField.targetMix data sel =
  if negb (JS.truthyOpt sel) then 1
  else match sel with
       | Some n =>
           if String.eqb
                (StarField.StarAttributes.name
                   (StarField.StarData.attributes data)) n
           then 1 else 0
       | None => 0
       end.
Proof.
  unfold StarField.targetMix.
  destruct sel as [n|]; cbn; [|reflexivity].
  destruct (JS.truthy n); cbn; [|reflexivity].
  destruct (String.eqb _ n); reflexivity.
Qed.

Lemma targetMix_binary (sel : option string) :
  StarField.targetMix data sel = 1 \/ StarField.targetMix data sel = 0.
Proof.
  unfold StarField.targetMix.
  match goal with |- context [if ?b then _ else _] => destruct b end;
    auto.
Qed.

Lemma frameMix_bounds (sel : option string) (mix : Q) :
  0 <= mix <= 1 -> 0 <= StarField.frameMix data sel mix <= 1.
Proof.
  intros [Hlo Hhi]. unfold StarField.frameMix.
  destruct (targetMix_binary sel) as [-> | ->]; split; Lqa.lra.
Qed.

Lemma mixTrace_bounds (sels : list (option string)) (mix : Q) :
  0 <= mix <= 1 -> 0 <= mixTrace data sels mix <= 1.
Proof.
  unfold mixTrace. revert mix.
  induction sels as [|sel sels IH]; intros mix H; cbn [fold_left].
  - exact H.
  - apply IH, frameMix_bounds, H.
Qed.

Lemma mixAfter_mixTrace (n : nat) (sel : option string) (mix : Q) :
  StarField.mixAfter n data sel mix = mixTrace data (repeat sel n) mix.
Proof.
  unfold mixTrace. revert mix.
  induction n as [|n IH]; intros mix; cbn; [reflexivity | apply IH].
Qed.

(** Each frame removes the fraction 0.12 of the remaining distance. *)
Lemma frameMix_remaining (sel : option string) (mix : Q) :
  StarField.targetMix data sel - StarField.frameMix data sel mix
  == (22 # 25) * (StarField.targetMix data sel - mix).
Proof. unfold StarField.frameMix. ring. Qed.

Lemma mixAfter_remaining (n : nat) (sel : option string) (mix : Q) :
  StarField.targetMix data sel - StarField.mixAfter n data sel mix
  == geometric (22 # 25) n * (StarField.targetMix data sel - mix).
Proof.
  revert mix. induction n as [|n IH]; intros mix;
    cbn [StarField.mixAfter geometric].
  - ring.
  - rewrite IH, frameMix_remaining. ring.
Qed.

Lemma geometric_bound (n : nat) :
  0 <= geometric (22 # 25) n /\
  geometric (22 # 25) n * (22 + 3 * inject_Z (Z.of_nat n)) <= 22.
Proof.
  induction n as [|n [IH0 IH]].
  - cbn [geometric Z.of_nat]. change (inject_Z 0) with 0.
    split; Lqa.lra.
  - cbn [geometric]. rewrite Nat2Z.inj_succ. unfold Z.succ.
    rewrite inject_Z_plus. change (inject_Z 1) with 1.
    set (q := geometric (22 # 25) n) in *.
    set (k := inject_Z (Z.of_nat n)) in *.
    assert (Hk : 0 <= k).
    { unfold k. change 0 with (inject_Z 0).
      rewrite <- Zle_Qle. lia. }
    assert (Hq1 : q <= 1) by Lqa.nra.
    split; Lqa.nra.
Qed.

Lemma mixAfter_converges (sel : option string) (mix eps : Q) :
  0 <= mix <= 1 -> 0 < eps ->
  exists N, forall n, (N <= n)%nat ->
    Qabs (StarField.mixAfter n data sel mix - StarField.targetMix data sel)
    < eps.
Proof.
  intros [Hlo Hhi] Heps.
  exists (Z.to_nat (Qceiling (8 / eps))). intros n Hn.
  set (t := StarField.targetMix data sel).
  set (k := inject_Z (Z.of_nat n)).
  destruct (geometric_bound n) as [Hq0 Hq]. fold k in Hq.
  set (q := geometric (22 # 25) n) in *.
  assert (Hk : 8 / eps <= k).
  { apply Qle_trans with (inject_Z (Qceiling (8 / eps)));
      [apply Qle_ceiling|].
    unfold k. rewrite <- Zle_Qle. lia. }
  assert (Hk0 : 0 <= k).
  { unfold k. change 0 with (inject_Z 0). rewrite <- Zle_Qle. lia. }
  assert (Hk8 : 8 <= eps * k).
  { assert (E : eps * (8 / eps) == 8) by (field; Lqa.lra).
    rewrite <- E. apply Qmult_le_l; assumption. }
  assert (Hqe : q < eps).
  { apply Qnot_le_lt. intros Hc.
    assert (eps * (22 + 3 * k) <= q * (22 + 3 * k))
      by (apply Qmult_le_compat_r; Lqa.lra).
    Lqa.lra. }
  assert (Ht : Qabs (t - mix) <= 1).
  { apply Qabs_Qle_condition. unfold t.
    destruct (targetMix_binary sel) as [-> | ->]; split; Lqa.lra. }
  assert (E : StarField.mixAfter n data sel mix - t
              == - (q * (t - mix))).
  { unfold t, q. rewrite <- mixAfter_remaining. ring. }
  rewrite E, Qabs_opp, Qabs_Qmult, (Qabs_pos q) by exact Hq0.
  set (a := Qabs (t - mix)) in *.
  apply Qle_lt_trans with (q * 1); [Lqa.nra | Lqa.lra].
Qed.

End SelectionMix.

(* ================================================================== *)
(** * Strings *)
(* ================================================================== *)

Section Strings.

Lemma isWhiteSpace_lower (c : ascii) :
  JS.isWhiteSpace (JS.charToLowerCase c) = JS.isWhiteSpace c.
Proof.
  destruct c as [[] [] [] [] [] [] [] []]; reflexivity.
Qed.

Lemma allWhite_lower (s : string) :
  allWhite (JS.toLowerCase s) = allWhite s.
Proof.
  induction s as [|c s IH]; cbn [JS.toLowerCase allWhite].
  - reflexivity.
  - now rewrite isWhiteSpace_lower, IH.
Qed.

Lemma allWhite_trimStart (s : string) :
  allWhite (JS.trimStart s) = allWhite s.
Proof.
  induction s as [|c s IH]; cbn [JS.trimStart allWhite].
  - reflexivity.
  - destruct (JS.isWhiteSpace c) eqn:E; cbn [allWhite andb].
    + exact IH.
    + now rewrite E.
Qed.

Lemma truthy_trimEnd (s : string) :
  JS.truthy (JS.trimEnd s) = negb (allWhite s).
Proof.
  induction s as [|c s IH]; cbn [JS.trimEnd allWhite].
  - reflexivity.
  - destruct (JS.trimEnd s) eqn:E; cbn [JS.truthy] in IH.
    + destruct (JS.isWhiteSpace c); cbn.
      * exact IH.
      * reflexivity.
    + cbn [JS.truthy]. symmetry in IH.
      apply negb_true_iff in IH. rewrite IH.
      now rewrite andb_false_r.
Qed.

Lemma truthy_trim (s : string) :
  JS.truthy (JS.trim s) = negb (allWhite s).
Proof.
  unfold JS.trim. now rewrite truthy_trimEnd, allWhite_trimStart.
Qed.

(** Two strings equal up to case are blank together. *)
Lemma truthy_trim_lower (a b : string) :
  JS.toLowerCase a = JS.toLowerCase b ->
  JS.truthy (JS.trim a) = JS.truthy (JS.trim b).
Proof.
  intros H. rewrite !truthy_trim.
  now rewrite <- (allWhite_lower a), H, allWhite_lower.
Qed.

Lemma truthy_length (s : string) :
  (0 <? String.length s)%nat = JS.truthy s.
Proof. destruct s; reflexivity. Qed.

End Strings.

(* ================================================================== *)
(** * Random draws *)
(* ================================================================== *)

Section Draws.

Lemma randInRange_draws (lo hi : Q) (g : Rng) :
  draws (snd (randInRange lo hi g)) = draws g.
Proof. reflexivity. Qed.

Lemma remapPosition_draws (a b c : R) (g : Rng) :
  draws (snd (StarField.remapPosition a b c g)) = draws g.
Proof. reflexivity. Qed.

Lemma projectStar_draws (s : CatalogStar.t) (index : nat) (g : Rng) :
  draws (snd (StarField.projectStar s index g)) = draws g.
Proof. reflexivity. Qed.

Lemma searchInfo_draws (s : CatalogStar.t) (g : Rng) :
  draws (snd (GalaxyCanvas.searchInfo s g)) = draws g.
Proof. reflexivity. Qed.

Lemma projectFrom_draws (l : list CatalogStar.t) (index : nat) (g : Rng) :
  draws (snd (StarField.projectFrom index l g)) = draws g.
Proof.
  revert index g. induction l as [|s l IH]; intros index g.
  - reflexivity.
  - cbn [StarField.projectFrom]. unfold bind.
    destruct (StarField.projectStar s index g) as [d g1] eqn:E1.
    destruct (StarField.projectFrom (S index) l g1) as [ds g2] eqn:E2.
    cbn [ret snd].
    change g2 with (snd (ds, g2)). rewrite <- E2, IH.
    change g1 with (snd (d, g1)). rewrite <- E1.
    apply projectStar_draws.
Qed.

(** The star at position [i] of the projection is the projection of the
    record at position [i], made from the same source of draws. *)
Lemma projectFrom_nth (l : list CatalogStar.t) (index : nat) (g : Rng)
    (i : nat) (s : CatalogStar.t) :
  nth_error l i = Some s ->
  exists g', draws g' = draws g /\
             nth_error (fst (StarField.projectFrom index l g)) i
             = Some (fst (StarField.projectStar s (index + i) g')).
Proof.
  revert index g i. induction l as [|s0 l IH]; intros index g i Hi.
  - destruct i; discriminate.
  - cbn [StarField.projectFrom]. unfold bind.
    destruct (StarField.projectStar s0 index g) as [d g1] eqn:E1.
    destruct (StarField.projectFrom (S index) l g1) as [ds g2] eqn:E2.
    cbn [ret fst].
    destruct i as [|i]; cbn [nth_error] in *.
    + injection Hi as ->. exists g. split; [reflexivity|].
      rewrite Nat.add_0_r, E1. reflexivity.
    + destruct (IH (S index) g1 i Hi) as (g' & Hd & Hn).
      exists g'. split.
      * rewrite Hd. change g1 with (snd (d, g1)). rewrite <- E1.
        apply projectStar_draws.
      * rewrite E2 in Hn. cbn [fst] in Hn.
        rewrite Hn. now rewrite Nat.add_succ_r.
Qed.

Lemma projectFrom_length (l : list CatalogStar.t) (index : nat) (g : Rng) :
  List.length (fst (StarField.projectFrom index l g)) = List.length l.
Proof.
  revert index g. induction l as [|s l IH]; intros index g.
  - reflexivity.
  - cbn [StarField.projectFrom]. unfold bind.
    destruct (StarField.projectStar s index g) as [d g1].
    specialize (IH (S index) g1).
    destruct (StarField.projectFrom (S index) l g1) as [ds g2].
    cbn in *. now rewrite IH.
Qed.

(** A temperature drawn from a range and rounded stays in the range when
    the bounds are integers. *)
Lemma rounded_draw_in_range (lo hi : Z) (g : Rng) :
  (lo <= hi)%Z -> validRng g ->
  let t := JS.Math_round
             (fst (randInRange (inject_Z lo) (inject_Z hi) g)) in
  inject_Z lo <= t <= inject_Z hi.
Proof.
  intros Hle Hv t. destruct (Hv (cursor g)) as [H0 H1].
  unfold t, JS.Math_round, randInRange, Math_random. cbn [fst].
  set (u := draws g (cursor g)) in *.
  assert (Hd : 0 <= inject_Z hi - inject_Z lo).
  { rewrite Zle_Qle in Hle. Lqa.lra. }
  set (d := inject_Z hi - inject_Z lo) in *.
  assert (Hud : 0 <= u * d <= d) by (split; Lqa.nra).
  set (x := inject_Z lo + u * d) in *.
  rewrite <- !Zle_Qle. split.
  - rewrite <- (Qfloor_Z lo) at 1. apply Qfloor_resp_le.
    unfold x. Lqa.lra.
  - apply Z.lt_succ_r. unfold Z.succ. rewrite Zlt_Qlt, inject_Z_plus.
    change (inject_Z 1) with 1.
    pose proof (Qfloor_le (x + (1 # 2))) as Hf.
    unfold x, d in *. Lqa.lra.
Qed.

End Draws.

(* ================================================================== *)
(** * Sessions of the galaxy scene *)
(* ================================================================== *)

Section GalaxySessions.

Import GalaxyCanvas.

Variable catalog : list CatalogStar.t.

Lemma performSearch_draws (st : State) (w : World) :
  draws (rng (snd (performSearch catalog st w))) = draws (rng w).
Proof.
  unfold performSearch.
  destruct (negb (JS.truthy (JS.trim (searchValue st)))); [reflexivity|].
  destruct (find (matchesQuery (searchValue st)) catalog) as [target|];
    reflexivity.
Qed.

Lemma step_loaded (s : Session) (e : Event) :
  loaded (step catalog s e) = loaded s.
Proof.
  destruct e as [index| |v|]; cbn [step]; try reflexivity.
  - destruct (nth_error (loaded s) index); reflexivity.
  - destruct (performSearch catalog (ui s) (world s)); reflexivity.
Qed.

Lemma step_draws (s : Session) (e : Event) :
  draws (rng (world (step catalog s e))) = draws (rng (world s)).
Proof.
  destruct e as [index| |v|]; cbn [step]; try reflexivity.
  - destruct (nth_error (loaded s) index); reflexivity.
  - pose proof (performSearch_draws (ui s) (world s)) as H.
    destruct (performSearch catalog (ui s) (world s)); exact H.
Qed.

Lemma run_loaded (events : list Event) (s : Session) :
  loaded (run catalog s events) = loaded s.
Proof.
  unfold run. revert s.
  induction events as [|e events IH]; intros s; cbn [fold_left].
  - reflexivity.
  - now rewrite IH, step_loaded.
Qed.

Lemma run_draws (events : list Event) (s : Session) :
  draws (rng (world (run catalog s events))) = draws (rng (world s)).
Proof.
  unfold run. revert s.
  induction events as [|e events IH]; intros s; cbn [fold_left].
  - reflexivity.
  - now rewrite IH, step_draws.
Qed.

Lemma run_app (s : Session) (before after : list Event) :
  run catalog s (before ++ after) = run catalog (run catalog s before) after.
Proof. apply fold_left_app. Qed.

Lemma mount_loaded (g : Rng) :
  loaded (mount catalog g) = fst (StarField.stars catalog g).
Proof.
  unfold mount. destruct (StarField.stars catalog g); reflexivity.
Qed.

Lemma mount_draws (g : Rng) :
  draws (rng (world (mount catalog g))) = draws g.
Proof.
  unfold mount.
  pose proof (projectFrom_draws (StarField.subset catalog) 0 g) as H.
  unfold StarField.stars.
  destruct (StarField.projectFrom 0 (StarField.subset catalog) g).
  exact H.
Qed.

(** A click on a loaded star selects the record made of its data. *)
Lemma click_selects (s : Session) (index : nat)
    (data : StarField.StarData.t) :
  nth_error (loaded s) index = Some data ->
  selectedStar (ui (step catalog s (StarClick index)))
  = Some (StarField.handleClick data).
Proof. intros H. cbn [step]. rewrite H. reflexivity. Qed.

(** A search that finds a record selects the record made by
    [searchInfo]. *)
Lemma search_selects (s : Session) (query : string)
    (target : CatalogStar.t) :
  JS.truthy (JS.trim query) = true ->
  find (matchesQuery query) catalog = Some target ->
  selectedStar
    (ui (step catalog (step catalog s (Input query)) Search))
  = Some (fst (searchInfo target (rng (world s)))).
Proof.
  intros Hq Hf. unfold step, performSearch, setSearchValue.
  cbn [ui world searchValue].
  rewrite Hq, Hf. cbn [negb].
  destruct (searchInfo target (rng (world s))); reflexivity.
Qed.

End GalaxySessions.

Section Attributes.

Lemma validRng_draws (g g' : Rng) :
  draws g' = draws g -> validRng g -> validRng g'.
Proof. unfold validRng. intros ->. auto. Qed.

Lemma config_ranges_agree (cls : SpectralClass) :
  StarField.SpectralConfig.tempRange (StarField.SPECTRAL_CONFIG cls)
  = GalaxyCanvas.SpectralConfig.tempRange (GalaxyCanvas.SPECTRAL_CONFIG cls)
  /\
  StarField.SpectralConfig.radiusRangeSun (StarField.SPECTRAL_CONFIG cls)
  = GalaxyCanvas.SpectralConfig.radiusRangeSun
      (GalaxyCanvas.SPECTRAL_CONFIG cls).
Proof. destruct cls; split; reflexivity. Qed.

(** A temperature drawn for a class lies in the range of the class. *)
Lemma class_temperature_in_range (cls : SpectralClass) (g : Rng) :
  validRng g ->
  let range :=
    GalaxyCanvas.SpectralConfig.tempRange (GalaxyCanvas.SPECTRAL_CONFIG cls)
  in
  fst range
  <= JS.Math_round (fst (randInRange (fst range) (snd range) g))
  <= snd range.
Proof.
  intros Hv.
  destruct cls; cbn [GalaxyCanvas.SPECTRAL_CONFIG
                       GalaxyCanvas.SpectralConfig.tempRange fst snd].
  - apply (@rounded_draw_in_range 30000 50000 g); [lia | exact Hv].
  - apply (@rounded_draw_in_range 10000 30000 g); [lia | exact Hv].
  - apply (@rounded_draw_in_range 7500 10000 g); [lia | exact Hv].
  - apply (@rounded_draw_in_range 6000 7500 g); [lia | exact Hv].
  - apply (@rounded_draw_in_range 5200 6000 g); [lia | exact Hv].
  - apply (@rounded_draw_in_range 3700 5200 g); [lia | exact Hv].
  - apply (@rounded_draw_in_range 2400 3700 g); [lia | exact Hv].
Qed.

(** A draw from a range lies in the range. *)
Lemma randInRange_in_range (lo hi : Q) (g : Rng) :
  lo <= hi -> validRng g ->
  lo <= fst (randInRange lo hi g) <= hi.
Proof.
  intros Hle Hv. destruct (Hv (cursor g)) as [H0 H1].
  unfold randInRange, Math_random. cbn [fst].
  set (u := draws g (cursor g)) in *. split; Lqa.nra.
Qed.

(** A radius drawn for a class lies in the range of the class. *)
Lemma class_radius_in_range (cls : SpectralClass) (g : Rng) :
  validRng g ->
  let range :=
    GalaxyCanvas.SpectralConfig.radiusRangeSun
      (GalaxyCanvas.SPECTRAL_CONFIG cls) in
  fst range <= fst (randInRange (fst range) (snd range) g) <= snd range.
Proof.
  intros Hv.
  destruct cls; cbn [GalaxyCanvas.SPECTRAL_CONFIG
                       GalaxyCanvas.SpectralConfig.radiusRangeSun fst snd];
    (apply randInRange_in_range; [Lqa.lra | exact Hv]).
Qed.

Lemma projectStar_attributes (s : CatalogStar.t) (index : nat) (g : Rng) :
  let cls := inferSpectralClass s in
  let cfg := GalaxyCanvas.SPECTRAL_CONFIG cls in
  let range := GalaxyCanvas.SpectralConfig.tempRange cfg in
  let radii := GalaxyCanvas.SpectralConfig.radiusRangeSun cfg in
  let attr :=
    StarField.StarData.attributes (fst (StarField.projectStar s index g)) in
  StarField.StarAttributes.name attr = StarField.displayName s index /\
  StarField.StarAttributes.status attr = "unclaimed"%string /\
  StarField.StarAttributes.spectralClass attr = cls /\
  StarField.StarAttributes.temperature attr
  = JS.Math_round (fst (randInRange (fst range) (snd range) g)) /\
  StarField.StarAttributes.radiusSun attr
  = fst (randInRange (fst radii) (snd radii) (afterTemperature cls g)).
Proof.
  cbv zeta. unfold afterTemperature.
  destruct (config_ranges_agree (inferSpectralClass s)) as [<- <-].
  repeat split.
Qed.

Lemma searchInfo_attributes (s : CatalogStar.t) (g : Rng) :
  let cls := inferSpectralClass s in
  let cfg := GalaxyCanvas.SPECTRAL_CONFIG cls in
  let range := GalaxyCanvas.SpectralConfig.tempRange cfg in
  let radii := GalaxyCanvas.SpectralConfig.radiusRangeSun cfg in
  let info := fst (GalaxyCanvas.searchInfo s g) in
  StarSelectionInfo.name info
  = JS.orElse (CatalogStar.name s) "Unnamed star" /\
  StarSelectionInfo.status info = "unclaimed"%string /\
  StarSelectionInfo.type info = GalaxyCanvas.SpectralConfig.label cfg /\
  StarSelectionInfo.temperature info
  = JS.Math_round (fst (randInRange (fst range) (snd range) g)) /\
  StarSelectionInfo.size info
  = (JS.toFixed2
       (fst (randInRange (fst radii) (snd radii) (afterTemperature cls g)))
     ++ " x Sun radius")%string.
Proof. cbv zeta. repeat split. Qed.

(** A record matched by a non-blank query keeps its catalog name as
    display name. *)
Lemma matched_name (query : string) (s : CatalogStar.t) (index : nat) :
  JS.truthy (JS.trim query) = true ->
  GalaxyCanvas.matchesQuery query s = true ->
  exists n, CatalogStar.name s = Some n /\
            StarField.displayName s index = n /\
            JS.orElse (CatalogStar.name s) "Unnamed star" = n.
Proof.
  unfold GalaxyCanvas.matchesQuery, StarField.displayName.
  intros Hq Hm. destruct (CatalogStar.name s) as [n|]; [|discriminate].
  apply andb_true_iff in Hm as [Hn Hl]. apply String.eqb_eq in Hl.
  exists n. cbn [JS.orElse]. rewrite Hn, truthy_length.
  rewrite (truthy_trim_lower _ _ Hl), Hq. repeat split.
Qed.

Lemma cyclingRng_valid : validRng cyclingRng.
Proof.
  intros n. cbn [cyclingRng draws].
  assert (Hk : (0 <= Z.of_nat (n mod 16) < 16)%Z).
  { pose proof (Nat.mod_upper_bound n 16). lia. }
  destruct Hk as [Hlo Hhi].
  rewrite Zle_Qle in Hlo. rewrite Zlt_Qlt in Hhi.
  change (inject_Z 0) with 0 in Hlo. change (inject_Z 16) with 16 in Hhi.
  set (k := inject_Z (Z.of_nat (n mod 16))) in *.
  split.
  - apply Qle_shift_div_l; Lqa.lra.
  - apply Qlt_shift_div_r; Lqa.lra.
Qed.

End Attributes.

(* ================================================================== *)
(** * Names of the selected star *)
(* ================================================================== *)

Section SelectedNames.

Import GalaxyCanvas.

Lemma displayName_truthy (s : CatalogStar.t) (index : nat) :
  JS.truthy (StarField.displayName s index) = true.
Proof.
  unfold StarField.displayName.
  destruct (CatalogStar.name s) as [n|]; [|reflexivity].
  destruct (JS.truthy n) eqn:E; cbn [andb]; [|reflexivity].
  destruct (0 <? String.length (JS.trim n))%nat; [exact E | reflexivity].
Qed.

Lemma projectFrom_allNamed (l : list CatalogStar.t) (index : nat) (g : Rng) :
  allNamed (fst (StarField.projectFrom index l g)).
Proof.
  unfold allNamed. revert index g.
  induction l as [|s l IH]; intros index g.
  - constructor.
  - cbn [StarField.projectFrom]. unfold bind.
    destruct (StarField.projectStar s index g) as [d g1] eqn:E1.
    specialize (IH (S index) g1).
    destruct (StarField.projectFrom (S index) l g1) as [ds g2].
    cbn [ret fst] in *. constructor; [|exact IH].
    change d with (fst (d, g1)). rewrite <- E1.
    destruct (projectStar_attributes s index g) as (-> & _).
    apply displayName_truthy.
Qed.

Lemma orElse_truthy (s : option string) (d : string) :
  JS.truthy d = true -> JS.truthy (JS.orElse s d) = true.
Proof.
  intros Hd. unfold JS.orElse. destruct s as [v|]; [|exact Hd].
  destruct (JS.truthy v) eqn:E; [exact E | exact Hd].
Qed.

Lemma step_selectionNamed (catalog : list CatalogStar.t) (s : Session)
    (e : Event) :
  allNamed (loaded s) -> selectionNamed (ui s) ->
  selectionNamed (ui (step catalog s e)).
Proof.
  intros Hall Hsel. destruct e as [index| |v|]; cbn [step].
  - destruct (nth_error (loaded s) index) as [data|] eqn:E; [|exact Hsel].
    unfold selectionNamed. cbn.
    apply nth_error_In in E. unfold allNamed in Hall.
    rewrite Forall_forall in Hall. now apply Hall.
  - exact I.
  - exact Hsel.
  - unfold performSearch.
    destruct (negb (JS.truthy (JS.trim (searchValue (ui s)))));
      [exact Hsel|].
    destruct (find (matchesQuery (searchValue (ui s))) catalog)
      as [target|]; [|exact Hsel].
    destruct (searchInfo_attributes target (rng (world s))) as (Hn & _).
    destruct (searchInfo target (rng (world s))) as [info g'].
    unfold selectionNamed. cbn in *. rewrite Hn.
    now apply orElse_truthy.
Qed.

Lemma run_selectionNamed (catalog : list CatalogStar.t)
    (events : list Event) (s : Session) :
  allNamed (loaded s) -> selectionNamed (ui s) ->
  selectionNamed (ui (run catalog s events)).
Proof.
  unfold run. revert s.
  induction events as [|e events IH]; intros s Hall Hsel; cbn [fold_left].
  - exact Hsel.
  - apply IH.
    + now rewrite step_loaded.
    + now apply step_selectionNamed.
Qed.

Lemma mount_run_selectionNamed (catalog : list CatalogStar.t) (g : Rng)
    (events : list Event) :
  selectionNamed (ui (run catalog (mount catalog g) events)).
Proof.
  apply run_selectionNamed.
  - rewrite mount_loaded. apply projectFrom_allNamed.
  - unfold mount. destruct (StarField.stars catalog g). exact I.
Qed.

End SelectedNames.

(* ================================================================== *)
(** * Selection by click and by search *)
(* ================================================================== *)

Section Selection.

Import GalaxyCanvas.

(** C1 (what the code does).  On the catalog of Vega and the Sun, with
    draws cycling through the sixteenths, the attributes of Vega are not
    sampled once: [performSearch] draws temperature and radius again on
    every search and shows the configured label as type.  The click on
    Vega shows the type "A-type star", the temperature 7969 and the size
    "1.55 x Sun radius" made at load time; the search for Vega shows
    "A-type white star", 8438 and "1.66 x Sun radius"; the same search
    run once more shows 8750 and "1.74 x Sun radius"; a click after the
    search shows the load-time values again.  So the record of a
    successful search is not the one of the click on that star, also
    with the position set aside, and selecting the same star again does
    not show the same attributes. *)
Lemma search_displays_other_attributes_than_click :
  let s0 := mount twoStars cyclingRng in
  panel (run twoStars s0 [StarClick 1])
  = Some ("Vega", "unclaimed", "A-type star", 7969,
          "1.55 x Sun radius")%string /\
  panel (run twoStars s0 [Input "vega"; Search])
  = Some ("Vega", "unclaimed", "A-type white star", 8438,
          "1.66 x Sun radius")%string /\
  panel (run twoStars s0 [Input "vega"; Search; Search])
  = Some ("Vega", "unclaimed", "A-type white star", 8750,
          "1.74 x Sun radius")%string /\
  panel (run twoStars s0 [Input "vega"; Search; StarClick 1])
  = Some ("Vega", "unclaimed", "A-type star", 7969,
          "1.55 x Sun radius")%string /\
  panel (run twoStars s0 [Input "vega"; Search])
  <> panel (run twoStars s0 [StarClick 1]) /\
  panel (run twoStars s0 [Input "vega"; Search; Search])
  <> panel (run twoStars s0 [Input "vega"; Search]).
Proof.
  cbv zeta.
  assert (Hc : panel (run twoStars (mount twoStars cyclingRng)
                        [StarClick 1])
               = Some ("Vega", "unclaimed", "A-type star", 7969,
                       "1.55 x Sun radius")%string)
    by (vm_compute; reflexivity).
  assert (Hs : panel (run twoStars (mount twoStars cyclingRng)
                        [Input "vega"; Search])
               = Some ("Vega", "unclaimed", "A-type white star", 8438,
                       "1.66 x Sun radius")%string)
    by (vm_compute; reflexivity).
  assert (Hss : panel (run twoStars (mount twoStars cyclingRng)
                         [Input "vega"; Search; Search])
                = Some ("Vega", "unclaimed", "A-type white star", 8750,
                        "1.74 x Sun radius")%string)
    by (vm_compute; reflexivity).
  assert (Hsc : panel (run twoStars (mount twoStars cyclingRng)
                         [Input "vega"; Search; StarClick 1])
                = Some ("Vega", "unclaimed", "A-type star", 7969,
                        "1.55 x Sun radius")%string)
    by (vm_compute; reflexivity).
  split; [exact Hc|]. split; [exact Hs|].
  split; [exact Hss|]. split; [exact Hsc|].
  rewrite Hc, Hs, Hss. split; discriminate.
Qed.

(** The two selection paths on any catalog.  After any events, a click
    on a star selects the record of the data made at load time.  A
    successful search for a star of the field selects a record built
    from the catalog row instead: it has the name and the status of the
    click on that star, but its type is the configured label of the
    inferred class, never the type that the click shows; its temperature
    and the radius behind its size come from new draws within the ranges
    of that class; and its position is the focus position of the row,
    where the click gives the position made at load time. *)
Theorem click_is_stable_and_search_redraws
    (catalog : list CatalogStar.t) (g : Rng) :
  validRng g ->
  let s0 := mount catalog g in
  (forall events index data,
      nth_error (loaded s0) index = Some data ->
      loaded (run catalog s0 events) = loaded s0 /\
      selectedStar (ui (run catalog s0 (events ++ [StarClick index])))
      = Some (StarField.handleClick data)) /\
  (forall events query target index,
      JS.truthy (JS.trim query) = true ->
      find (matchesQuery query) catalog = Some target ->
      nth_error (StarField.subset catalog) index = Some target ->
      exists data found,
        nth_error (loaded s0) index = Some data /\
        selectedStar
          (ui (run catalog s0 (events ++ [Input query; Search])))
        = Some found /\
        let clicked := StarField.handleClick data in
        let cls := inferSpectralClass target in
        let range := SpectralConfig.tempRange (SPECTRAL_CONFIG cls) in
        let radii := SpectralConfig.radiusRangeSun (SPECTRAL_CONFIG cls) in
        CatalogStar.name target = Some (StarSelectionInfo.name found) /\
        StarSelectionInfo.name found = StarSelectionInfo.name clicked /\
        StarSelectionInfo.status found = "unclaimed"%string /\
        StarSelectionInfo.status clicked = "unclaimed"%string /\
        StarSelectionInfo.type clicked
        = (classLetter cls ++ "-type star")%string /\
        StarSelectionInfo.type found
        = SpectralConfig.label (SPECTRAL_CONFIG cls) /\
        fst range <= StarSelectionInfo.temperature clicked <= snd range /\
        fst range <= StarSelectionInfo.temperature found <= snd range /\
        StarSelectionInfo.position found = focusPosition target /\
        StarSelectionInfo.position clicked
        = StarField.StarData.position data /\
        StarSelectionInfo.type found <> StarSelectionInfo.type clicked /\
        exists radiusClicked radiusFound,
          StarSelectionInfo.size clicked
          = (JS.toFixed2 radiusClicked ++ " x Sun radius")%string /\
          StarSelectionInfo.size found
          = (JS.toFixed2 radiusFound ++ " x Sun radius")%string /\
          fst radii <= radiusClicked <= snd radii /\
          fst radii <= radiusFound <= snd radii).
Proof.
  intros Hv s0. split.
  - intros events index data Hdata. split; [apply run_loaded|].
    rewrite run_app. unfold run at 1. cbn [fold_left].
    apply click_selects. now rewrite run_loaded.
  - intros events query target index Hq Hfind Hsub.
    destruct (projectFrom_nth (StarField.subset catalog) 0 g index Hsub)
      as (g1 & Hg1 & Hnth).
    cbn [Nat.add] in Hnth.
    exists (fst (StarField.projectStar target index g1)).
    exists (fst (searchInfo target
                   (rng (world (run catalog s0 events))))).
    split.
    { unfold s0. rewrite mount_loaded. exact Hnth. }
    split.
    { rewrite run_app. unfold run at 1. cbn [fold_left].
      now apply search_selects. }
    assert (Hv1 : validRng g1)
      by (apply validRng_draws with g; assumption).
    assert (Hv2 : validRng (rng (world (run catalog s0 events)))).
    { apply validRng_draws with g; [|exact Hv].
      unfold s0. now rewrite run_draws, mount_draws. }
    generalize dependent (rng (world (run catalog s0 events))).
    intros g2 Hv2.
    apply find_some in Hfind as [_ Hmatch].
    destruct (matched_name query target index Hq Hmatch)
      as (n & Hname & Hdisp & Horelse).
    destruct (projectStar_attributes target index g1)
      as (Hpn & Hps & Hpc & Hpt & Hpr).
    destruct (searchInfo_attributes target g2)
      as (Hsn & Hss & Hsty & Hst & Hsz).
    assert (Hpos : StarSelectionInfo.position (fst (searchInfo target g2))
                   = focusPosition target) by reflexivity.
    cbv zeta. unfold StarField.handleClick.
    cbn [StarSelectionInfo.name StarSelectionInfo.status
         StarSelectionInfo.type StarSelectionInfo.temperature
         StarSelectionInfo.size StarSelectionInfo.position].
    rewrite Hpn, Hps, Hpc, Hpt, Hpr, Hdisp, Hsn, Hss, Hsty, Hst, Hsz, Horelse.
    set (cls := inferSpectralClass target).
    split; [exact Hname|].
    split; [reflexivity|].
    split; [reflexivity|].
    split; [reflexivity|].
    split; [reflexivity|].
    split; [reflexivity|].
    split; [exact (class_temperature_in_range cls Hv1)|].
    split; [exact (class_temperature_in_range cls Hv2)|].
    split; [exact Hpos|].
    split; [reflexivity|].
    split; [destruct cls; discriminate|].
    eexists. eexists.
    split; [reflexivity|]. split; [reflexivity|].
    split; apply class_radius_in_range.
    + apply validRng_draws with g1; [reflexivity | exact Hv1].
    + apply validRng_draws with g2; [reflexivity | exact Hv2].
Qed.

(** Vega in the catalog of two records: clicked after a void click, and
    searched for. *)
Lemma click_is_stable_and_search_redraws_witness :
  let s0 := mount twoStars cyclingRng in
  (exists data,
      nth_error (loaded s0) 1 = Some data /\
      selectedStar (ui (run twoStars s0 ([VoidClick] ++ [StarClick 1])))
      = Some (StarField.handleClick data)) /\
  (exists found,
      selectedStar
        (ui (run twoStars s0 ([] ++ [Input "vega"; Search])))
      = Some found /\
      StarSelectionInfo.type found = "A-type white star"%string /\
      7500 <= StarSelectionInfo.temperature found <= 10000).
Proof.
  cbv zeta.
  destruct (click_is_stable_and_search_redraws twoStars cyclingRng_valid)
    as [Hclick Hsearch].
  split.
  - destruct (nth_error (loaded (mount twoStars cyclingRng)) 1)
      as [data|] eqn:E; [|vm_compute in E; discriminate].
    exists data. split; [reflexivity|].
    now apply (Hclick [VoidClick] 1%nat data).
  - destruct (Hsearch [] "vega"%string vega 1%nat)
      as (data & found & _ & Hsel & _ & _ & _ & _ & _ & Hty & _ & Htemp & _);
      [reflexivity | reflexivity | reflexivity |].
    exists found. split; [exact Hsel|]. split; [exact Hty | exact Htemp].
Defined.

(** C9 (as stated, refuted).  A blank query matches no record of the
    catalog, and the search returns without a warning. *)
Lemma blank_search_emits_no_warning :
  let st := mkState None "  " None in
  let w := mkWorld cyclingRng [] in
  find (matchesQuery (searchValue st)) twoStars = None /\
  fst (performSearch twoStars st w) = st /\
  console (snd (performSearch twoStars st w)) = [].
Proof. cbv zeta. repeat split. Qed.

(** C9 (amended).  A search that matches no record returns with the
    state (selection, search text and camera) and the random source as
    they were.  When the query is not blank the console receives the
    warning "Star not found:" with the query; when the query is blank
    nothing at all is emitted. *)
Theorem search_miss_is_noop (catalog : list CatalogStar.t)
    (st : State) (w : World) :
  find (matchesQuery (searchValue st)) catalog = None ->
  fst (performSearch catalog st w) = st /\
  rng (snd (performSearch catalog st w)) = rng w /\
  (JS.truthy (JS.trim (searchValue st)) = true ->
   console (snd (performSearch catalog st w))
   = console w ++ [["Star not found:"%string; searchValue st]]) /\
  (JS.truthy (JS.trim (searchValue st)) = false ->
   snd (performSearch catalog st w) = w).
Proof.
  intros Hmiss. unfold performSearch. rewrite Hmiss.
  destruct (JS.truthy (JS.trim (searchValue st))); cbn [negb fst snd];
    repeat split; try reflexivity; discriminate.
Qed.

(** The search for Rigel in the catalog of Vega and the Sun. *)
Lemma search_miss_is_noop_witness :
  let st := mkState None "Rigel" None in
  let w := mkWorld cyclingRng [] in
  fst (performSearch twoStars st w) = st /\
  console (snd (performSearch twoStars st w))
  = [["Star not found:"; "Rigel"]]%string.
Proof.
  cbv zeta.
  destruct (search_miss_is_noop twoStars (mkState None "Rigel" None)
              (mkWorld cyclingRng []))
    as (Hst & _ & Hwarn & _); [reflexivity|].
  split; [exact Hst|]. apply Hwarn. reflexivity.
Defined.

End Selection.

(* ================================================================== *)
(** * The selection mix over the frames of a session *)
(* ================================================================== *)

(** C8.  A mix that starts within [0, 1] stays within [0, 1] on every
    frame, whatever the selection of each frame.  A frame moves the mix
    towards its target by the fraction 0.12 of the remaining distance; the
    target is 1 when nothing is selected or when the star bears the
    selected name, and 0 otherwise, in every session of the galaxy scene.
    Under a fixed selection the mix of the selected star tends to 1 and the
    mix of every other star tends to 0. *)
Theorem selection_mix_bounded_and_converges
    (data : StarField.StarData.t) (mix : Q) :
  0 <= mix <= 1 ->
  let starName :=
    StarField.StarAttributes.name (StarField.StarData.attributes data) in
  (forall sel, JS.truthyOpt sel = false -> StarField.targetMix data sel = 1) /\
  (forall n, JS.truthy n = true ->
             StarField.targetMix data (Some n)
             = if String.eqb starName n then 1 else 0) /\
  (forall catalog g events,
      let st :=
        GalaxyCanvas.ui
          (GalaxyCanvas.run catalog (GalaxyCanvas.mount catalog g) events) in
      StarField.targetMix data (GalaxyCanvas.selectedName st)
      = match GalaxyCanvas.selectedStar st with
        | None => 1
        | Some info =>
            if String.eqb starName (StarSelectionInfo.name info)
            then 1 else 0
        end) /\
  (forall sel,
      StarField.targetMix data sel - StarField.frameMix data sel mix
      == (1 - (12 # 100)) * (StarField.targetMix data sel - mix)) /\
  (forall sels, 0 <= mixTrace data sels mix <= 1) /\
  (forall sel n, 0 <= StarField.mixAfter n data sel mix <= 1) /\
  (forall eps, 0 < eps -> JS.truthy starName = true ->
     exists N, forall n, (N <= n)%nat ->
       Qabs (StarField.mixAfter n data (Some starName) mix - 1) < eps) /\
  (forall other eps, 0 < eps -> JS.truthy other = true -> other <> starName ->
     exists N, forall n, (N <= n)%nat ->
       Qabs (StarField.mixAfter n data (Some other) mix - 0) < eps).
Proof.
  intros Hmix starName.
  assert (Hsel : forall n, JS.truthy n = true ->
                   StarField.targetMix data (Some n)
                   = if String.eqb starName n then 1 else 0).
  { intros n Hn. rewrite targetMix_cases. cbn [JS.truthyOpt].
    rewrite Hn. reflexivity. }
  split.
  { intros sel Hs. rewrite targetMix_cases, Hs. reflexivity. }
  split; [exact Hsel|].
  split.
  { intros catalog g events st.
    pose proof (mount_run_selectionNamed catalog g events) as Hnamed.
    fold st in Hnamed. unfold selectionNamed in Hnamed.
    unfold GalaxyCanvas.selectedName.
    destruct (GalaxyCanvas.selectedStar st) as [info|].
    - now apply Hsel.
    - reflexivity. }
  split.
  { intros sel. rewrite frameMix_remaining. ring. }
  split; [intros sels; now apply mixTrace_bounds|].
  split.
  { intros sel n. rewrite mixAfter_mixTrace. now apply mixTrace_bounds. }
  split.
  - intros eps Heps Hname.
    destruct (mixAfter_converges data (Some starName) Hmix Heps) as [N HN].
    exists N. intros n Hn. specialize (HN n Hn).
    rewrite (Hsel starName Hname), String.eqb_refl in HN. exact HN.
  - intros other eps Heps Hother Hne.
    destruct (mixAfter_converges data (Some other) Hmix Heps) as [N HN].
    exists N. intros n Hn. specialize (HN n Hn).
    rewrite (Hsel other Hother) in HN.
    assert (E : String.eqb starName other = false)
      by (apply String.eqb_neq; congruence).
    rewrite E in HN. exact HN.
Qed.

(** The star Sol with the initial mix 1: its target is 0 while Vega is
    selected, and its mix stays within [0, 1] over three such frames. *)
Lemma selection_mix_bounded_and_converges_witness :
  StarField.targetMix solData (Some "Vega"%string) = 0 /\
  0 <= StarField.mixAfter 3 solData (Some "Vega"%string) StarField.initialMix
    <= 1.
Proof.
  assert (H1 : 0 <= StarField.initialMix <= 1) by (split; discriminate).
  destruct (selection_mix_bounded_and_converges solData H1)
    as (_ & Htarget & _ & _ & _ & Hbound & _).
  split.
  - apply (Htarget "Vega"%string). reflexivity.
  - apply Hbound.
Defined.

(* ================================================================== *)
(** * Further properties of the constellation placement system *)
(* ================================================================== *)

Section InventoryInvariants.

Import ConstellationCanvas.

Lemma idsOf_fixedPart (a b : list InventoryStar.t) :
  map fixedPart a = map fixedPart b -> idsOf a = idsOf b.
Proof.
  intros H. unfold idsOf.
  assert (E : forall l, map InventoryStar.id l
                        = map (fun q => fst (fst (fst (fst (fst (fst q))))))
                              (map fixedPart l)).
  { intros l. rewrite map_map. apply map_ext. reflexivity. }
  now rewrite (E a), (E b), H.
Qed.

(** Two entries of an inventory without repeated ids that bear the same id
    are the same entry. *)
Lemma same_id_same_entry (inv : list InventoryStar.t)
    (a b : InventoryStar.t) :
  NoDup (idsOf inv) -> In a inv -> In b inv ->
  InventoryStar.id a = InventoryStar.id b -> a = b.
Proof.
  unfold idsOf. induction inv as [|s inv IH]; intros Hnd Ha Hb Hid.
  - destruct Ha.
  - cbn [map] in Hnd. inversion Hnd as [|? ? Hnotin Hnd']; subst.
    destruct Ha as [<- | Ha], Hb as [<- | Hb].
    + reflexivity.
    + exfalso. apply Hnotin. rewrite Hid. now apply in_map.
    + exfalso. apply Hnotin. rewrite <- Hid. now apply in_map.
    + now apply IH.
Qed.

Lemma initial_ids (g : Rng) :
  idsOf (inventory (initialState g))
  = ["common-0"; "common-1"; "common-2"; "common-3"; "common-4";
     "uncommon-0"; "uncommon-1"]%string.
Proof. reflexivity. Qed.

Lemma initial_ids_NoDup (g : Rng) :
  NoDup (idsOf (inventory (initialState g))).
Proof.
  rewrite initial_ids.
  repeat (constructor; [cbn; intuition discriminate|]). constructor.
Qed.

Lemma perform_fixedPart (st : State) (op : Op) :
  NoDup (idsOf (inventory st)) ->
  map fixedPart (inventory (perform st op)) = map fixedPart (inventory st).
Proof.
  intros Hnd. destruct op as [|id|pos|id|id|]; cbn [perform].
  - reflexivity.
  - unfold handleSelectInventoryStar.
    destruct (negb (editMode st)); reflexivity.
  - unfold handlePlaneClick.
    destruct (negb (editMode st)
              || negb (JS.truthyOpt (selectedInventoryId st)));
      [reflexivity|].
    destruct (selectedInventoryId st) as [armed|]; [|reflexivity].
    destruct (findById armed (inventory st)) as [base|] eqn:Hf;
      [|reflexivity].
    apply findById_Some in Hf as [Hin Hid].
    cbn [inventory]. rewrite map_map. apply map_ext_in.
    intros s Hs.
    destruct (String.eqb (InventoryStar.id s) armed) eqn:E; [|reflexivity].
    apply String.eqb_eq in E.
    assert (base = s) as ->
      by (apply same_id_same_entry with (inventory st);
          [exact Hnd | exact Hin | exact Hs | congruence]).
    reflexivity.
  - unfold handleReturnToInventory. cbn [inventory].
    rewrite map_map. apply map_ext. intros s.
    destruct (String.eqb (InventoryStar.id s) id); reflexivity.
  - unfold handlePlacedStarClick.
    destruct (findById id (inventory st)) as [star|]; [|reflexivity].
    destruct (InventoryStar.position star); reflexivity.
  - reflexivity.
Qed.

Lemma applyAll_fixedPart (ops : list Op) (st : State) :
  NoDup (idsOf (inventory st)) ->
  map fixedPart (inventory (applyAll st ops)) = map fixedPart (inventory st).
Proof.
  unfold applyAll. revert st.
  induction ops as [|op ops IH]; intros st Hnd; cbn [fold_left].
  - reflexivity.
  - rewrite IH.
    + now apply perform_fixedPart.
    + rewrite (idsOf_fixedPart (inventory (perform st op)) (inventory st))
        by now apply perform_fixedPart.
      exact Hnd.
Qed.

(** X1.  Placement never destroys or recreates an entry: in every state
    reached from the initial inventory, the seven entries are there in the
    same order with the id, rarity, name, status, type, temperature and
    size label they were created with, and their ids are distinct. *)
Theorem inventory_entries_are_fixed (g : Rng) (ops : list Op) :
  let st := applyAll (initialState g) ops in
  map fixedPart (inventory st) = map fixedPart (inventory (initialState g))
  /\ NoDup (idsOf (inventory st))
  /\ List.length (inventory st) = 7%nat.
Proof.
  intros st.
  assert (H : map fixedPart (inventory st)
              = map fixedPart (inventory (initialState g)))
    by (apply applyAll_fixedPart, initial_ids_NoDup).
  split; [exact H|]. split.
  - rewrite (idsOf_fixedPart (inventory st) (inventory (initialState g)))
      by exact H.
    apply initial_ids_NoDup.
  - rewrite <- (length_map fixedPart), H, length_map. reflexivity.
Qed.

Lemma perform_disarmed_outside_edit (st : State) (op : Op) :
  (editMode st = false -> selectedInventoryId st = None) ->
  editMode (perform st op) = false ->
  selectedInventoryId (perform st op) = None.
Proof.
  intros Hinv. destruct op as [|id|pos|id|id|]; cbn [perform].
  - unfold handleToggleEdit. cbn.
    destruct (editMode st); [reflexivity | discriminate].
  - unfold handleSelectInventoryStar.
    destruct (editMode st) eqn:E; cbn; [discriminate | auto].
  - unfold handlePlaneClick.
    destruct (editMode st) eqn:E; cbn [negb orb]; [|rewrite E; auto].
    destruct (negb (JS.truthyOpt (selectedInventoryId st)));
      [rewrite E; discriminate|].
    destruct (selectedInventoryId st) as [armed|];
      [|rewrite E; discriminate].
    destruct (findById armed (inventory st));
      cbn; [|rewrite E]; discriminate.
  - unfold handleReturnToInventory. cbn. intros E.
    rewrite (Hinv E). reflexivity.
  - unfold handlePlacedStarClick.
    destruct (findById id (inventory st)) as [star|]; [|exact Hinv].
    destruct (InventoryStar.position star); [|exact Hinv].
    cbn. intros E. rewrite E. auto.
  - reflexivity.
Qed.

Lemma applyAll_disarmed_outside_edit (ops : list Op) (st : State) :
  (editMode st = false -> selectedInventoryId st = None) ->
  editMode (applyAll st ops) = false ->
  selectedInventoryId (applyAll st ops) = None.
Proof.
  unfold applyAll. revert st.
  induction ops as [|op ops IH]; intros st Hinv; cbn [fold_left].
  - exact Hinv.
  - apply IH. now apply perform_disarmed_outside_edit.
Qed.

(** X2.  Outside edit mode no entry is armed, in every state reached from
    the initial one: leaving edit mode disarms, and nothing arms while edit
    mode is off. *)
Theorem nothing_armed_outside_edit_mode (g : Rng) (ops : list Op) :
  let st := applyAll (initialState g) ops in
  editMode st = false -> selectedInventoryId st = None.
Proof.
  cbv zeta. apply applyAll_disarmed_outside_edit. reflexivity.
Qed.

(** Entering edit mode, arming [common-0], placing it and leaving edit
    mode. *)
Lemma nothing_armed_outside_edit_mode_witness :
  selectedInventoryId
    (applyAll (initialState quarterRng)
       [ToggleEdit; ArmForPlacement "common-0"; PlaceAt (0, 0, 0);
        ToggleEdit]) = None.
Proof.
  apply (nothing_armed_outside_edit_mode quarterRng
           [ToggleEdit; ArmForPlacement "common-0"; PlaceAt (0, 0, 0);
            ToggleEdit]).
  reflexivity.
Defined.

Lemma perform_selectionCurrent (st : State) (op : Op) :
  selectionCurrent st -> selectionCurrent (perform st op).
Proof.
  unfold selectionCurrent.
  intros Hinv. destruct op as [|id|pos|id|id|]; cbn [perform].
  - exact Hinv.
  - unfold handleSelectInventoryStar.
    destruct (negb (editMode st)); exact Hinv.
  - unfold handlePlaneClick.
    destruct (negb (editMode st)
              || negb (JS.truthyOpt (selectedInventoryId st)));
      [exact Hinv|].
    destruct (selectedInventoryId st) as [armed|]; [|exact Hinv].
    destruct (findById armed (inventory st)) as [base|] eqn:Hf;
      [|exact Hinv].
    apply findById_Some in Hf as [Hin Hid].
    cbn [selectedStar inventory]. split; [|discriminate].
    apply in_map_iff. exists base. split; [|exact Hin].
    apply String.eqb_eq in Hid. now rewrite Hid.
  - unfold handleReturnToInventory. cbn [selectedStar inventory].
    destruct (selectedStar st) as [sel|]; [|exact I].
    destruct (String.eqb (InventoryStar.id sel) id) eqn:E; [exact I|].
    destruct Hinv as [Hin Hpos]. split; [|exact Hpos].
    apply in_map_iff. exists sel. split; [|exact Hin].
    now rewrite E.
  - unfold handlePlacedStarClick.
    destruct (findById id (inventory st)) as [star|] eqn:Hf; [|exact Hinv].
    destruct (InventoryStar.position star) eqn:Hp; [|exact Hinv].
    apply findById_Some in Hf as [Hin _].
    cbn [selectedStar inventory]. split; [exact Hin | congruence].
  - exact I.
Qed.

Lemma applyAll_selectionCurrent (ops : list Op) (st : State) :
  selectionCurrent st -> selectionCurrent (applyAll st ops).
Proof.
  unfold applyAll. revert st.
  induction ops as [|op ops IH]; intros st H0; cbn [fold_left].
  - exact H0.
  - apply IH. now apply perform_selectionCurrent.
Qed.

(** X3.  The displayed-selected star is never stale: in every state
    reached from the initial one it is an entry of the current inventory,
    placed, with the stored position that the camera rig receives, on the
    integer grid. *)
Theorem displayed_selection_is_current (g : Rng) (ops : list Op) :
  let st := applyAll (initialState g) ops in
  forall sel,
    selectedStar st = Some sel ->
    In sel (inventory st) /\
    InventoryStar.placed sel = true /\
    exists p, InventoryStar.position sel = Some p /\ onIntegerGrid p.
Proof.
  intros st sel Hsel.
  assert (Hcur : selectionCurrent st).
  { unfold st. apply applyAll_selectionCurrent. exact I. }
  unfold selectionCurrent in Hcur. rewrite Hsel in Hcur.
  destruct Hcur as [Hin Hpos]. split; [exact Hin|].
  assert (Hwp : wellPlaced sel).
  { pose proof (@applyAll_wellPlaced ops (initialState g)
                  (initialState_wellPlaced g)) as Hall.
    rewrite Forall_forall in Hall. now apply Hall. }
  destruct Hwp as [Hiff Hgrid]. split; [now apply Hiff|].
  destruct (InventoryStar.position sel) as [p|] eqn:Hp; [|congruence].
  exists p. split; [reflexivity | now apply Hgrid].
Qed.

(** [common-0] placed at (1.4, 2.6, -0.2), then [common-1] armed. *)
Lemma displayed_selection_is_current_witness :
  In (placedAt common0 (1, 3, 0))
     (inventory
        (applyAll (initialState quarterRng)
           [ToggleEdit; ArmForPlacement "common-0";
            PlaceAt (14 # 10, 26 # 10, - (2 # 10));
            ArmForPlacement "common-1"])).
Proof.
  apply (displayed_selection_is_current quarterRng
           [ToggleEdit; ArmForPlacement "common-0";
            PlaceAt (14 # 10, 26 # 10, - (2 # 10));
            ArmForPlacement "common-1"]).
  reflexivity.
Defined.

End InventoryInvariants.

Section PlacementComposition.

Import ConstellationCanvas.

(** X4.  [placeAt] does not disarm, so a second [placeAt] moves the same
    entry: placing at [p] and then at [q] gives the same state as placing
    at [q] at once.  In particular a repeated [placeAt(p)] changes
    nothing. *)
Theorem placeAt_last_position_wins (p q : Point) (st : State) :
  handlePlaneClick q (handlePlaneClick p st) = handlePlaneClick q st /\
  handlePlaneClick p (handlePlaneClick p st) = handlePlaneClick p st /\
  selectedInventoryId (handlePlaneClick p st) = selectedInventoryId st.
Proof.
  assert (Hcomp : forall a b,
             handlePlaneClick b (handlePlaneClick a st)
             = handlePlaneClick b st).
  { intros a b.
    destruct (editMode st) eqn:He.
    2:{ unfold handlePlaneClick at 2. rewrite He. reflexivity. }
    destruct (selectedInventoryId st) as [armed|] eqn:Ha.
    2:{ unfold handlePlaneClick at 2. rewrite He, Ha. reflexivity. }
    destruct (JS.truthy armed) eqn:Ht.
    2:{ unfold handlePlaneClick at 2. rewrite He, Ha. cbn. rewrite Ht.
        reflexivity. }
    destruct (findById armed (inventory st)) as [base|] eqn:Hf.
    2:{ unfold handlePlaneClick at 2. rewrite He, Ha. cbn. rewrite Ht.
        cbn. rewrite Hf. reflexivity. }
    rewrite (handlePlaneClick_armed a st He Ha Ht Hf).
    rewrite (handlePlaneClick_armed b st He Ha Ht Hf).
    assert (Hid : InventoryStar.id base = armed)
      by now apply findById_Some in Hf.
    erewrite handlePlaneClick_armed with (armed := armed)
      (base := placedAt base (snapToGrid a 1));
      [|reflexivity | reflexivity | exact Ht
       |cbn [inventory]; apply findById_replaced with (base := base);
        [exact Hid | exact Hf]].
    cbn [inventory]. f_equal. rewrite map_map. apply map_ext.
    intros s. destruct (String.eqb (InventoryStar.id s) armed) eqn:E.
    - cbn. apply String.eqb_eq in Hid. now rewrite Hid.
    - now rewrite E. }
  split; [apply Hcomp|]. split; [apply Hcomp|].
  unfold handlePlaneClick.
  destruct (negb (editMode st)
            || negb (JS.truthyOpt (selectedInventoryId st)));
    [reflexivity|].
  destruct (selectedInventoryId st) as [armed|] eqn:Ha;
    [|now rewrite Ha].
  destruct (findById armed (inventory st)); cbn; now rewrite ?Ha.
Qed.

Lemma findById_returned (id : string) (inv : list InventoryStar.t)
    (s : InventoryStar.t) :
  findById id inv = Some s ->
  findById id
    (map (fun e => if String.eqb (InventoryStar.id e) id then returned e
                   else e) inv)
  = Some (returned s).
Proof.
  unfold findById. induction inv as [|e inv IH]; cbn.
  - discriminate.
  - destruct (String.eqb (InventoryStar.id e) id) eqn:E.
    + intros [= <-]. cbn. now rewrite E.
    + rewrite E. exact IH.
Qed.

(** X5.  [returnToInventory(id)] works in any mode: every entry called
    [id] loses its placement and leaves the placed stars, the other entries
    stay as they are, the armed id and the displayed selection are cleared
    exactly when they refer to [id], and returning twice is the same as
    returning once. *)
Theorem returnToInventory_clears_placement (id : string) (st : State) :
  let st' := handleReturnToInventory id st in
  (forall row s,
      nth_error (inventory st) row = Some s ->
      nth_error (inventory st') row
      = Some (if String.eqb (InventoryStar.id s) id then returned s else s))
  /\ (forall s, In s (placedStars st') -> InventoryStar.id s <> id)
  /\ editMode st' = editMode st
  /\ (selectedInventoryId st = Some id -> selectedInventoryId st' = None)
  /\ (selectedInventoryId st <> Some id ->
      selectedInventoryId st' = selectedInventoryId st)
  /\ (forall sel, selectedStar st = Some sel ->
        selectedStar st'
        = if String.eqb (InventoryStar.id sel) id then None else Some sel)
  /\ handleReturnToInventory id st' = st'.
Proof.
  intros st'. unfold st', handleReturnToInventory.
  cbn [inventory editMode selectedInventoryId selectedStar].
  split.
  { intros row s Hrow. rewrite nth_error_map, Hrow. reflexivity. }
  split.
  { intros s Hin. unfold placedStars in Hin. cbn [inventory] in Hin.
    apply filter_In in Hin as [Hin Hp].
    apply in_map_iff in Hin as (e & He & _).
    intros Hid. destruct (String.eqb (InventoryStar.id e) id) eqn:E.
    - subst s. cbn in Hp. discriminate.
    - subst s. apply String.eqb_neq in E. contradiction. }
  split; [reflexivity|].
  split.
  { intros ->. now rewrite String.eqb_refl. }
  split.
  { intros Hne. destruct (selectedInventoryId st) as [armed|];
      [|reflexivity].
    destruct (String.eqb armed id) eqn:E; [|reflexivity].
    apply String.eqb_eq in E. congruence. }
  split.
  { intros sel ->. reflexivity. }
  f_equal.
  - rewrite map_map. apply map_ext. intros s.
    destruct (String.eqb (InventoryStar.id s) id) eqn:E.
    + cbn. now rewrite E.
    + now rewrite E.
  - destruct (selectedInventoryId st) as [armed|]; [|reflexivity].
    destruct (String.eqb armed id) eqn:E; [reflexivity | now rewrite E].
  - destruct (selectedStar st) as [sel|]; [|reflexivity].
    destruct (String.eqb (InventoryStar.id sel) id) eqn:E;
      [reflexivity | now rewrite E].
Qed.

(** [common-0], armed, placed and displayed, is returned. *)
Lemma returnToInventory_clears_placement_witness :
  selectedInventoryId (handleReturnToInventory "common-0" placedScene) = None
  /\ selectedStar (handleReturnToInventory "common-0" placedScene) = None
  /\ placedStars (handleReturnToInventory "common-0" placedScene) = [].
Proof.
  destruct (returnToInventory_clears_placement "common-0" placedScene)
    as (_ & _ & _ & Harmed & _ & Hsel & _).
  split; [apply Harmed; reflexivity|].
  split; [|reflexivity].
  rewrite (Hsel (placedAt common0 (1, 3, 0))); reflexivity.
Defined.

(** X6.  A placed entry that is returned, armed again with its [Use]
    button and placed at [p] is a placed entry again, at [snapToGrid(p)],
    with the attributes it had, and it is the displayed-selected star. *)
Theorem return_arm_place_round_trip (id : string) (p : Point) (st : State)
    (s : InventoryStar.t) :
  editMode st = true ->
  JS.truthy id = true ->
  findById id (inventory st) = Some s ->
  InventoryStar.placed s = true ->
  let st' := clickPlane p (clickUse id (clickReturn id st)) in
  findById id (inventory st') = Some (placedAt s (snapToGrid p 1)) /\
  selectedStar st' = Some (placedAt s (snapToGrid p 1)) /\
  selectedInventoryId st' = Some id /\
  fixedPart (placedAt s (snapToGrid p 1)) = fixedPart s.
Proof.
  intros He Ht Hf Hp st'.
  assert (Hid : InventoryStar.id s = id) by now apply findById_Some in Hf.
  set (st1 := handleReturnToInventory id st).
  assert (Hr : clickReturn id st = st1).
  { unfold clickReturn. now rewrite Hf, Hp. }
  assert (Hf1 : findById id (inventory st1) = Some (returned s)).
  { unfold st1, handleReturnToInventory. cbn [inventory].
    now apply findById_returned. }
  assert (He1 : editMode st1 = true) by exact He.
  assert (Ha1 : selectedInventoryId st1 <> Some id).
  { unfold st1, handleReturnToInventory. cbn [selectedInventoryId].
    destruct (selectedInventoryId st) as [armed|]; [|discriminate].
    destruct (String.eqb armed id) eqn:E; [discriminate|].
    apply String.eqb_neq in E. congruence. }
  set (st2 := mkState (inventory st1) true (Some id) (selectedStar st1)).
  assert (Hu : clickUse id st1 = st2).
  { unfold clickUse. rewrite Hf1. cbn [returned InventoryStar.placed].
    rewrite He1. cbn [negb]. unfold handleSelectInventoryStar.
    rewrite He1. cbn [negb]. unfold st2. f_equal.
    destruct (selectedInventoryId st1) as [prev|]; [|reflexivity].
    destruct (String.eqb prev id) eqn:E; [|reflexivity].
    apply String.eqb_eq in E. congruence. }
  assert (Hpl : st' = handlePlaneClick p st2).
  { unfold st'. rewrite Hr, Hu. reflexivity. }
  rewrite Hpl.
  rewrite (@handlePlaneClick_armed p st2 id (returned s));
    [|reflexivity | reflexivity | exact Ht | exact Hf1].
  cbn [inventory selectedStar selectedInventoryId].
  split.
  { apply findById_replaced with (base := returned s); [exact Hid|].
    exact Hf1. }
  repeat split.
Qed.

(** [common-0], placed at (1, 3, 0), is returned, armed again and placed at
    (-2.5, 0.4, 7). *)
Lemma return_arm_place_round_trip_witness :
  findById "common-0"
    (inventory
       (clickPlane (- (5 # 2), 4 # 10, 7)
          (clickUse "common-0" (clickReturn "common-0" placedScene))))
  = Some (placedAt common0 (- (2), 0, 7)).
Proof.
  apply (@return_arm_place_round_trip "common-0" (- (5 # 2), 4 # 10, 7)
           placedScene (placedAt common0 (1, 3, 0)));
    reflexivity.
Defined.

End PlacementComposition.

Section SnapProjection.

Import ConstellationCanvas.

Lemma Math_round_integer (x : Q) (k : Z) :
  x == inject_Z k -> Qfloor (x / 1 + (1 # 2)) = k.
Proof.
  intros Hx.
  assert (E : x / 1 + (1 # 2) == inject_Z k + (1 # 2))
    by (rewrite Hx; field).
  rewrite E.
  pose proof (Qfloor_le (inject_Z k + (1 # 2))) as Hle.
  pose proof (Qlt_floor (inject_Z k + (1 # 2))) as Hlt.
  set (f := Qfloor (inject_Z k + (1 # 2))) in *.
  rewrite inject_Z_plus in Hlt. change (inject_Z 1) with 1 in Hlt.
  assert (H1 : inject_Z f < inject_Z (k + 1)).
  { rewrite inject_Z_plus. change (inject_Z 1) with 1. Lqa.lra. }
  assert (H2 : inject_Z k < inject_Z (f + 1)).
  { rewrite inject_Z_plus. change (inject_Z 1) with 1. Lqa.lra. }
  rewrite <- Zlt_Qlt in H1, H2. lia.
Qed.

Lemma isInteger_inject (x : Q) :
  JS.isInteger x = true -> x == inject_Z (Qnum x / Zpos (Qden x)).
Proof.
  unfold JS.isInteger. intros H. apply Z.eqb_eq in H.
  unfold Qeq. cbn [Qnum Qden inject_Z].
  rewrite Z.mul_1_r.
  apply Z.div_exact in H; [|discriminate].
  rewrite H at 1. apply Z.mul_comm.
Qed.

Lemma snap_axis_fixed (x : Q) :
  JS.isInteger x = true -> JS.Math_round (x / 1) * 1 == x.
Proof.
  intros H. apply isInteger_inject in H.
  unfold JS.Math_round. rewrite (Math_round_integer H).
  rewrite <- H. ring.
Qed.

Lemma snap_axis_idempotent (x : Q) :
  JS.Math_round (JS.Math_round (x / 1) * 1 / 1) * 1
  = JS.Math_round (x / 1) * 1.
Proof.
  unfold JS.Math_round at 1.
  rewrite (@Math_round_integer (JS.Math_round (x / 1) * 1)
             (Qfloor (x / 1 + (1 # 2)))).
  - reflexivity.
  - unfold JS.Math_round. ring.
Qed.

(** X7.  [snapToGrid] with step 1 is a projection onto the integer grid:
    snapping a snapped position gives the same position, and a position
    whose coordinates are integers is left where it is. *)
Theorem snapToGrid_is_projection (p : Point) :
  snapToGrid (snapToGrid p 1) 1 = snapToGrid p 1 /\
  (onIntegerGrid p ->
   fst (fst (snapToGrid p 1)) == fst (fst p) /\
   snd (fst (snapToGrid p 1)) == snd (fst p) /\
   snd (snapToGrid p 1) == snd p).
Proof.
  destruct p as [[a b] c]. split.
  - cbn [snapToGrid]. now rewrite !snap_axis_idempotent.
  - intros (Ha & Hb & Hc). cbn [snapToGrid fst snd].
    repeat split; now apply snap_axis_fixed.
Qed.

(** The grid point (4, -3, 0), written with other denominators. *)
Lemma snapToGrid_is_projection_witness :
  fst (fst (snapToGrid (8 # 2, - (9 # 3), 0 # 5) 1)) == 8 # 2.
Proof.
  destruct (snapToGrid_is_projection (8 # 2, - (9 # 3), 0 # 5))
    as [_ H].
  destruct H as (Hx & _); [repeat split|exact Hx].
Defined.

End SnapProjection.

(* ================================================================== *)
(** * The frame callbacks of the star meshes *)
(* ================================================================== *)

Section Frames.

Local Open Scope R_scope.

(** The bounds of every sine and cosine of the goal. *)
Ltac trig_bounds :=
  repeat match goal with
         | |- context [sin ?a] =>
             lazymatch goal with
             | _ : -1 <= sin a <= 1 |- _ => fail
             | _ => pose proof (SIN_bound a)
             end
         | |- context [cos ?a] =>
             lazymatch goal with
             | _ : -1 <= cos a <= 1 |- _ => fail
             | _ => pose proof (COS_bound a)
             end
         end.

(** X8.  The wobble of a star of the field never takes it further from its
    base position than 0.02 along x and y and 0.012 along z, and its
    flicker stays between 0.87 and 1.73, whatever the elapsed time and the
    rank of the star. *)
Theorem star_frame_bounds (base : Vec3) (index : nat) (t : R) :
  let '(baseX, baseY, baseZ) := base in
  let '(px, py, pz) := StarFrame.position base index t in
  Rabs (px - baseX) <= 2 / 100 /\
  Rabs (py - baseY) <= 2 / 100 /\
  Rabs (pz - baseZ) <= 12 / 1000 /\
  87 / 100 <= StarFrame.flicker index t <= 173 / 100.
Proof.
  destruct base as [[baseX baseY] baseZ].
  unfold StarFrame.position, StarFrame.flicker, StarFrame.wobble.
  trig_bounds.
  repeat split; try apply Rabs_le; lra.
Qed.

(** X9.  A placed constellation star wobbles by at most 0.02 along x and
    y and not at all along z, and the factor applied to its colour never
    goes below 1.4 nor above 1.4 plus 2.25 times the flicker strength of
    its rarity: the dimming half of the flicker is cut off. *)
Theorem constellation_star_frame_bounds
    (r : ConstellationCanvas.StarRarity) (p : ConstellationCanvas.Point)
    (t : R) :
  let '(x0, y0, z0) := p in
  let '(px, py, pz) := ConstellationStarFrame.position p t in
  Rabs (px - Q2R x0) <= 2 / 100 /\
  Rabs (py - Q2R y0) <= 2 / 100 /\
  pz = Q2R z0 /\
  14 / 10 <= ConstellationStarFrame.colorFactor r p t
  <= 14 / 10
     + Q2R (ConstellationCanvas.RarityVisualConfig.flickerStrength
              (ConstellationCanvas.RARITY_VISUAL_CONFIG r)) * (9 / 4).
Proof.
  destruct p as [[x0 y0] z0].
  unfold ConstellationStarFrame.position, ConstellationStarFrame.colorFactor,
    ConstellationStarFrame.flicker, ConstellationStarFrame.wobble,
    ConstellationStarFrame.flickerBase.
  set (s := Q2R (ConstellationCanvas.RarityVisualConfig.flickerStrength
                   (ConstellationCanvas.RARITY_VISUAL_CONFIG r))).
  assert (Hs : 0 <= s).
  { unfold s. destruct r; cbn; unfold Q2R; cbn; lra. }
  trig_bounds.
  split; [|split; [|split; [reflexivity|split]]].
  - apply Rabs_le. lra.
  - apply Rabs_le. lra.
  - apply Rmax_r.
  - apply Rmax_lub; [nra | lra].
Qed.

End Frames.

(* ================================================================== *)
(** * The projection of the catalog into the star field *)
(* ================================================================== *)

Section Projection.

Lemma insertByDistance_perm (a : CatalogStar.t) (l : list CatalogStar.t) :
  Permutation (StarField.insertByDistance a l) (a :: l).
Proof.
  induction l as [|b l IH]; cbn [StarField.insertByDistance].
  - apply Permutation_refl.
  - destruct (Qle_bool (CatalogStar.distParsec a) (CatalogStar.distParsec b)).
    + apply Permutation_refl.
    + apply perm_trans with (b :: a :: l).
      * now apply perm_skip.
      * apply perm_swap.
Qed.

Lemma sortByDistance_perm (raw : list CatalogStar.t) :
  Permutation (StarField.sortByDistance raw) raw.
Proof.
  unfold StarField.sortByDistance.
  induction raw as [|a raw IH]; cbn [fold_right].
  - apply perm_nil.
  - apply perm_trans with (a :: fold_right StarField.insertByDistance [] raw).
    + apply insertByDistance_perm.
    + now apply perm_skip.
Qed.

Lemma insertByDistance_ascending (a : CatalogStar.t)
    (l : list CatalogStar.t) :
  ascending l -> ascending (StarField.insertByDistance a l).
Proof.
  induction l as [|b l IH]; cbn [StarField.insertByDistance ascending].
  - intros _. split; [constructor | exact I].
  - intros [Hb Hl].
    destruct (Qle_bool (CatalogStar.distParsec a) (CatalogStar.distParsec b))
      eqn:E.
    + apply Qle_bool_iff in E. cbn [ascending].
      split; [|split; assumption].
      constructor; [exact E|].
      revert Hb. apply Forall_impl. intros c Hc.
      now apply Qle_trans with (CatalogStar.distParsec b).
    + apply Qle_bool_false_lt in E. cbn [ascending].
      split; [|now apply IH].
      apply (Permutation_Forall
               (Permutation_sym (insertByDistance_perm a l))).
      constructor; [now apply Qlt_le_weak | exact Hb].
Qed.

Lemma sortByDistance_ascending (raw : list CatalogStar.t) :
  ascending (StarField.sortByDistance raw).
Proof.
  unfold StarField.sortByDistance.
  induction raw as [|a raw IH]; cbn [fold_right].
  - exact I.
  - now apply insertByDistance_ascending.
Qed.

Lemma atDistance_insert (d : Q) (a : CatalogStar.t)
    (l : list CatalogStar.t) :
  atDistance d (StarField.insertByDistance a l) = atDistance d (a :: l).
Proof.
  unfold atDistance.
  induction l as [|b l IH]; cbn [StarField.insertByDistance].
  - reflexivity.
  - destruct (Qle_bool (CatalogStar.distParsec a) (CatalogStar.distParsec b))
      eqn:E; [reflexivity|].
    apply Qle_bool_false_lt in E.
    cbn [filter] in *. rewrite IH.
    destruct (Qeq_bool (CatalogStar.distParsec a) d) eqn:Ea;
      [|reflexivity].
    destruct (Qeq_bool (CatalogStar.distParsec b) d) eqn:Eb;
      [|reflexivity].
    apply Qeq_bool_iff in Ea, Eb. exfalso.
    rewrite Ea, Eb in E. now apply Qlt_irrefl in E.
Qed.

Lemma atDistance_sort (d : Q) (raw : list CatalogStar.t) :
  atDistance d (StarField.sortByDistance raw) = atDistance d raw.
Proof.
  unfold StarField.sortByDistance.
  induction raw as [|a raw IH]; cbn [fold_right].
  - reflexivity.
  - rewrite atDistance_insert. unfold atDistance in *. cbn [filter].
    now rewrite IH.
Qed.

Lemma ascending_split (n : nat) (l : list CatalogStar.t) :
  ascending l ->
  Forall (fun a =>
            Forall (fun b => CatalogStar.distParsec a
                             <= CatalogStar.distParsec b) (skipn n l))
         (firstn n l).
Proof.
  revert l. induction n as [|n IH]; intros l Hl.
  - constructor.
  - destruct l as [|a l]; [constructor|].
    destruct Hl as [Ha Hl]. cbn [firstn skipn]. constructor.
    + rewrite Forall_forall in *. intros b Hb. apply Ha.
      rewrite <- (firstn_skipn n l). apply in_or_app. now right.
    + now apply IH.
Qed.

(** X10.  The field keeps the nearest records.  The sort by distance
    rearranges the catalog into ascending order of distance without
    changing the relative order of the records at the same distance; the
    field holds one star for each of the first 2500 sorted records, and no
    kept record is farther than a dropped one. *)
Theorem field_keeps_the_nearest (raw : list CatalogStar.t) (g : Rng) :
  Permutation (StarField.sortByDistance raw) raw /\
  ascending (StarField.sortByDistance raw) /\
  (forall d, atDistance d (StarField.sortByDistance raw) = atDistance d raw)
  /\ List.length (fst (StarField.stars raw g))
     = Nat.min 2500 (List.length raw) /\
  Forall (fun a =>
            Forall (fun b => CatalogStar.distParsec a
                             <= CatalogStar.distParsec b)
                   (skipn 2500 (StarField.sortByDistance raw)))
         (StarField.subset raw).
Proof.
  split; [apply sortByDistance_perm|].
  split; [apply sortByDistance_ascending|].
  split; [intros d; apply atDistance_sort|].
  split.
  - unfold StarField.stars. rewrite projectFrom_length.
    unfold StarField.subset. rewrite length_firstn.
    now rewrite (Permutation_length (sortByDistance_perm raw)).
  - apply ascending_split, sortByDistance_ascending.
Qed.

Lemma showNat_inj (i j : nat) : JS.showNat i = JS.showNat j -> i = j.
Proof.
  unfold JS.showNat. intros H.
  assert (Hn : forall n, Nat.to_uint n <> Decimal.Nil).
  { intros n. rewrite <- (Unsigned.of_to n) at 1.
    rewrite Unsigned.to_of. apply unorm_nonnil. }
  apply Unsigned.to_uint_inj.
  assert (E : Some (Nat.to_uint i) = Some (Nat.to_uint j)).
  { rewrite <- (NilZero.usu (Nat.to_uint i) (Hn i)).
    rewrite <- (NilZero.usu (Nat.to_uint j) (Hn j)).
    now rewrite H. }
  now injection E.
Qed.

Lemma displayName_unnamed (s : CatalogStar.t) (index : nat) :
  unnamed s = true ->
  StarField.displayName s index = ("Unnamed #" ++ JS.showNat index)%string.
Proof.
  unfold unnamed, StarField.displayName.
  destruct (CatalogStar.name s) as [n|]; [|reflexivity].
  intros H. apply negb_true_iff in H. now rewrite H.
Qed.

Lemma displayName_named (s : CatalogStar.t) (index : nat) :
  unnamed s = false ->
  Some (StarField.displayName s index) = CatalogStar.name s.
Proof.
  unfold unnamed, StarField.displayName.
  destruct (CatalogStar.name s) as [n|]; [|discriminate].
  intros H. apply negb_false_iff in H. now rewrite H.
Qed.

(** The star at a position of the field and the record it is made of. *)
Lemma loaded_star_record (raw : list CatalogStar.t) (g : Rng) (i : nat)
    (d : StarField.StarData.t) :
  nth_error (fst (StarField.stars raw g)) i = Some d ->
  exists s g',
    nth_error (StarField.subset raw) i = Some s /\
    draws g' = draws g /\
    d = fst (StarField.projectStar s i g').
Proof.
  unfold StarField.stars. intros Hd.
  assert (Hlt : (i < List.length (StarField.subset raw))%nat).
  { rewrite <- (projectFrom_length (StarField.subset raw) 0 g).
    apply nth_error_Some. congruence. }
  destruct (nth_error (StarField.subset raw) i) as [s|] eqn:Hs.
  2:{ apply nth_error_None in Hs. lia. }
  destruct (projectFrom_nth (StarField.subset raw) 0 g i Hs)
    as (g' & Hg' & Hn).
  cbn [Nat.add] in Hn. rewrite Hn in Hd. injection Hd as <-.
  exists s, g'. repeat split; assumption.
Qed.

(** X11.  Each unnamed star gets a unique label: two stars of the field
    made of records without a usable name (null, empty or blank) bear
    different names, "Unnamed #" followed by their ranks, while a star made
    of a record with a name bears that name. *)
Theorem unnamed_stars_get_unique_labels (raw : list CatalogStar.t)
    (g : Rng) :
  let field := fst (StarField.stars raw g) in
  let nameOf d :=
    StarField.StarAttributes.name (StarField.StarData.attributes d) in
  forall i d s,
    nth_error field i = Some d ->
    nth_error (StarField.subset raw) i = Some s ->
    (unnamed s = false -> Some (nameOf d) = CatalogStar.name s) /\
    (unnamed s = true ->
     nameOf d = ("Unnamed #" ++ JS.showNat i)%string /\
     forall j d' s',
       nth_error field j = Some d' ->
       nth_error (StarField.subset raw) j = Some s' ->
       unnamed s' = true -> i <> j -> nameOf d <> nameOf d').
Proof.
  intros field nameOf.
  assert (Hname : forall i d s,
             nth_error field i = Some d ->
             nth_error (StarField.subset raw) i = Some s ->
             nameOf d = StarField.displayName s i).
  { intros i d s Hd Hs.
    destruct (loaded_star_record raw g i Hd) as (s0 & g' & Hs0 & _ & ->).
    assert (s0 = s) as -> by congruence.
    unfold nameOf.
    now destruct (projectStar_attributes s i g') as (-> & _). }
  intros i d s Hd Hs. rewrite (Hname i d s Hd Hs). split.
  - apply displayName_named.
  - intros Hu. rewrite (displayName_unnamed s i Hu).
    split; [reflexivity|].
    intros j d' s' Hd' Hs' Hu' Hij.
    rewrite (Hname j d' s' Hd' Hs'), (displayName_unnamed s' j Hu').
    intros E. apply Hij, showNat_inj.
    cbn in E. now repeat injection E as E.
Qed.

End Projection.

Section ProjectionContract.

(** The first two stars of the field made of two nameless records. *)
Lemma unnamed_stars_get_unique_labels_witness :
  map (fun d => StarField.StarAttributes.name
                  (StarField.StarData.attributes d))
      (fst (StarField.stars namelessPair quarterRng))
  = ["Unnamed #0"; "Unnamed #1"]%string /\
  nth_error
    (map (fun d => StarField.StarAttributes.name
                     (StarField.StarData.attributes d))
         (fst (StarField.stars namelessPair quarterRng))) 0
  <> nth_error
       (map (fun d => StarField.StarAttributes.name
                        (StarField.StarData.attributes d))
            (fst (StarField.stars namelessPair quarterRng))) 1.
Proof.
  split; [reflexivity|].
  rewrite !nth_error_map.
  destruct (nth_error (fst (StarField.stars namelessPair quarterRng)) 0)
    as [d0|] eqn:E0; [|vm_compute in E0; discriminate].
  destruct (nth_error (fst (StarField.stars namelessPair quarterRng)) 1)
    as [d1|] eqn:E1; [|vm_compute in E1; discriminate].
  pose proof (@unnamed_stars_get_unique_labels namelessPair quarterRng)
    as T.
  cbv zeta in T.
  destruct (T 0%nat d0 (bareStar None 1) E0 eq_refl) as [_ H].
  destruct (H eq_refl) as [_ Hdiff].
  cbn [option_map]. intros [= E].
  apply (Hdiff 1%nat d1 (bareStar (Some "  "%string) 2) E1 eq_refl eq_refl);
    [discriminate | exact E].
Defined.

Local Open Scope R_scope.

(** A remapped position of non-zero norm lies in the shell, in its own
    direction. *)
Lemma remapPosition_in_shell (x y z : R) (g : Rng) :
  Vector3.length (x, y, z) <> 0 ->
  validRng g ->
  let p := fst (StarField.remapPosition x y z g) in
  20 <= Vector3.length p <= 85 /\
  Vector3.normalize p = Vector3.normalize (x, y, z).
Proof.
  intros Hn Hv p. destruct (Hv (cursor g)) as [Hlo Hhi].
  pose proof (targetR_bounds g Hlo Hhi) as HT.
  set (T := Q2R (fst (randInRange StarField.VIS_MIN StarField.VIS_MAX g)))
    in *.
  set (n := Vector3.length (x, y, z)) in *.
  assert (Hnpos : 0 < n).
  { assert (0 <= n) by apply sqrt_pos. lra. }
  assert (Hp : p = (x * (T / n), y * (T / n), z * (T / n))).
  { unfold p. now rewrite remapPosition_nonzero by exact Hn. }
  assert (Hk : 0 < T / n) by (apply Rdiv_lt_0_compat; lra).
  assert (Hlen : Vector3.length p = T).
  { rewrite Hp, length_scaled by lra. fold n. field. lra. }
  split; [rewrite Hlen; lra|].
  unfold Vector3.normalize at 1. rewrite Hlen.
  destruct (Req_dec_T T 0) as [E|_]; [lra|].
  unfold Vector3.normalize. fold n.
  destruct (Req_dec_T n 0) as [E|_]; [lra|].
  rewrite Hp. cbn [Vector3.multiplyScalar].
  f_equal; [f_equal|]; field; lra.
Qed.

Lemma projectStar_visuals (s : CatalogStar.t) (index : nat) (g : Rng) :
  let d := fst (StarField.projectStar s index g) in
  StarField.StarData.color d
  = StarField.SpectralConfig.color
      (StarField.SPECTRAL_CONFIG (inferSpectralClass s)) /\
  StarField.StarData.meshScale d
  = (StarField.StarAttributes.radiusSun (StarField.StarData.attributes d)
     * StarField.SCALE)%Q.
Proof.
  cbv zeta.
  unfold StarField.projectStar, bind, randInRange, Math_random.
  cbn [cursor draws].
  destruct (StarField.remapPosition _ _ _ _) as [p g']. split; reflexivity.
Qed.

Lemma isInteger_Math_round (x : Q) : JS.isInteger (JS.Math_round x) = true.
Proof.
  unfold JS.isInteger, JS.Math_round. cbn [Qnum Qden inject_Z].
  now rewrite Z.mod_1_r.
Qed.

(** X12.  Every star of the field is made of the record of its rank among
    the kept records: it is unclaimed, of the inferred class and of the
    colour of that class, its temperature is an integer within the
    temperature range of the class, its radius lies within the radius
    range, its mesh scale is 0.09 times its radius, and its position lies
    in the visible shell in the direction of the catalog position, or at
    the origin when the catalog position is the origin. *)
Theorem field_star_contract (raw : list CatalogStar.t) (g : Rng) :
  validRng g ->
  forall i d,
    nth_error (fst (StarField.stars raw g)) i = Some d ->
    exists s,
      nth_error (StarField.subset raw) i = Some s /\
      let attr := StarField.StarData.attributes d in
      let cls := inferSpectralClass s in
      let cfg := StarField.SPECTRAL_CONFIG cls in
      StarField.StarAttributes.status attr = "unclaimed"%string /\
      StarField.StarAttributes.spectralClass attr = cls /\
      StarField.StarData.color d = StarField.SpectralConfig.color cfg /\
      JS.isInteger (StarField.StarAttributes.temperature attr) = true /\
      (fst (StarField.SpectralConfig.tempRange cfg)
       <= StarField.StarAttributes.temperature attr
       <= snd (StarField.SpectralConfig.tempRange cfg))%Q /\
      (fst (StarField.SpectralConfig.radiusRangeSun cfg)
       <= StarField.StarAttributes.radiusSun attr
       <= snd (StarField.SpectralConfig.radiusRangeSun cfg))%Q /\
      StarField.StarData.meshScale d
      = (StarField.StarAttributes.radiusSun attr * (9 # 100))%Q /\
      (Vector3.length (catalogPosition s) <> 0 ->
       20 <= Vector3.length (StarField.StarData.position d) <= 85 /\
       Vector3.normalize (StarField.StarData.position d)
       = Vector3.normalize (catalogPosition s)) /\
      (Vector3.length (catalogPosition s) = 0 ->
       StarField.StarData.position d = (0, 0, 0)).
Proof.
  intros Hv i d Hd.
  destruct (loaded_star_record raw g i Hd) as (s & g' & Hs & Hg' & ->).
  exists s. split; [exact Hs|]. cbv zeta.
  assert (Hv' : validRng g') by (apply validRng_draws with g; assumption).
  destruct (projectStar_attributes s i g') as (_ & Hst & Hc & Ht & Hr).
  destruct (projectStar_visuals s i g') as [Hcol Hms].
  destruct (config_ranges_agree (inferSpectralClass s)) as [Et Er].
  rewrite Hst, Hc, Hcol, Hms, Ht, Hr, Et, Er, projectStar_position.
  split; [reflexivity|]. split; [reflexivity|]. split; [reflexivity|].
  split; [apply isInteger_Math_round|].
  split; [exact (class_temperature_in_range (inferSpectralClass s) Hv')|].
  split.
  { apply class_radius_in_range.
    apply validRng_draws with g'; [reflexivity | exact Hv']. }
  split; [reflexivity|].
  split.
  - intros Hn. apply remapPosition_in_shell; [exact Hn|].
    apply validRng_draws with g'; [reflexivity | exact Hv'].
  - intros Hz. now apply remapPosition_degenerate.
Qed.

(** The star made of Vega in the catalog of two records. *)
Lemma field_star_contract_witness :
  exists d,
    nth_error (fst (StarField.stars twoStars cyclingRng)) 1 = Some d /\
    StarField.StarAttributes.spectralClass (StarField.StarData.attributes d)
    = A /\
    (7500 <= StarField.StarAttributes.temperature
               (StarField.StarData.attributes d) <= 10000)%Q.
Proof.
  destruct (nth_error (fst (StarField.stars twoStars cyclingRng)) 1)
    as [d|] eqn:E; [|vm_compute in E; discriminate].
  exists d. split; [reflexivity|].
  pose proof (@field_star_contract twoStars cyclingRng cyclingRng_valid)
    as T.
  destruct (T 1%nat d E) as (s & Hs & _ & Hc & _ & _ & Ht & _).
  assert (Hvega : nth_error (StarField.subset twoStars) 1 = Some vega)
    by reflexivity.
  rewrite Hvega in Hs. injection Hs as <-.
  split; [exact Hc | exact Ht].
Defined.

End ProjectionContract.

(* ================================================================== *)
(** * Selection and camera of the galaxy canvas *)
(* ================================================================== *)

Section GalaxyCamera.

Import GalaxyCanvas.

Local Open Scope R_scope.

Lemma step_controlsMounted (catalog : list CatalogStar.t) (s : Session)
    (e : Event) :
  controlsMounted (ui s) -> controlsMounted (ui (step catalog s e)).
Proof.
  unfold controlsMounted. intros H.
  destruct e as [index| |v|]; cbn [step].
  - destruct (nth_error (loaded s) index); [|exact H].
    cbn. destruct (controls (ui s)); [discriminate | exact H].
  - cbn. destruct (controls (ui s)); [discriminate | exact H].
  - exact H.
  - unfold performSearch.
    destruct (negb (JS.truthy (JS.trim (searchValue (ui s)))));
      [exact H|].
    destruct (find (matchesQuery (searchValue (ui s))) catalog);
      [|exact H].
    destruct (searchInfo _ _). cbn.
    destruct (controls (ui s)); [discriminate | exact H].
Qed.

Lemma run_controlsMounted (catalog : list CatalogStar.t)
    (events : list Event) (s : Session) :
  controlsMounted (ui s) -> controlsMounted (ui (run catalog s events)).
Proof.
  unfold run. revert s.
  induction events as [|e events IH]; intros s H; cbn [fold_left].
  - exact H.
  - apply IH. now apply step_controlsMounted.
Qed.

Lemma mount_controlsMounted (catalog : list CatalogStar.t) (g : Rng) :
  controlsMounted (ui (mount catalog g)).
Proof.
  unfold mount. destruct (StarField.stars catalog g). discriminate.
Qed.

Lemma distance_offset (p : Vec3) (d : R) :
  0 <= d -> distance (Vector3.add p (0, 0, d)) p = d.
Proof.
  intros Hd. destruct p as [[a b] c].
  unfold distance, vsub, Vector3.add, Vector3.length.
  replace ((a + 0 - a) * (a + 0 - a) + (b + 0 - b) * (b + 0 - b)
           + (c + d - c) * (c + d - c)) with (d * d) by ring.
  now apply sqrt_square.
Qed.

(** X13.  A click on a star of the field, after any events, selects it and
    puts the orbit target exactly at the star, with the camera 30 units
    from it along z. *)
Theorem star_click_focuses_camera (catalog : list CatalogStar.t) (g : Rng)
    (events : list Event) (index : nat) (data : StarField.StarData.t) :
  nth_error (loaded (mount catalog g)) index = Some data ->
  let s := run catalog (mount catalog g) (events ++ [StarClick index]) in
  let p := StarField.StarData.position data in
  selectedName (ui s)
  = Some (StarField.StarAttributes.name (StarField.StarData.attributes data))
  /\ controls (ui s) = Some (Controls.mk p (Vector3.add p (0, 0, 30)))
  /\ distance (Vector3.add p (0, 0, 30)) p = 30
  /\ world s = world (run catalog (mount catalog g) events).
Proof.
  intros Hdata s p.
  assert (Hs : s = step catalog (run catalog (mount catalog g) events)
                     (StarClick index)).
  { unfold s. rewrite run_app. reflexivity. }
  assert (Hc : controlsMounted
                 (ui (run catalog (mount catalog g) events)))
    by apply run_controlsMounted, mount_controlsMounted.
  set (s1 := run catalog (mount catalog g) events) in *.
  assert (Hl : nth_error (loaded s1) index = Some data)
    by (unfold s1; now rewrite run_loaded).
  rewrite Hs. cbn [step]. rewrite Hl.
  cbn [ui world]. unfold selectedName, handleStarSelect.
  cbn [selectedStar controls StarField.handleClick
       StarSelectionInfo.name StarSelectionInfo.position].
  unfold controlsMounted in Hc.
  destruct (controls (ui s1)) as [c|]; [|congruence].
  repeat split. apply distance_offset. lra.
Qed.

(** A click on Vega after a search for the Sun. *)
Lemma star_click_focuses_camera_witness :
  selectedName
    (ui (run twoStars (mount twoStars cyclingRng)
           ([Input "sol"; Search] ++ [StarClick 1])))
  = Some "Vega"%string.
Proof.
  destruct (nth_error (loaded (mount twoStars cyclingRng)) 1)
    as [data|] eqn:E; [|vm_compute in E; discriminate].
  pose proof (@star_click_focuses_camera twoStars cyclingRng
                [Input "sol"; Search] 1%nat data E) as T.
  cbv zeta in T. destruct T as (Hn & _). rewrite Hn.
  pose proof (@loaded_star_record twoStars cyclingRng 1%nat data) as R.
  rewrite <- mount_loaded in R.
  destruct (R E) as (s & g' & Hs & _ & ->).
  assert (Hvega : nth_error (StarField.subset twoStars) 1 = Some vega)
    by reflexivity.
  rewrite Hvega in Hs. injection Hs as <-. reflexivity.
Defined.

(** X14.  A click on empty space, after any events, empties the selection,
    brings the orbit target back to the origin and the camera to
    (0, 0, 120), and makes every star head for full colour again; it draws
    no random number and writes nothing to the console. *)
Theorem void_click_resets (catalog : list CatalogStar.t) (g : Rng)
    (events : list Event) :
  let s := run catalog (mount catalog g) (events ++ [VoidClick]) in
  selectedStar (ui s) = None /\
  controls (ui s) = Some (Controls.mk (0, 0, 0) (0, 0, 120)) /\
  (forall data, StarField.targetMix data (selectedName (ui s)) = 1%Q) /\
  loaded s = loaded (mount catalog g) /\
  world s = world (run catalog (mount catalog g) events).
Proof.
  intros s.
  assert (Hs : s = step catalog (run catalog (mount catalog g) events)
                     VoidClick).
  { unfold s. rewrite run_app. reflexivity. }
  assert (Hc : controlsMounted
                 (ui (run catalog (mount catalog g) events)))
    by apply run_controlsMounted, mount_controlsMounted.
  rewrite Hs. cbn [step ui world loaded]. unfold handleVoidClick.
  cbn [selectedStar controls]. unfold controlsMounted in Hc.
  destruct (controls (ui (run catalog (mount catalog g) events)));
    [|congruence].
  repeat split. apply run_loaded.
Qed.

Lemma length_unit_z : Vector3.length (0, 0, 1) = 1.
Proof.
  unfold Vector3.length.
  replace (0 * 0 + 0 * 0 + 1 * 1) with (1 * 1) by ring.
  apply sqrt_square. lra.
Qed.

Lemma multiplyScalar_length (v : Vec3) (k : R) :
  0 <= k ->
  Vector3.length (Vector3.multiplyScalar v k) = k * Vector3.length v.
Proof.
  intros Hk. destruct v as [[a b] c]. now apply length_scaled.
Qed.

Lemma normalize_length (v : Vec3) :
  Vector3.length v <> 0 -> Vector3.length (Vector3.normalize v) = 1.
Proof.
  intros Hn. unfold Vector3.normalize.
  destruct (Req_dec_T (Vector3.length v) 0) as [E|_]; [contradiction|].
  assert (Hpos : 0 < Vector3.length v).
  { assert (0 <= Vector3.length v)
      by (destruct v as [[a b] c]; apply sqrt_pos).
    lra. }
  rewrite multiplyScalar_length.
  - field. lra.
  - apply Rlt_le. apply Rdiv_lt_0_compat; lra.
Qed.

(** X15.  The focus position that a successful search gives to a record
    lies at distance 50 from the origin whatever the catalog position: in
    the direction of the catalog position when it is not the origin, and
    at (0, 0, 50) when it is.  The search puts the orbit target there and
    the camera 30 units further along z. *)
Theorem search_focus_on_sphere_50 (target : CatalogStar.t) :
  Vector3.length (focusPosition target) = 50 /\
  (Vector3.length (catalogPosition target) <> 0 ->
   focusPosition target
   = Vector3.multiplyScalar (catalogPosition target)
       (1 / Vector3.length (catalogPosition target) * 50)) /\
  (Vector3.length (catalogPosition target) = 0 ->
   focusPosition target = (0, 0, 50)) /\
  (forall stars st w,
      JS.truthy (JS.trim (searchValue st)) = true ->
      find (matchesQuery (searchValue st)) stars = Some target ->
      controls (fst (performSearch stars st w))
      = match controls st with
        | Some _ =>
            Some (Controls.mk (focusPosition target)
                    (Vector3.add (focusPosition target) (0, 0, 30)))
        | None => None
        end).
Proof.
  unfold focusPosition. fold (catalogPosition target).
  set (v := catalogPosition target).
  split; [|split; [|split]].
  - destruct (Req_dec_T (Vector3.length v) 0) as [E|E].
    + rewrite multiplyScalar_length by lra.
      rewrite normalize_length; [lra|]. rewrite length_unit_z. lra.
    + rewrite multiplyScalar_length by lra.
      rewrite normalize_length by exact E. lra.
  - intros Hn.
    destruct (Req_dec_T (Vector3.length v) 0) as [E|_]; [contradiction|].
    unfold Vector3.normalize.
    destruct (Req_dec_T (Vector3.length v) 0) as [E|_]; [contradiction|].
    destruct v as [[a b] c]. cbn [Vector3.multiplyScalar].
    f_equal; [f_equal|]; ring.
  - intros Hz.
    destruct (Req_dec_T (Vector3.length v) 0) as [_|E]; [|contradiction].
    unfold Vector3.normalize. rewrite length_unit_z.
    destruct (Req_dec_T 1 0) as [E|_]; [lra|].
    cbn [Vector3.multiplyScalar]. f_equal; [f_equal|]; field.
  - intros stars st w Hq Hf. unfold performSearch.
    rewrite Hq, Hf. cbn [negb].
    destruct (searchInfo target (rng w)) as [info g'] eqn:Ei.
    cbn [fst controls].
    assert (Hp : StarSelectionInfo.position info = focusPosition target).
    { change info with (fst (info, g')). rewrite <- Ei. reflexivity. }
    rewrite Hp. unfold focusPosition. reflexivity.
Qed.

(** The Sun, at the origin of the catalog, and Vega. *)
Lemma search_focus_on_sphere_50_witness :
  focusPosition sol = (0, 0, 50) /\
  controls
    (fst (performSearch twoStars
            (mkState None "vega" (Some (Controls.mk (0, 0, 0) (0, 0, 120))))
            (mkWorld cyclingRng [])))
  = Some (Controls.mk (focusPosition vega)
            (Vector3.add (focusPosition vega) (0, 0, 30))).
Proof.
  split.
  - destruct (search_focus_on_sphere_50 sol) as (_ & _ & Hz & _).
    apply Hz. unfold catalogPosition, Vector3.length. cbn.
    replace (Q2R 0) with 0 by (unfold Q2R; cbn; lra).
    replace (0 * 0 + 0 * 0 + 0 * 0) with 0 by ring. apply sqrt_0.
  - destruct (search_focus_on_sphere_50 vega) as (_ & _ & _ & Hs).
    rewrite (Hs twoStars
               (mkState None "vega"
                  (Some (Controls.mk (0, 0, 0) (0, 0, 120))))
               (mkWorld cyclingRng [])); reflexivity.
Defined.

(** X16.  The search ignores the case of the query: two queries that
    differ only in the case of their letters select the same record with
    the same draws, or both find nothing. *)
Theorem search_ignores_case (stars : list CatalogStar.t) (q1 q2 : string)
    (sel : option StarSelectionInfo.t) (c : option Controls.t) (w : World) :
  JS.toLowerCase q1 = JS.toLowerCase q2 ->
  let r1 := performSearch stars (mkState sel q1 c) w in
  let r2 := performSearch stars (mkState sel q2 c) w in
  selectedStar (fst r1) = selectedStar (fst r2) /\
  controls (fst r1) = controls (fst r2) /\
  rng (snd r1) = rng (snd r2) /\
  List.length (console (snd r1)) = List.length (console (snd r2)).
Proof.
  intros Hq r1 r2. unfold r1, r2, performSearch. cbn [searchValue].
  rewrite (truthy_trim_lower q1 q2 Hq).
  assert (Hm : forall s, matchesQuery q1 s = matchesQuery q2 s).
  { intros s. unfold matchesQuery. now rewrite Hq. }
  assert (Hfind : find (matchesQuery q1) stars
                  = find (matchesQuery q2) stars).
  { induction stars as [|s l IH]; cbn [find]; [reflexivity|].
    now rewrite Hm, IH. }
  rewrite Hfind.
  destruct (negb (JS.truthy (JS.trim q2))); [repeat split|].
  destruct (find (matchesQuery q2) stars) as [target|].
  - destruct (searchInfo target (rng w)). repeat split.
  - cbn. repeat split. unfold console_warn. cbn.
    now rewrite !length_app.
Qed.

(** "VEGA" and "vega" on the catalog of two records. *)
Lemma search_ignores_case_witness :
  option_map displayed
    (selectedStar
       (fst (performSearch twoStars (mkState None "VEGA" None)
               (mkWorld cyclingRng []))))
  = Some ("Vega", "unclaimed", "A-type white star", 7500%Q,
          "1.44 x Sun radius")%string.
Proof.
  destruct (@search_ignores_case twoStars "VEGA" "vega" None None
              (mkWorld cyclingRng []) eq_refl) as (-> & _).
  vm_compute. reflexivity.
Defined.

End GalaxyCamera.

(* ================================================================== *)
(** * The canvas with the eased camera *)
(* ================================================================== *)

Section EasedCanvas.

Import EasedGalaxyCanvas.

Local Open Scope R_scope.

Lemma step_focusAgrees (catalog : list CatalogStar.t) (s : Session)
    (e : Event) :
  focusAgrees (ui s) -> focusAgrees (ui (step catalog s e)).
Proof.
  unfold focusAgrees. intros H.
  destruct e as [index| |v|]; cbn [step].
  - destruct (nth_error (loaded s) index); [reflexivity | exact H].
  - reflexivity.
  - exact H.
  - unfold performSearch.
    destruct (negb (JS.truthy (JS.trim (searchValue (ui s)))));
      [exact H|].
    destruct (find (GalaxyCanvas.matchesQuery (searchValue (ui s))) catalog);
      [reflexivity | exact H].
Qed.

Lemma run_focusAgrees (catalog : list CatalogStar.t) (events : list Event)
    (s : Session) :
  focusAgrees (ui s) -> focusAgrees (ui (run catalog s events)).
Proof.
  unfold run. revert s.
  induction events as [|e events IH]; intros s H; cbn [fold_left].
  - exact H.
  - apply IH. now apply step_focusAgrees.
Qed.

(** X17.  In the canvas with the eased camera the focus always agrees with
    the selection: it is engaged exactly when a star is selected, its
    target is then the position of the selected star and the orbit is
    locked between 1.5 and 10 units; with nothing selected the target is
    the origin, the rotation is free and the limits are 10 and 300. *)
Theorem focus_agrees_with_selection (catalog : list CatalogStar.t)
    (g : Rng) (events : list Event) :
  let st := ui (run catalog (mount catalog g) events) in
  (selectedStar st = None ->
   focus st = FocusState.mk (0, 0, 0) false /\
   enableRotate (focus st) = true /\
   minDistance (focus st) = 10%Q /\ maxDistance (focus st) = 300%Q) /\
  (forall info,
      selectedStar st = Some info ->
      focus st = FocusState.mk (StarSelectionInfo.position info) true /\
      enableRotate (focus st) = false /\
      minDistance (focus st) = (15 # 10)%Q /\
      maxDistance (focus st) = 10%Q).
Proof.
  intros st.
  assert (H : focusAgrees st).
  { unfold st. apply run_focusAgrees. reflexivity. }
  unfold focusAgrees in H. split.
  - intros Hn. rewrite Hn in H. rewrite H. repeat split.
  - intros info Hi. rewrite Hi in H. rewrite H. repeat split.
Qed.

Lemma plain_stars_length (raw : list CatalogStar.t) (g : Rng) :
  List.length (fst (PlainStarField.stars raw g)) = List.length raw.
Proof.
  revert g. induction raw as [|s raw IH]; intros g.
  - reflexivity.
  - cbn [PlainStarField.stars]. unfold bind.
    destruct (PlainStarField.projectStar s g) as [d g1].
    specialize (IH g1).
    destruct (PlainStarField.stars raw g1) as [ds g2].
    cbn in *. now rewrite IH.
Qed.

Lemma plain_projectStar_draws (s : CatalogStar.t) (g : Rng) :
  draws (snd (PlainStarField.projectStar s g)) = draws g.
Proof. reflexivity. Qed.

Lemma plain_stars_nth (raw : list CatalogStar.t) (g : Rng) (i : nat)
    (d : PlainStarField.StarData.t) :
  nth_error (fst (PlainStarField.stars raw g)) i = Some d ->
  exists s g',
    nth_error raw i = Some s /\ draws g' = draws g /\
    d = fst (PlainStarField.projectStar s g').
Proof.
  revert g i. induction raw as [|s0 raw IH]; intros g i.
  - destruct i; discriminate.
  - cbn [PlainStarField.stars]. unfold bind.
    destruct (PlainStarField.projectStar s0 g) as [d0 g1] eqn:E1.
    specialize (IH g1).
    destruct (PlainStarField.stars raw g1) as [ds g2].
    cbn [ret fst] in *.
    destruct i as [|i]; cbn [nth_error].
    + intros [= <-]. exists s0, g. rewrite E1. repeat split.
    + intros Hi. destruct (IH i Hi) as (s & g' & Hs & Hg & ->).
      exists s, g'. repeat split; [exact Hs|].
      rewrite Hg. change g1 with (snd (d0, g1)). rewrite <- E1.
      apply plain_projectStar_draws.
Qed.

End EasedCanvas.

Section EasedSearch.

Import EasedGalaxyCanvas.

Local Open Scope R_scope.

(** The canvas after a search for Vega: the rotation is locked. *)
Lemma focus_agrees_with_selection_witness :
  enableRotate
    (focus (ui (run twoStars (mount twoStars cyclingRng)
                  [Input "vega"; Search]))) = false.
Proof.
  pose proof (@focus_agrees_with_selection twoStars cyclingRng
                [Input "vega"; Search]) as T.
  cbv zeta in T. destruct T as [_ T].
  destruct (selectedStar
              (ui (run twoStars (mount twoStars cyclingRng)
                     [Input "vega"; Search]))) as [info|] eqn:E;
    [|vm_compute in E; discriminate].
  now destruct (T info eq_refl) as (_ & Hr & _).
Defined.

(** X18.  With the eased camera a successful search focuses the very
    position that a click on the star focuses, the catalog position, under
    the same name and status; but it shows the type "Unknown", the
    temperature 0 and an empty size, since the catalog rows carry none of
    these. *)
Theorem eased_search_focuses_click_position
    (catalog : list CatalogStar.t) (g : Rng) (st : State)
    (console : list (list string)) (i : nat) (target : CatalogStar.t) :
  JS.truthy (JS.trim (searchValue st)) = true ->
  find (GalaxyCanvas.matchesQuery (searchValue st)) catalog = Some target ->
  nth_error catalog i = Some target ->
  exists d found,
    nth_error (loaded (mount catalog g)) i = Some d /\
    selectedStar (fst (performSearch catalog st console)) = Some found /\
    let clicked := PlainStarField.handleClick d in
    StarSelectionInfo.position found = catalogPosition target /\
    StarSelectionInfo.position clicked = catalogPosition target /\
    StarSelectionInfo.name found = StarSelectionInfo.name clicked /\
    StarSelectionInfo.status found = StarSelectionInfo.status clicked /\
    focus (fst (performSearch catalog st console))
    = focus (handleStarSelect clicked st) /\
    StarSelectionInfo.type found = "Unknown"%string /\
    StarSelectionInfo.temperature found = 0%Q /\
    StarSelectionInfo.size found = ""%string /\
    snd (performSearch catalog st console) = console.
Proof.
  intros Hq Hf Hi.
  assert (Hlen : (i < List.length (fst (PlainStarField.stars catalog g)))%nat).
  { rewrite plain_stars_length. apply nth_error_Some. congruence. }
  destruct (nth_error (fst (PlainStarField.stars catalog g)) i)
    as [d|] eqn:Hd.
  2:{ apply nth_error_None in Hd. lia. }
  destruct (plain_stars_nth catalog g i Hd) as (s & g' & Hs & _ & ->).
  assert (s = target) as -> by congruence.
  eexists. eexists. split; [exact Hd|].
  unfold performSearch. rewrite Hq, Hf. cbn [negb fst snd selectedStar].
  split; [reflexivity|]. cbv zeta. repeat split.
Qed.

(** Vega, first record of the catalog of two. *)
Lemma eased_search_focuses_click_position_witness :
  focus (fst (performSearch twoStars (mkState None "VEGA" (focus initialState))
                []))
  = FocusState.mk (catalogPosition vega) true.
Proof.
  destruct (@eased_search_focuses_click_position twoStars cyclingRng
              (mkState None "VEGA" (focus initialState)) [] 0%nat vega
              eq_refl eq_refl eq_refl)
    as (d & found & _ & _ & _ & Hc & _ & _ & Hfocus & _).
  rewrite Hfocus. unfold handleStarSelect. cbn [focus]. now rewrite Hc.
Defined.

Lemma lerp_distance (p d : Vec3) (a : R) :
  0 <= a <= 1 -> distance (lerp p d a) d = (1 - a) * distance p d.
Proof.
  intros Ha. destruct p as [[p1 p2] p3], d as [[d1 d2] d3].
  unfold distance, lerp, vsub.
  replace (p1 + (d1 - p1) * a - d1) with ((p1 - d1) * (1 - a)) by ring.
  replace (p2 + (d2 - p2) * a - d2) with ((p2 - d2) * (1 - a)) by ring.
  replace (p3 + (d3 - p3) * a - d3) with ((p3 - d3) * (1 - a)) by ring.
  apply length_scaled. lra.
Qed.

Lemma distance_nonneg (p d : Vec3) : 0 <= distance p d.
Proof.
  destruct p as [[p1 p2] p3], d as [[d1 d2] d3].
  unfold distance, vsub, Vector3.length. apply sqrt_pos.
Qed.

Lemma controllerFrames_enabled (n : nat) (focus : FocusState.t) (rig : Rig) :
  FocusState.enabled focus = true ->
  let desired := Vector3.add (FocusState.target focus) (0, 0, 3) in
  distance (cameraPosition (controllerFrames n focus rig)) desired
  = (93 / 100) ^ n * distance (cameraPosition rig) desired /\
  distance (targetRef (controllerFrames n focus rig))
           (FocusState.target focus)
  = (9 / 10) ^ n * distance (targetRef rig) (FocusState.target focus).
Proof.
  intros He desired. revert rig.
  induction n as [|n IH]; intros rig; cbn [controllerFrames pow].
  - split; ring.
  - destruct (IH (controllerFrame focus rig)) as [-> ->].
    unfold controllerFrame. rewrite He. cbn [cameraPosition targetRef].
    fold desired. rewrite !lerp_distance by lra. split; field.
Qed.

Lemma controllerFrames_idle (n : nat) (focus : FocusState.t) (rig : Rig) :
  FocusState.enabled focus = false ->
  distance (cameraPosition (controllerFrames n focus rig)) (0, 0, 45)
  = (95 / 100) ^ n * distance (cameraPosition rig) (0, 0, 45) /\
  targetRef (controllerFrames n focus rig) = targetRef rig.
Proof.
  intros He. revert rig.
  induction n as [|n IH]; intros rig; cbn [controllerFrames pow].
  - split; [ring | reflexivity].
  - destruct (IH (controllerFrame focus rig)) as [-> ->].
    unfold controllerFrame. rewrite He. cbn [cameraPosition targetRef].
    rewrite !lerp_distance by lra. split; [field | reflexivity].
Qed.

(** A distance multiplied by the powers of a ratio below 1 becomes as small
    as wanted. *)
Lemma geometric_decay (r d eps : R) :
  0 <= r < 1 -> 0 <= d -> 0 < eps ->
  exists N, forall n, (N <= n)%nat -> r ^ n * d < eps.
Proof.
  intros Hr Hd Heps.
  assert (Habs : Rabs r < 1) by (rewrite Rabs_pos_eq; lra).
  assert (Hy : 0 < eps / (d + 1)) by (apply Rdiv_lt_0_compat; lra).
  destruct (pow_lt_1_zero r Habs (eps / (d + 1)) Hy) as [N HN].
  exists N. intros n Hn. specialize (HN n Hn).
  assert (Hp : 0 <= r ^ n) by (apply pow_le; lra).
  rewrite Rabs_pos_eq in HN by exact Hp.
  assert (H1 : r ^ n * (d + 1) < eps).
  { apply (Rmult_lt_compat_r (d + 1)) in HN; [|lra].
    replace (eps / (d + 1) * (d + 1)) with eps in HN by (field; lra).
    exact HN. }
  nra.
Qed.

(** X19.  The frame callback of the camera controller is an exponential
    approach.  While a focus is engaged each frame leaves 93% of the
    distance from the camera to the point 3 units in front of the target,
    and 90% of the distance from the look-at point to the target; with no
    focus each frame leaves 95% of the distance from the camera to
    (0, 0, 45) and keeps the look-at point.  Under a fixed focus the camera
    comes as close to its desired position as wanted. *)
Theorem camera_controller_approaches (focus : FocusState.t) (rig : Rig) :
  let desired :=
    if FocusState.enabled focus
    then Vector3.add (FocusState.target focus) (0, 0, 3)
    else (0, 0, 45) in
  let ratio := if FocusState.enabled focus then 93 / 100 else 95 / 100 in
  (forall n,
      distance (cameraPosition (controllerFrames n focus rig)) desired
      = ratio ^ n * distance (cameraPosition rig) desired) /\
  (FocusState.enabled focus = false ->
   forall n, targetRef (controllerFrames n focus rig) = targetRef rig) /\
  (FocusState.enabled focus = true ->
   forall n,
     distance (targetRef (controllerFrames n focus rig))
              (FocusState.target focus)
     = (9 / 10) ^ n * distance (targetRef rig) (FocusState.target focus)) /\
  (forall eps,
      0 < eps ->
      exists N, forall n, (N <= n)%nat ->
        distance (cameraPosition (controllerFrames n focus rig)) desired
        < eps).
Proof.
  intros desired ratio.
  assert (Hcam : forall n,
             distance (cameraPosition (controllerFrames n focus rig)) desired
             = ratio ^ n * distance (cameraPosition rig) desired).
  { intros n. unfold desired, ratio.
    destruct (FocusState.enabled focus) eqn:He.
    - now destruct (controllerFrames_enabled n focus rig He).
    - now destruct (controllerFrames_idle n focus rig He). }
  split; [exact Hcam|]. split.
  { intros He n. now destruct (controllerFrames_idle n focus rig He). }
  split.
  { intros He n. now destruct (controllerFrames_enabled n focus rig He). }
  intros eps Heps.
  destruct (@geometric_decay ratio
              (distance (cameraPosition rig) desired) eps) as [N HN].
  - unfold ratio. destruct (FocusState.enabled focus); lra.
  - apply distance_nonneg.
  - exact Heps.
  - exists N. intros n Hn. rewrite Hcam. now apply HN.
Qed.

(** The camera at (0, 0, 45) with a focus on (3, 4, 0): after one frame the
    look-at point is 4.5 units from the target. *)
Lemma camera_controller_approaches_witness :
  distance
    (targetRef
       (controllerFrames 1 (FocusState.mk (3, 4, 0) true)
          (mkRig (0, 0, 45) (0, 0, 0))))
    (3, 4, 0)
  = 9 / 10 * 5.
Proof.
  destruct (camera_controller_approaches (FocusState.mk (3, 4, 0) true)
              (mkRig (0, 0, 45) (0, 0, 0))) as (_ & _ & H & _).
  specialize (H eq_refl 1%nat). cbn [FocusState.target] in H.
  rewrite H. cbn [pow targetRef].
  unfold distance, vsub, Vector3.length.
  replace ((0 - 3) * (0 - 3) + (0 - 4) * (0 - 4) + (0 - 0) * (0 - 0))
    with (5 * 5) by ring.
  rewrite sqrt_square by lra. ring.
Defined.

(** X20.  The star field that keeps the catalog positions holds one star
    per record, in catalog order, at the catalog position of the record,
    named after it or "Unnamed star"; its glow intensity lies in
    [0.3, 0.9], its temperature is an integer within the range of its
    class and its mesh scale is 0.05 times a radius within the range. *)
Theorem plain_field_contract (raw : list CatalogStar.t) (g : Rng) :
  validRng g ->
  List.length (fst (PlainStarField.stars raw g)) = List.length raw /\
  forall i d,
    nth_error (fst (PlainStarField.stars raw g)) i = Some d ->
    exists s,
      nth_error raw i = Some s /\
      let attr := PlainStarField.StarData.attributes d in
      let cfg := GalaxyCanvas.SPECTRAL_CONFIG (inferSpectralClass s) in
      PlainStarField.StarData.position d = catalogPosition s /\
      StarField.StarAttributes.name attr
      = JS.orElse (CatalogStar.name s) "Unnamed star" /\
      StarField.StarAttributes.spectralClass attr = inferSpectralClass s /\
      (3 # 10 <= PlainStarField.StarData.glowIntensity d <= 9 # 10)%Q /\
      JS.isInteger (StarField.StarAttributes.temperature attr) = true /\
      (fst (GalaxyCanvas.SpectralConfig.tempRange cfg)
       <= StarField.StarAttributes.temperature attr
       <= snd (GalaxyCanvas.SpectralConfig.tempRange cfg))%Q /\
      (fst (GalaxyCanvas.SpectralConfig.radiusRangeSun cfg)
       <= StarField.StarAttributes.radiusSun attr
       <= snd (GalaxyCanvas.SpectralConfig.radiusRangeSun cfg))%Q /\
      PlainStarField.StarData.meshScale d
      = (StarField.StarAttributes.radiusSun attr * (5 # 100))%Q.
Proof.
  intros Hv. split; [apply plain_stars_length|].
  intros i d Hd.
  destruct (plain_stars_nth raw g i Hd) as (s & g' & Hs & Hg & ->).
  exists s. split; [exact Hs|].
  assert (Hv' : validRng g') by (apply validRng_draws with g; assumption).
  cbv zeta.
  unfold PlainStarField.projectStar, bind, ret.
  cbn [fst PlainStarField.StarData.position
       PlainStarField.StarData.attributes
       PlainStarField.StarData.glowIntensity
       PlainStarField.StarData.meshScale
       StarField.StarAttributes.name StarField.StarAttributes.spectralClass
       StarField.StarAttributes.temperature
       StarField.StarAttributes.radiusSun].
  set (cls := inferSpectralClass s).
  destruct (randInRange _ _ g') as [t g1] eqn:Et.
  destruct (randInRange _ _ g1) as [r g2] eqn:Er.
  destruct (Math_random g2) as [u g3] eqn:Eu.
  cbn [fst PlainStarField.StarData.position
       PlainStarField.StarData.attributes
       PlainStarField.StarData.glowIntensity
       PlainStarField.StarData.meshScale
       StarField.StarAttributes.name StarField.StarAttributes.spectralClass
       StarField.StarAttributes.temperature
       StarField.StarAttributes.radiusSun].
  assert (Hg1 : g1 = snd (randInRange
                            (fst (GalaxyCanvas.SpectralConfig.tempRange
                                    (GalaxyCanvas.SPECTRAL_CONFIG cls)))
                            (snd (GalaxyCanvas.SpectralConfig.tempRange
                                    (GalaxyCanvas.SPECTRAL_CONFIG cls))) g'))
    by now rewrite Et.
  assert (Hv1 : validRng g1)
    by (rewrite Hg1; apply validRng_draws with g'; [reflexivity | exact Hv']).
  assert (Hv2 : validRng g2).
  { replace g2 with (snd (r, g2)) by reflexivity. rewrite <- Er.
    apply validRng_draws with g1; [reflexivity | exact Hv1]. }
  split; [reflexivity|]. split; [reflexivity|]. split; [reflexivity|].
  split.
  { destruct (Hv2 (cursor g2)) as [H0 H1].
    assert (u = draws g2 (cursor g2)) as ->
      by (unfold Math_random in Eu; congruence).
    split; Lqa.lra. }
  split; [apply isInteger_Math_round|].
  split.
  { replace t with (fst (t, g1)) by reflexivity. rewrite <- Et.
    exact (class_temperature_in_range cls Hv'). }
  split; [|reflexivity].
  replace r with (fst (r, g2)) by reflexivity. rewrite <- Er.
  exact (class_radius_in_range cls Hv1).
Qed.

(** The star made of Vega in the plain field of the two records. *)
Lemma plain_field_contract_witness :
  exists d,
    nth_error (fst (PlainStarField.stars twoStars cyclingRng)) 0 = Some d /\
    PlainStarField.StarData.position d = catalogPosition vega.
Proof.
  destruct (@plain_field_contract twoStars cyclingRng cyclingRng_valid)
    as [_ H].
  destruct (nth_error (fst (PlainStarField.stars twoStars cyclingRng)) 0)
    as [d|] eqn:E; [|vm_compute in E; discriminate].
  exists d. split; [reflexivity|].
  destruct (H 0%nat d E) as (s & Hs & Hp & _).
  injection Hs as <-. exact Hp.
Defined.

End EasedSearch.

(* ================================================================== *)
(** * The conversion of the catalog *)
(* ================================================================== *)

Section Conversion.

Import BuildStars.

Ltac ladder_cases :=
  repeat match goal with
         | |- context [Qle_bool ?a ?b] =>
             let E := fresh "E" in
             destruct (Qle_bool a b) eqn:E;
             [apply Qle_bool_iff in E | apply Qle_bool_false_lt in E]
         end.

(** X21.  The rarity is monotone in the magnitude: a star that is at least
    as bright as another (smaller or equal magnitude) is at least as rare,
    and the steps are at the magnitudes 1, 2, 3, 4 and 5, inclusive. *)
Theorem rarityFromMag_monotone (m1 m2 : Q) :
  m1 <= m2 ->
  (rank (rarityFromMag m2) <= rank (rarityFromMag m1))%nat /\
  (rarityFromMag m1 = mythic <-> m1 <= 1) /\
  (rarityFromMag m1 = common <-> 5 < m1).
Proof.
  intros Hle. split; [|split].
  - unfold rarityFromMag. ladder_cases; cbn [rank];
      solve [lia | exfalso; Lqa.lra].
  - unfold rarityFromMag. ladder_cases;
      (split; [intros H; solve [assumption | discriminate]
              | intros H; solve [reflexivity | exfalso; Lqa.lra]]).
  - unfold rarityFromMag. ladder_cases;
      (split; [intros H; solve [assumption | discriminate]
              | intros H; solve [reflexivity | exfalso; Lqa.lra]]).
Qed.

(** Sirius and a star of magnitude 5.5. *)
Lemma rarityFromMag_monotone_witness :
  (rank (rarityFromMag (11 # 2)) <= rank (rarityFromMag (- (146 # 100))))%nat.
Proof.
  apply (@rarityFromMag_monotone (- (146 # 100)) (11 # 2)).
  discriminate.
Defined.

Local Open Scope R_scope.

Lemma toXYZ_length (raHours decDeg distParsec : R) :
  Vector3.length (toXYZ raHours decDeg distParsec)
  = Rabs distParsec * (5 / 10).
Proof.
  unfold toXYZ, Vector3.length, SCALE.
  set (a := raHours * PI / 12). set (d := decDeg * PI / 180).
  set (r := distParsec * (5 / 10)).
  pose proof (sin2_cos2 a) as Ha. pose proof (sin2_cos2 d) as Hd.
  unfold Rsqr in Ha, Hd.
  replace (r * cos d * cos a * (r * cos d * cos a)
           + r * cos d * sin a * (r * cos d * sin a)
           + r * sin d * (r * sin d))
    with (r * r * (cos d * cos d * (sin a * sin a + cos a * cos a)
                   + sin d * sin d)) by ring.
  rewrite Ha, Rmult_1_r.
  replace (cos d * cos d + sin d * sin d) with 1 by lra.
  rewrite Rmult_1_r. fold (Rsqr r). rewrite sqrt_Rsqr_abs.
  unfold r. rewrite Rabs_mult, (Rabs_pos_eq (5 / 10)) by lra.
  reflexivity.
Qed.

(** X22.  [toXYZ] puts a star at half its distance in parsecs from the
    origin, whatever its right ascension and declination; a star at
    distance 0 is put at the origin, and the stars of declination 0 lie in
    the plane z = 0. *)
Theorem toXYZ_norm (raHours decDeg distParsec : R) :
  Vector3.length (toXYZ raHours decDeg distParsec)
  = Rabs distParsec * (5 / 10) /\
  toXYZ raHours decDeg 0 = (0, 0, 0) /\
  snd (toXYZ raHours 0 distParsec) = 0.
Proof.
  split; [apply toXYZ_length|]. split.
  - unfold toXYZ. f_equal; [f_equal|]; ring.
  - unfold toXYZ. cbn [snd].
    replace (0 * PI / 180) with 0 by field. rewrite sin_0. ring.
Qed.

Lemma keepRow_filtered (c : Columns) (row : Row) :
  keepRow c = Some row ->
  (mag row <= 6)%Q /\ (distParsec row <= 2000)%Q /\
  Some (mag row) = magRaw c /\ Some (distParsec row) = distRaw c /\
  rarity row = rarityFromMag (mag row) /\
  xyz row = toXYZ (Q2R (raHours row)) (Q2R (decDeg row))
              (Q2R (distParsec row)) /\
  name row = (if Qlt_le_dec (distParsec row) (1 # 1000)
              then Some "Sun"%string else orNull (proper c)) /\
  spect row = orNull (spectRaw c).
Proof.
  unfold keepRow.
  destruct (raRaw c) as [ra|]; [|discriminate].
  destruct (decRaw c) as [dec|]; [|discriminate].
  destruct (distRaw c) as [dist|]; [|discriminate].
  destruct (magRaw c) as [m|]; [|discriminate].
  destruct (Qlt_le_dec 6 m) as [|Hm]; [discriminate|].
  destruct (Qlt_le_dec 2000 dist) as [|Hd]; [discriminate|].
  intros [= <-]. cbn [mag distParsec rarity xyz name spect raHours decDeg].
  repeat split; try assumption.
  destruct (Qlt_le_dec dist (1 # 1000)); reflexivity.
Qed.

Lemma keepRows_In (lines : list Columns) (row : Row) :
  In row (keepRows lines) ->
  exists c, In c lines /\ keepRow c = Some row.
Proof.
  induction lines as [|c lines IH]; cbn [keepRows]; [intros []|].
  destruct (keepRow c) as [r|] eqn:E.
  - intros [<- | Hin].
    + exists c. split; [now left | exact E].
    + destruct (IH Hin) as (c' & Hc' & Hk). exists c'. split;
        [now right | exact Hk].
  - intros Hin. destruct (IH Hin) as (c' & Hc' & Hk). exists c'. split;
      [now right | exact Hk].
Qed.

(** X23.  Every row that the conversion writes has a magnitude of at most
    6 and a distance of at most 2000 parsecs, the rarity of its magnitude,
    a position at half its distance from the origin, and the name "Sun"
    when it is nearer than 0.001 parsec; a name or a spectral type that
    would be empty is written as null.  No more rows are written than
    lines are read. *)
Theorem written_rows_are_filtered (lines : list Columns) :
  (List.length (keepRows lines) <= List.length lines)%nat /\
  Forall (fun row =>
            (mag row <= 6)%Q /\ (distParsec row <= 2000)%Q /\
            rarity row = rarityFromMag (mag row) /\
            Vector3.length (xyz row)
            = Rabs (Q2R (distParsec row)) * (5 / 10) /\
            name row <> Some ""%string /\ spect row <> Some ""%string /\
            name row = (if Qlt_le_dec (distParsec row) (1 # 1000)
                        then Some "Sun"%string else name row))
         (keepRows lines).
Proof.
  split.
  - induction lines as [|c lines IH]; cbn [keepRows List.length]; [lia|].
    destruct (keepRow c); cbn [List.length]; lia.
  - apply Forall_forall. intros row Hin.
    destruct (keepRows_In lines row Hin) as (c & _ & Hk).
    destruct (keepRow_filtered c Hk)
      as (Hm & Hd & _ & _ & Hr & Hx & Hn & Hs).
    split; [exact Hm|]. split; [exact Hd|]. split; [exact Hr|].
    split.
    { rewrite Hx. apply toXYZ_length. }
    assert (Hnull : forall s, orNull s <> Some ""%string).
    { intros s. unfold orNull. destruct s; cbn; congruence. }
    split.
    { rewrite Hn. destruct (Qlt_le_dec (distParsec row) (1 # 1000));
        [discriminate | apply Hnull]. }
    split; [rewrite Hs; apply Hnull|].
    rewrite Hn. destruct (Qlt_le_dec (distParsec row) (1 # 1000));
      reflexivity.
Qed.

Local Close Scope R_scope.

(** X24.  For a record without a recognised spectral letter the class M is
    the class of the magnitudes above 6 and of no other; the conversion
    writes no such magnitude, so none of its rows falls back to M. *)
Theorem fallback_to_M_only_above_6 (star : CatalogStar.t) :
  Reference.letterOf star = None ->
  (inferSpectralClass star = M <-> 6 < CatalogStar.mag star) /\
  forall lines,
    Forall (fun row => CatalogStar.mag star = mag row ->
                       inferSpectralClass star <> M)
           (keepRows lines).
Proof.
  intros Hl.
  assert (Hiff : inferSpectralClass star = M <-> 6 < CatalogStar.mag star).
  { rewrite inferSpectralClass_reference. unfold Reference.spectralClass.
    rewrite Hl.
    pose proof (firstMatch_onLadder (CatalogStar.mag star)) as H.
    unfold Reference.onLadder in H.
    set (c := Reference.firstMatch _ _) in *.
    split.
    - intros Hc. rewrite Hc in H.
      destruct H as [[_ H]|[(_ & _ & H)|[(_ & _ & H)|[(_ & _ & H)|
                    [(_ & _ & H)|[H _]]]]]];
        solve [discriminate | exact H].
    - intros Hm.
      destruct H as [[H _]|[(_ & H & _)|[(_ & H & _)|[(_ & H & _)|
                    [(_ & H & _)|[_ H]]]]]];
        solve [exact H | exfalso; Lqa.lra]. }
  split; [exact Hiff|].
  intros lines. apply Forall_forall. intros row Hin Hmag Hc.
  destruct (keepRows_In lines row Hin) as (c & _ & Hk).
  destruct (keepRow_filtered c Hk) as (Hm & _).
  apply Hiff in Hc. rewrite Hmag in Hc. Lqa.lra.
Qed.

(** A record of magnitude 6.5 without spectral type. *)
Lemma fallback_to_M_only_above_6_witness :
  inferSpectralClass (bareStar None (13 # 2)) = M.
Proof.
  destruct (@fallback_to_M_only_above_6 (bareStar None (13 # 2)) eq_refl)
    as [H _].
  apply H. reflexivity.
Defined.

Example sample_rows :
  map (fun row => (name row, rarity row)) (keepRows sampleLines)
  = [(Some "Sun"%string, mythic); (None, common)].
Proof. reflexivity. Qed.

End Conversion.

(* ================================================================== *)
(** * The clicks of the constellation scene *)
(* ================================================================== *)

Section Clicks.

Import ConstellationCanvas.

Lemma perform_ids (st : State) (op : Op) :
  idsOf (inventory (perform st op)) = idsOf (inventory st).
Proof.
  unfold idsOf. destruct op as [|id|pos|id|id|]; cbn [perform].
  - reflexivity.
  - unfold handleSelectInventoryStar.
    destruct (negb (editMode st)); reflexivity.
  - unfold handlePlaneClick.
    destruct (negb (editMode st)
              || negb (JS.truthyOpt (selectedInventoryId st)));
      [reflexivity|].
    destruct (selectedInventoryId st) as [armed|]; [|reflexivity].
    destruct (findById armed (inventory st)) as [base|] eqn:Hf;
      [|reflexivity].
    apply findById_Some in Hf as [_ Hid].
    cbn [inventory]. rewrite map_map. apply map_ext. intros s.
    destruct (String.eqb (InventoryStar.id s) armed) eqn:E; [|reflexivity].
    apply String.eqb_eq in E. cbn. congruence.
  - unfold handleReturnToInventory. cbn [inventory].
    rewrite map_map. apply map_ext. intros s.
    destruct (String.eqb (InventoryStar.id s) id); reflexivity.
  - unfold handlePlacedStarClick.
    destruct (findById id (inventory st)) as [star|]; [|reflexivity].
    destruct (InventoryStar.position star); reflexivity.
  - reflexivity.
Qed.

(** A click does nothing or calls one handler. *)
Lemma dispatch_perform (st : State) (c : Click) :
  dispatch st c = st \/ exists op, dispatch st c = perform st op.
Proof.
  destruct c as [|id|id|pos|id|]; cbn [dispatch].
  - right. now exists ToggleEdit.
  - unfold clickUse. destruct (findById id (inventory st)) as [s|];
      [|now left].
    destruct (InventoryStar.placed s); [now left|].
    destruct (negb (editMode st)); [now left|].
    right. now exists (ArmForPlacement id).
  - unfold clickReturn. destruct (findById id (inventory st)) as [s|];
      [|now left].
    destruct (InventoryStar.placed s); [|now left].
    right. now exists (ReturnToInventory id).
  - unfold clickPlane. destruct (negb (editMode st)); [now left|].
    right. now exists (PlaceAt pos).
  - unfold clickPlacedStar.
    destruct (findById id (placedStars st)); [|now left].
    right. now exists (PlacedStarClick id).
  - right. now exists BackgroundClick.
Qed.

Lemma findById_In_ids (id : string) (inv : list InventoryStar.t) :
  In id (idsOf inv) <-> exists s, findById id inv = Some s.
Proof.
  unfold idsOf, findById. induction inv as [|e inv IH]; cbn.
  - split; [intros [] | intros [s H]; discriminate].
  - destruct (String.eqb (InventoryStar.id e) id) eqn:E.
    + apply String.eqb_eq in E. split; [now exists e | now left].
    + apply String.eqb_neq in E. rewrite <- IH. tauto.
Qed.

Lemma dispatch_armedIsEntry (st : State) (c : Click) :
  armedIsEntry st -> armedIsEntry (dispatch st c).
Proof.
  intros [Hids Harm].
  assert (Hpres : idsOf (inventory (dispatch st c)) = idsOf (inventory st)).
  { destruct (dispatch_perform st c) as [-> | [op ->]];
      [reflexivity | apply perform_ids]. }
  split; [now rewrite Hpres|]. rewrite Hpres. clear Hpres.
  destruct c as [|id|id|pos|id|]; cbn [dispatch].
  - unfold handleToggleEdit. cbn.
    destruct (editMode st); [exact I | exact Harm].
  - unfold clickUse.
    destruct (findById id (inventory st)) as [s|] eqn:Hf; [|exact Harm].
    destruct (InventoryStar.placed s); [exact Harm|].
    destruct (negb (editMode st)) eqn:He; [exact Harm|].
    unfold handleSelectInventoryStar. rewrite He. cbn.
    assert (Hin : In id (idsOf (inventory st)))
      by (apply findById_In_ids; now exists s).
    destruct (selectedInventoryId st) as [prev|]; [|exact Hin].
    destruct (String.eqb prev id); [exact I | exact Hin].
  - unfold clickReturn.
    destruct (findById id (inventory st)) as [s|]; [|exact Harm].
    destruct (InventoryStar.placed s); [|exact Harm].
    unfold handleReturnToInventory. cbn.
    destruct (selectedInventoryId st) as [armed|]; [|exact I].
    destruct (String.eqb armed id); [exact I | exact Harm].
  - unfold clickPlane. destruct (negb (editMode st)); [exact Harm|].
    unfold handlePlaneClick.
    destruct (negb (editMode st)
              || negb (JS.truthyOpt (selectedInventoryId st)));
      [exact Harm|].
    destruct (selectedInventoryId st) as [armed|] eqn:Ha;
      [|now rewrite Ha].
    destruct (findById armed (inventory st)); cbn; now rewrite ?Ha.
  - unfold clickPlacedStar.
    destruct (findById id (placedStars st)); [|exact Harm].
    unfold handlePlacedStarClick.
    destruct (findById id (inventory st)) as [s|] eqn:Hf; [|exact Harm].
    destruct (InventoryStar.position s); [|exact Harm].
    cbn. destruct (editMode st); [|exact Harm].
    apply findById_In_ids. now exists s.
  - exact I.
Qed.

Lemma dispatchAll_armedIsEntry (clicks : list Click) (st : State) :
  armedIsEntry st -> armedIsEntry (dispatchAll st clicks).
Proof.
  unfold dispatchAll. revert st.
  induction clicks as [|c clicks IH]; intros st H; cbn [fold_left].
  - exact H.
  - apply IH. now apply dispatch_armedIsEntry.
Qed.

Lemma initial_armedIsEntry (g : Rng) : armedIsEntry (initialState g).
Proof.
  split; [|exact I]. rewrite initial_ids.
  repeat constructor.
Qed.

(** X25.  Whatever the user has clicked, an armed id is the id of an
    inventory entry, so in edit mode a click on the plane never falls
    through: the armed entry is placed at the snapped position and becomes
    the displayed-selected star. *)
Theorem armed_entry_is_always_placeable (g : Rng) (clicks : list Click) :
  let st := dispatchAll (initialState g) clicks in
  forall a p,
    editMode st = true ->
    selectedInventoryId st = Some a ->
    exists base,
      findById a (inventory st) = Some base /\
      findById a (inventory (dispatch st (ClickPlane p)))
      = Some (placedAt base (snapToGrid p 1)) /\
      selectedStar (dispatch st (ClickPlane p))
      = Some (placedAt base (snapToGrid p 1)).
Proof.
  intros st a p He Ha.
  assert (H : armedIsEntry st).
  { unfold st. apply dispatchAll_armedIsEntry, initial_armedIsEntry. }
  destruct H as [Hids Harm]. rewrite Ha in Harm.
  assert (Ht : JS.truthy a = true).
  { rewrite Forall_forall in Hids. now apply Hids. }
  apply findById_In_ids in Harm as [base Hf].
  exists base. split; [exact Hf|].
  cbn [dispatch]. unfold clickPlane. rewrite He. cbn [negb].
  rewrite (handlePlaneClick_armed p st He Ha Ht Hf).
  cbn [inventory selectedStar]. split; [|reflexivity].
  apply findById_replaced with (base := base); [|exact Hf].
  now apply findById_Some in Hf.
Qed.

(** Edit mode is entered, [common-0] is used and the plane is clicked. *)
Lemma armed_entry_is_always_placeable_witness :
  selectedStar
    (dispatch (dispatchAll (initialState quarterRng)
                 [ClickToggleEdit; ClickUse "common-0"])
       (ClickPlane (14 # 10, 26 # 10, - (2 # 10))))
  = Some (placedAt common0 (1, 3, 0)).
Proof.
  pose proof (@armed_entry_is_always_placeable quarterRng
                [ClickToggleEdit; ClickUse "common-0"]) as T.
  cbv zeta in T.
  destruct (T "common-0"%string (14 # 10, 26 # 10, - (2 # 10))
              eq_refl eq_refl) as (base & Hb & _ & Hs).
  rewrite Hs. f_equal.
  assert (Hc : findById "common-0"
                 (inventory (dispatchAll (initialState quarterRng)
                               [ClickToggleEdit; ClickUse "common-0"]))
               = Some common0) by reflexivity.
  rewrite Hc in Hb. now injection Hb as <-.
Defined.

End Clicks.

Section PlacedStars.

Import ConstellationCanvas.

(** X26.  A click on a placed star displays it; in edit mode it also arms
    it, so that the next click on the plane moves that star to the snapped
    position; outside edit mode the armed id is left as it is. *)
Theorem placed_star_click_then_move (id : string) (q : Point) (st : State)
    (s : InventoryStar.t) (p : Point) :
  findById id (inventory st) = Some s ->
  InventoryStar.position s = Some p ->
  JS.truthy id = true ->
  let st1 := handlePlacedStarClick id st in
  selectedStar st1 = Some s /\
  inventory st1 = inventory st /\
  (editMode st = false ->
   selectedInventoryId st1 = selectedInventoryId st) /\
  (editMode st = true ->
   selectedInventoryId st1 = Some id /\
   findById id (inventory (handlePlaneClick q st1))
   = Some (placedAt s (snapToGrid q 1)) /\
   selectedStar (handlePlaneClick q st1)
   = Some (placedAt s (snapToGrid q 1))).
Proof.
  intros Hf Hp Ht st1.
  assert (H1 : st1 = mkState (inventory st) (editMode st)
                       (if editMode st then Some id
                        else selectedInventoryId st) (Some s)).
  { unfold st1, handlePlacedStarClick. now rewrite Hf, Hp. }
  rewrite H1. cbn [selectedStar inventory selectedInventoryId].
  split; [reflexivity|]. split; [reflexivity|]. split.
  - intros ->. reflexivity.
  - intros He. rewrite He. split; [reflexivity|].
    rewrite (@handlePlaneClick_armed q
               (mkState (inventory st) true (Some id) (Some s)) id s);
      [|reflexivity | reflexivity | exact Ht | exact Hf].
    cbn [inventory selectedStar]. split; [|reflexivity].
    apply findById_replaced with (base := s); [|exact Hf].
    now apply findById_Some in Hf.
Qed.

(** [common-0], placed at (1, 3, 0), is clicked and moved to (5, 5, 0). *)
Lemma placed_star_click_then_move_witness :
  findById "common-0"
    (inventory
       (handlePlaneClick (5, 5, 0)
          (handlePlacedStarClick "common-0" placedScene)))
  = Some (placedAt common0 (5, 5, 0)).
Proof.
  pose proof (@placed_star_click_then_move "common-0" (5, 5, 0) placedScene
                (placedAt common0 (1, 3, 0)) (1, 3, 0)
                eq_refl eq_refl eq_refl) as T.
  cbv zeta in T. destruct T as (_ & _ & _ & T).
  destruct (T eq_refl) as (_ & Hm & _). exact Hm.
Defined.

Lemma filter_placed_wellPlaced (inv : list InventoryStar.t) :
  Forall wellPlaced inv ->
  filter (fun s => InventoryStar.placed s &&
                   match InventoryStar.position s with
                   | Some _ => true
                   | None => false
                   end) inv
  = filter InventoryStar.placed inv.
Proof.
  induction inv as [|s inv IH]; intros H; [reflexivity|].
  inversion H as [|? ? Hs Hinv]; subst. cbn [filter].
  rewrite (IH Hinv).
  destruct Hs as [Hiff _].
  destruct (InventoryStar.placed s) eqn:Ep; [|reflexivity].
  destruct (InventoryStar.position s) eqn:Epos; [reflexivity|].
  exfalso. now apply Hiff.
Qed.

(** X27.  In every state reached from the initial one the scene renders a
    star for every entry flagged as placed, none being lost for want of a
    position; the rows offering [Return] and the rows offering [Use] are
    seven together. *)
Theorem every_placed_entry_is_rendered (g : Rng) (ops : list Op) :
  let st := applyAll (initialState g) ops in
  placedStars st = filter InventoryStar.placed (inventory st) /\
  (List.length (placedStars st)
   + List.length (filter (fun s => negb (InventoryStar.placed s))
                    (inventory st)) = 7)%nat.
Proof.
  intros st.
  assert (Hwp : Forall wellPlaced (inventory st))
    by (apply applyAll_wellPlaced, initialState_wellPlaced).
  assert (Hp : placedStars st = filter InventoryStar.placed (inventory st))
    by (apply filter_placed_wellPlaced, Hwp).
  split; [exact Hp|]. rewrite Hp.
  assert (Hlen : List.length (inventory st) = 7%nat).
  { rewrite <- (length_map fixedPart).
    unfold st. rewrite applyAll_fixedPart by apply initial_ids_NoDup.
    now rewrite length_map. }
  rewrite <- Hlen. clear. induction (inventory st) as [|s inv IH];
    [reflexivity|].
  cbn [filter]. destruct (InventoryStar.placed s); cbn [negb List.length];
    lia.
Qed.

End PlacedStars.
